(** * Small-Shell: the parser, the process launcher, the job table and the
      signal handlers of [smallsh.c], embedded and verified.

    The development follows the source function by function.  State that
    the C program keeps in globals is a record threaded through a small
    state/trace/exit monad; answers of the operating system (fork, waitpid,
    open, execvp, chdir) are inputs of the model; accesses outside an
    object yield the outcome [Undefined]. *)

From Stdlib Require Import ZArith String Ascii List Bool DecimalString Lia.
From stdpp Require Import base option list gmap strings.
Import ListNotations.

Local Open Scope string_scope.
Local Open Scope Z_scope.

(** ** The C library's string functions, as far as [smallsh.c] uses them *)

Module CString.

Definition MAX_LENGTH : nat := 2048.

Definition NUL : ascii := "000"%char.
Definition SPACE : ascii := " "%char.
Definition NEWLINE : ascii := "010"%char.

(** A [char *] designates the characters up to the first NUL. *)
Fixpoint cstr (s : string) : string :=
  match s with
  | EmptyString => EmptyString
  | String c s' => if Ascii.eqb c NUL then EmptyString else String c (cstr s')
  end.

Definition strlen (s : string) : nat := String.length (cstr s).

(** [char *delimiter = " \n"] *)
Definition is_delimiter (c : ascii) : bool :=
  Ascii.eqb c SPACE || Ascii.eqb c NEWLINE.

Definition yield (cur : string) (toks : list string) : list string :=
  match cur with
  | EmptyString => toks
  | _ => cur :: toks
  end.

(** The tokens that [strtok (command, " \n")] followed by repeated
    [strtok (NULL, " \n")] returns, in order: the maximal runs of
    characters other than the delimiters.  [cur] is the token being
    scanned. *)
Fixpoint strtok_from (cur : string) (s : string) : list string :=
  match s with
  | EmptyString => yield cur []
  | String c s' =>
      if Ascii.eqb c NUL then yield cur []
      else if is_delimiter c then yield cur (strtok_from EmptyString s')
      else strtok_from (cur ++ String c EmptyString) s'
  end.

Definition strtok_all (line : string) : list string :=
  strtok_from EmptyString line.

(** [regcomp (&regex, "^#", 0)] then [regexec]: 0 (a match) exactly when
    the token starts with the comment character. *)
Definition isComment (token : string) : bool := String.prefix "#" token.

(** [strstr (token, "$$") - token], when [strstr] finds an occurrence. *)
Definition strstr_dollars (token : string) : option nat :=
  String.index 0 "$$" token.

(** [sprintf] of ["%d"]. *)
Definition sprintf_d (n : Z) : string :=
  NilZero.string_of_int (Z.to_int n).

(** Every character of [s] satisfies [P]. *)
Fixpoint all_chars (P : ascii → bool) (s : string) : bool :=
  match s with
  | EmptyString => true
  | String c s' => P c && all_chars P s'
  end.

Definition newline : string := String NEWLINE EmptyString.

End CString.

(** ** The parser: [struct command] and [getCommand] *)

Module Parser.
Import CString.

(** An entry of [args] is a [char *]: it points either at a token inside
    the command buffer, where [strtok] left it NUL-terminated, or at the
    array [res] that [getCommand] declares in its [$$] branch.  The model
    keeps [res] as one array for the whole call and beyond it, the way a
    compiler lays out the frame: an entry that points at it reads what
    the array holds when the entry is followed, so two such entries read
    the same string. *)
Inductive argptr : Type :=
| Tok (token : string)
| Res.

(** [struct command]; [None] is the null pointer.  [args] is the array
    that [runShell] allocates, one entry per character of the line, every
    entry null before parsing. *)
Record command : Type := mkCommand {
  args : list (option argptr);
  inputFile : option string;
  outputFile : option string;
  background : bool
}.

(** The locals of [getCommand] that live across iterations of its loop,
    with the command under construction. *)
Record pstate : Type := mkPstate {
  cmd : command;
  i : nat;
  res : string;
  outRedirect : bool;
  inRedirect : bool
}.

Definition set_outputFile (token : string) (st : pstate) : pstate :=
  {| cmd := {| args := args (cmd st); inputFile := inputFile (cmd st);
               outputFile := Some token; background := background (cmd st) |};
     i := i st; res := res st; outRedirect := false; inRedirect := inRedirect st |}.

Definition set_inputFile (token : string) (st : pstate) : pstate :=
  {| cmd := {| args := args (cmd st); inputFile := Some token;
               outputFile := outputFile (cmd st); background := background (cmd st) |};
     i := i st; res := res st; outRedirect := outRedirect st; inRedirect := false |}.

Definition set_inRedirect (st : pstate) : pstate :=
  {| cmd := cmd st; i := i st; res := res st;
     outRedirect := outRedirect st; inRedirect := true |}.

Definition set_outRedirect (st : pstate) : pstate :=
  {| cmd := cmd st; i := i st; res := res st;
     outRedirect := true; inRedirect := inRedirect st |}.

Definition set_background (st : pstate) : pstate :=
  {| cmd := {| args := args (cmd st); inputFile := inputFile (cmd st);
               outputFile := outputFile (cmd st); background := true |};
     i := i st; res := res st;
     outRedirect := outRedirect st; inRedirect := inRedirect st |}.

(** [curCommand->args[i] = p], for [i] inside the array. *)
Definition set_arg (p : option argptr) (st : pstate) : pstate :=
  {| cmd := {| args := <[i st := p]> (args (cmd st)); inputFile := inputFile (cmd st);
               outputFile := outputFile (cmd st); background := background (cmd st) |};
     i := i st; res := res st;
     outRedirect := outRedirect st; inRedirect := inRedirect st |}.

Definition incr_i (st : pstate) : pstate :=
  {| cmd := cmd st; i := S (i st); res := res st;
     outRedirect := outRedirect st; inRedirect := inRedirect st |}.

Definition set_res (r : string) (st : pstate) : pstate :=
  {| cmd := cmd st; i := i st; res := r;
     outRedirect := outRedirect st; inRedirect := inRedirect st |}.

Inductive step_result : Type :=
| Next (st : pstate)      (* go on with the next token *)
| Stop (st : pstate)      (* [break] *)
| Fault.                  (* a write outside [args] or [res] *)

(** The [$$] branch up to the [sprintf]: [pre] and [post] are cut out of
    the token by the two [strncpy] calls, and since neither array is a
    null pointer the last [sprintf], of ["%s%d%s"], is the one that runs.
    [res] holds [MAX_LENGTH] characters, terminator included; a result
    that fits leaves room for [pre] and [post] in their arrays too. *)
Definition expand_pid (pid : Z) (token : string) (replace : nat) : option string :=
  let pre := String.substring 0 replace token in
  let post := String.substring (replace + 2)
                (String.length token - (replace + 2)) token in
  let r := pre ++ sprintf_d pid ++ post in
  if (String.length r <? MAX_LENGTH)%nat then Some r else None.

(** [curCommand->args[i++] = p] *)
Definition store_arg (p : argptr) (st : pstate) : step_result :=
  if (i st <? length (args (cmd st)))%nat
  then Next (incr_i (set_arg (Some p) st)) else Fault.

(** The body of the [while] loop for one token.  [pid] is what [getpid]
    returns, [disabled] the global [backgroundDisabled]. *)
Definition getCommand_body (pid : Z) (disabled : bool)
    (st : pstate) (token : string) : step_result :=
  if outRedirect st then Next (set_outputFile token st)
  else if inRedirect st then Next (set_inputFile token st)
  else if isComment token then
    (if (i st <? length (args (cmd st)))%nat then Stop (set_arg None st) else Fault)
  else if String.eqb token "<" then Next (set_inRedirect st)
  else if String.eqb token ">" then Next (set_outRedirect st)
  else if String.eqb token "&" then
    (if disabled then Next st else Next (set_background st))
  else match strstr_dollars token with
       | Some replace =>
           match expand_pid pid token replace with
           | Some r => store_arg Res (set_res r st)
           | None => Fault
           end
       | None => store_arg (Tok token) st
       end.

Fixpoint getCommand_loop (pid : Z) (disabled : bool)
    (tokens : list string) (st : pstate) : option pstate :=
  match tokens with
  | [] => Some st
  | token :: rest =>
      match getCommand_body pid disabled st token with
      | Next st' => getCommand_loop pid disabled rest st'
      | Stop st' => Some st'
      | Fault => None
      end
  end.

Definition start (curCommand : command) : pstate :=
  {| cmd := curCommand; i := 0; res := EmptyString;
     outRedirect := false; inRedirect := false |}.

(** [getCommand (command, curCommand)], the first argument being called
    [line] here: the command filled in, and what [res] holds when the
    function returns; [None] after a write outside an array. *)
Definition getCommand (pid : Z) (disabled : bool)
    (line : string) (curCommand : command) : option (command * string) :=
  match getCommand_loop pid disabled (strtok_all line) (start curCommand) with
  | Some st => Some (cmd st, res st)
  | None => None
  end.

(** The string an entry of [args] reads, given the contents of [res]. *)
Definition arg_string (res : string) (p : argptr) : string :=
  match p with
  | Tok token => token
  | Res => res
  end.

(** The argument vector a reader of [args] sees: the strings of the
    entries before the first null pointer; [None] when the array holds no
    null pointer, so that the reader runs off its end. *)
Fixpoint argv (res : string) (args : list (option argptr)) : option (list string) :=
  match args with
  | [] => None
  | None :: _ => Some []
  | Some p :: rest =>
      match argv res rest with
      | Some l => Some (arg_string res p :: l)
      | None => None
      end
  end.

(** The command as [runShell] sets it up before the parse of a line of
    [n] characters: [malloc (n * sizeof (char * ))], every entry null. *)
Definition blank (n : nat) : command :=
  {| args := replicate n None; inputFile := None; outputFile := None;
     background := false |}.

(** What [runShell] obtains for a line: allocation, then [getCommand]. *)
Definition parse (pid : Z) (disabled : bool) (buffer : string)
    : option (command * string) :=
  getCommand pid disabled buffer (blank (strlen buffer)).

End Parser.

(** ** Descriptors *)

Module Sys.

(** Flags of [open], as the source combines them. *)
Inductive oflag : Type := O_RDONLY | O_WRONLY | O_TRUNC | O_CREAT.

(** What a descriptor refers to: a file the shell inherited at start-up,
    or one opened since. *)
Inductive file : Type :=
| Inherited (fd : Z)
| Opened (path : string) (flags : list oflag).

(** The smallest descriptor that is not open, which is what [dup] and
    [open] return.  Among [size fds + 1] candidates one is free. *)
Definition lowest_free (fds : gmap Z file) : option Z :=
  head (filter (λ n, fds !! n = None) (seqZ 0 (Z.of_nat (S (size fds))))).

End Sys.

(** ** The shell: globals, built-ins, launcher, job table, handlers

    Signal handlers are functions of the model like the others: a history
    of the shell is a sequence of passes of the loop and of handler runs,
    each run to its end before the next starts. *)

Module Shell.
Import CString Parser Sys.

Definition CHILD : Z := 0.
Definition MAX_PROCS : nat := 50.
Definition SIGKILL : Z := 9.
Definition STDIN_FILENO : Z := 0.
Definition STDOUT_FILENO : Z := 1.
Definition EXIT_SUCCESS : Z := 0.
Definition EXIT_FAILURE : Z := 1.

(** [WEXITSTATUS (status)], which the C library defines as
    [((status) & 0xff00) >> 8]. *)
Definition WEXITSTATUS (status : Z) : Z :=
  Z.shiftr (Z.land status 65280) 8.

(** [struct backProcess] *)
Record backProcess : Type := mkBackProcess {
  backPID : Z;
  active : bool
}.

(** The global variables, and the descriptor table of the process.
    [backProcs] is an array of [MAX_PROCS] pointers, [None] being null. *)
Record shell : Type := mkShell {
  forePID : Z;
  backProcs : list (option backProcess);
  exitStatus : Z;
  backgroundDisabled : bool;
  fds : gmap Z file
}.

(** What the operating system answers during one pass of the shell's
    loop.  [waitpid] is the answer to the blocking wait of [runCommand]:
    the value returned and the status stored when that value is a pid. *)
Record os : Type := mkOs {
  getpid : Z;
  fork : Z;
  waitpid : Z * Z;
  open_max : Z;
  can_open : string → list oflag → bool;
  execvp_ok : bool;
  getenv_HOME : option string;
  chdir : option string → Z
}.

(** ** Events, outcomes, and the monad of the shell's functions *)

(** What an observer of the process sees. *)
Inductive event : Type :=
| Print (s : string)                    (* written to stdout *)
| Perror (s : string)
| Kill (pid sig : Z)
| Free (p : backProcess)                (* [free] of a job record *)
| Fork (ret : Z)
| Dup2 (oldfd newfd : Z)
| Chdir (path : option string) (ret : Z).

Inductive outcome (A : Type) : Type :=
| Ret (a : A) (g : shell) (tr : list event)
| Exited (code : Z) (g : shell) (tr : list event)         (* [exit (code)] *)
| Execed (argv : list string) (g : shell) (tr : list event) (* [execvp] succeeded *)
| Undefined (tr : list event).         (* an access outside an object *)
Arguments Ret {A} a g tr.
Arguments Exited {A} code g tr.
Arguments Execed {A} argv g tr.
Arguments Undefined {A} tr.

Definition M (A : Type) : Type := shell → outcome A.

Definition ret {A} (a : A) : M A := λ g, Ret a g [].

(** [prepend tr r]: the outcome [r], reached after the events [tr]. *)
Definition prepend {A} (tr : list event) (r : outcome A) : outcome A :=
  match r with
  | Ret a g tr' => Ret a g (tr ++ tr')%list
  | Exited c g tr' => Exited c g (tr ++ tr')%list
  | Execed v g tr' => Execed v g (tr ++ tr')%list
  | Undefined tr' => Undefined (tr ++ tr')%list
  end.

Definition bind {A B} (m : M A) (k : A → M B) : M B := λ g,
  match m g with
  | Ret a g1 tr1 => prepend tr1 (k a g1)
  | Exited c g1 tr1 => Exited c g1 tr1
  | Execed v g1 tr1 => Execed v g1 tr1
  | Undefined tr1 => Undefined tr1
  end.

(** The class instances give [M] stdpp's notations [x ← m; k] and
    [m ;; k]. *)
#[global] Instance M_ret : MRet M := @ret.
#[global] Instance M_bind : MBind M := λ A B k m, bind m k.

Definition get : M shell := λ g, Ret g g [].
Definition emit (e : event) : M unit := λ g, Ret tt g [e].
Definition exit {A} (code : Z) : M A := λ g, Exited code g [].
Definition undefined {A} : M A := λ _, Undefined [].

Definition set_forePID (v : Z) : M unit := λ g,
  Ret tt {| forePID := v; backProcs := backProcs g; exitStatus := exitStatus g;
            backgroundDisabled := backgroundDisabled g; fds := fds g |} [].

Definition set_backProcs (v : list (option backProcess)) : M unit := λ g,
  Ret tt {| forePID := forePID g; backProcs := v; exitStatus := exitStatus g;
            backgroundDisabled := backgroundDisabled g; fds := fds g |} [].

Definition set_exitStatus (v : Z) : M unit := λ g,
  Ret tt {| forePID := forePID g; backProcs := backProcs g; exitStatus := v;
            backgroundDisabled := backgroundDisabled g; fds := fds g |} [].

Definition set_backgroundDisabled (v : bool) : M unit := λ g,
  Ret tt {| forePID := forePID g; backProcs := backProcs g;
            exitStatus := exitStatus g; backgroundDisabled := v; fds := fds g |} [].

Definition set_fds (v : gmap Z file) : M unit := λ g,
  Ret tt {| forePID := forePID g; backProcs := backProcs g;
            exitStatus := exitStatus g;
            backgroundDisabled := backgroundDisabled g; fds := v |} [].

(** [for (i = 0; i < n; i++) body] *)
Fixpoint for_from (i n : nat) (body : nat → M unit) : M unit :=
  match n with
  | O => ret tt
  | S n' => body i ;; for_from (S i) n' body
  end.

Definition for_upto (n : nat) (body : nat → M unit) : M unit :=
  for_from 0 n body.

(** *** System calls on descriptors *)

Definition dup (o : os) (oldfd : Z) : M Z :=
  g ← get;
  match fds g !! oldfd, lowest_free (fds g) with
  | Some f, Some n =>
      if n <? open_max o then set_fds (<[n := f]> (fds g)) ;; ret n
      else ret (-1)
  | _, _ => ret (-1)
  end.

Definition dup2 (oldfd newfd : Z) : M unit :=
  g ← get;
  emit (Dup2 oldfd newfd) ;;
  match fds g !! oldfd with
  | Some f => set_fds (<[newfd := f]> (fds g))
  | None => ret tt
  end.

Definition open (o : os) (path : string) (flags : list oflag) : M Z :=
  g ← get;
  match lowest_free (fds g) with
  | Some n =>
      if can_open o path flags && (n <? open_max o)
      then set_fds (<[n := Opened path flags]> (fds g)) ;; ret n
      else ret (-1)
  | None => ret (-1)
  end.

Definition close (fd : Z) : M unit :=
  g ← get; set_fds (delete fd (fds g)).

(** *** [exitShell] *)

(** The body of the loop of [exitShell]. *)
Definition exitShell_body (i : nat) : M unit :=
  g ← get;
  match backProcs g !! i with
  | Some (Some p) =>
      emit (Kill (backPID p) SIGKILL) ;;
      emit (Free p) ;;
      set_backProcs (<[i := None]> (backProcs g))
  | Some None => ret tt
  | None => undefined
  end.

Definition exitShell : M unit :=
  for_upto MAX_PROCS exitShell_body ;;
  exit EXIT_SUCCESS.

(** *** [changeDir] *)

Definition changeDir (o : os) (path : option string) : M unit :=
  match path with
  | None =>
      let dir := chdir o (getenv_HOME o) in
      emit (Chdir (getenv_HOME o) dir) ;;
      if dir =? -1 then emit (Perror "Error:") else ret tt
  | Some p =>
      let dir := chdir o (Some p) in
      emit (Chdir (Some p) dir) ;;
      if dir =? -1 then emit (Perror "Error:") else ret tt
  end.

(** *** [printStatus] *)

Definition printStatus : M unit :=
  g ← get;
  emit (Print ("exit value " ++ sprintf_d (exitStatus g) ++ newline)).

(** *** [saveProcess]

    The scan [while (saved == FALSE)] has no bound of its own: on a full
    table it goes on to read [backProcs[MAX_PROCS]].  [i] is the index
    the scan has reached, [n] the number of entries left before the end
    of the array; once the record is stored the remaining pass only
    increments [i]. *)
Fixpoint saveProcess_scan (proc : backProcess) (i n : nat) : M unit :=
  match n with
  | O => undefined
  | S n' =>
      g ← get;
      match backProcs g !! i with
      | Some None => set_backProcs (<[i := Some proc]> (backProcs g))
      | Some (Some _) => saveProcess_scan proc (S i) n'
      | None => undefined
      end
  end.

Definition saveProcess (spawnpid : Z) : M unit :=
  let proc := {| backPID := spawnpid; active := true |} in
  saveProcess_scan proc 0 MAX_PROCS.

(** *** [runCommand] *)

Definition DEV_NULL : string := "/dev/null".

Definition is_null {A} (p : option A) : bool :=
  match p with None => true | Some _ => false end.

(** The child's side of [fork]: redirections, then [execvp]. *)
Definition runCommand_child (o : os) (c : command * string) : M Z :=
  let curCommand := fst c in
  (if background curCommand then
     (if is_null (outputFile curCommand) then
        outputFD ← open o DEV_NULL [O_WRONLY];
        if outputFD =? -1
        then emit (Print ("error: cannot complete command" ++ newline)) ;; exit 1
        else dup2 outputFD STDOUT_FILENO ;; close outputFD
      else ret tt) ;;
     (if is_null (inputFile curCommand) then
        inputFD ← open o DEV_NULL [O_RDONLY];
        if inputFD =? -1
        then emit (Print ("error: cannot complete command" ++ newline)) ;; exit 1
        else dup2 inputFD STDIN_FILENO ;; close inputFD
      else ret tt)
   else
     match outputFile curCommand with
     | Some out =>
         outputFD ← open o out [O_WRONLY; O_TRUNC; O_CREAT];
         if outputFD =? -1
         then emit (Print ("cannot open " ++ out ++ " for output" ++ newline)) ;; exit 1
         else dup2 outputFD STDOUT_FILENO ;; close outputFD
     | None => ret tt
     end ;;
     match inputFile curCommand with
     | Some inp =>
         inputFD ← open o inp [O_RDONLY];
         if inputFD =? -1
         then emit (Print ("cannot open " ++ inp ++ " for input" ++ newline)) ;; exit 1
         else dup2 inputFD STDIN_FILENO ;; close inputFD
     | None => ret tt
     end) ;;
  match argv (snd c) (args curCommand) with
  | Some (prog :: rest) =>
      if execvp_ok o then (λ g, Execed (prog :: rest) g [])
      else emit (Print (prog ++ ": no such file or directory" ++ newline)) ;; exit 1
  | _ => undefined
  end.

(** The parent's side of [fork]. *)
Definition runCommand_parent (o : os) (c : command * string)
    (stdOut stdIn spawnpid : Z) : M Z :=
  let curCommand := fst c in
  (if background curCommand then
     saveProcess spawnpid ;;
     emit (Print ("background pid is " ++ sprintf_d spawnpid ++ newline))
   else
     set_forePID spawnpid ;;
     (if 0 <? fst (waitpid o) then set_exitStatus (snd (waitpid o)) else ret tt)) ;;
  (if is_null (inputFile curCommand) then ret tt else dup2 stdIn STDIN_FILENO) ;;
  (if is_null (outputFile curCommand) then ret tt else dup2 stdOut STDOUT_FILENO) ;;
  g ← get;
  ret (WEXITSTATUS (exitStatus g)).

Definition runCommand (o : os) (c : command * string) : M Z :=
  stdOut ← dup o STDOUT_FILENO;
  stdIn ← dup o STDIN_FILENO;
  if (stdOut =? -1) || (stdIn =? -1) then
    emit (Perror "Error") ;; exit EXIT_FAILURE
  else
    let spawnpid := fork o in
    emit (Fork spawnpid) ;;
    if spawnpid =? CHILD then runCommand_child o c
    else if CHILD <? spawnpid then runCommand_parent o c stdOut stdIn spawnpid
    else emit (Perror "Error") ;; exit EXIT_FAILURE.

(** *** The signal handlers *)

Definition interruptSignal (sigNum : Z) : M unit :=
  g ← get;
  emit (Kill (forePID g) SIGKILL) ;;
  emit (Print ("terminated by signal " ++ sprintf_d sigNum ++ newline)).

Definition mark_inactive (p : backProcess) : backProcess :=
  {| backPID := backPID p; active := false |}.

(** The body of the loop of [childTerminates].  [w i] is the answer to
    the [waitpid (..., WNOHANG)] made for slot [i]: the value returned
    and, when that value is a pid, the status stored in [exitStatus]. *)
Definition childTerminates_body (w : nat → Z * Z) (i : nat) : M unit :=
  g ← get;
  match backProcs g !! i with
  | Some (Some p) =>
      let pid := fst (w i) in
      if 0 <? pid then
        set_exitStatus (snd (w i)) ;;
        g1 ← get;
        set_backProcs (<[i := Some (mark_inactive p)]> (backProcs g1)) ;;
        emit (Kill (backPID (mark_inactive p)) SIGKILL) ;;
        g2 ← get;
        (if negb (exitStatus g2 =? 0) && negb (exitStatus g2 =? 1)
         then emit (Print ("background pid " ++ sprintf_d pid
                             ++ " is done: terminated by signal "
                             ++ sprintf_d (exitStatus g2) ++ newline))
         else emit (Print ("background pid " ++ sprintf_d pid
                             ++ " is done: exit value "
                             ++ sprintf_d (exitStatus g2) ++ newline))) ;;
        emit (Free (mark_inactive p)) ;;
        g3 ← get;
        set_backProcs (<[i := None]> (backProcs g3))
      else ret tt
  | Some None => ret tt
  | None => undefined
  end.

Definition childTerminates (w : nat → Z * Z) (sigNum : Z) : M unit :=
  for_upto MAX_PROCS (childTerminates_body w).

Definition disableBackground (sigNum : Z) : M unit :=
  g ← get;
  if backgroundDisabled g then
    emit (Print ("Exiting foreground-only mode" ++ newline)) ;;
    set_backgroundDisabled false
  else
    emit (Print ("Entering foreground-only mode (& is now ignored)" ++ newline)) ;;
    set_backgroundDisabled true.

(** *** [runShell] *)

(** The globals when the loop of [runShell] is entered, in a process
    started with the three standard descriptors. *)
Definition initial : shell :=
  {| forePID := -1; backProcs := replicate MAX_PROCS None; exitStatus := 0;
     backgroundDisabled := false;
     fds := <[0 := Inherited 0]> (<[1 := Inherited 1]> (<[2 := Inherited 2]> ∅)) |}.

(** One pass of [while (1)], for the line that [fgets] left in [buffer].
    [Ret] stands for reaching the next pass, by [continue] or by the end
    of the body. *)
Definition runShell_body (o : os) (buffer : string) : M unit :=
  g ← get;
  match parse (getpid o) (backgroundDisabled g) buffer with
  | None => undefined
  | Some c =>
      match args (fst c) !! 0%nat with
      | None => undefined
      | Some None => ret tt
      | Some (Some a0) =>
          let name := arg_string (snd c) a0 in
          if String.eqb "exit" name then exitShell
          else if String.eqb "cd" name then
            match args (fst c) !! 1%nat with
            | Some a1 => changeDir o (arg_string (snd c) <$> a1)
            | None => undefined
            end
          else if String.eqb "status" name then printStatus
          else
            r ← runCommand o c;
            set_exitStatus r
      end
  end.

(** Consecutive passes of the loop, one line and one set of answers
    each. *)
Fixpoint runShell_lines (inputs : list (os * string)) : M unit :=
  match inputs with
  | [] => ret tt
  | (o, buffer) :: rest => runShell_body o buffer ;; runShell_lines rest
  end.

End Shell.

(** ** Vocabulary of the statements *)

Module Notions.
Import CString Parser Sys Shell.

(** The two lines of [disableBackground], by the mode that is entered. *)
Definition mode_line (disabled : bool) : string :=
  if disabled
  then "Entering foreground-only mode (& is now ignored)" ++ newline
  else "Exiting foreground-only mode" ++ newline.

(** The globals with [backgroundDisabled] flipped. *)
Definition toggled (g : shell) : shell :=
  {| forePID := forePID g; backProcs := backProcs g; exitStatus := exitStatus g;
     backgroundDisabled := negb (backgroundDisabled g); fds := fds g |}.

(** Replacing every occurrence of [$$], from left to right: the reading
    of the expansion that the source is compared with. *)
Fixpoint expand_every (pid : Z) (token : string) : string :=
  match token with
  | EmptyString => EmptyString
  | String c rest =>
      match rest with
      | String c' rest' =>
          if Ascii.eqb c "$" && Ascii.eqb c' "$"
          then sprintf_d pid ++ expand_every pid rest'
          else String c (expand_every pid rest)
      | EmptyString => String c EmptyString
      end
  end.

(** The white space of the C locale. *)
Definition isspace (c : ascii) : bool := Ascii.is_space c.

(** Entries that point into the line are never the marker [&] and hold
    no [$$], and while an entry points at [res] that array holds an
    expansion. *)
Definition args_wf (pid : Z) (st : pstate) : Prop :=
  (∀ k t, args (cmd st) !! k = Some (Some (Tok t)) →
          t ≠ "&" ∧ strstr_dollars t = None) ∧
  ((∃ k, args (cmd st) !! k = Some (Some Res)) →
   ∃ pre post, res st = (pre ++ sprintf_d pid ++ post)%string).

(** The state in which the loop of [getCommand] leaves the tokens
    [tokens], when it has neither stopped at a comment nor faulted. *)
Fixpoint scan (pid : Z) (disabled : bool) (tokens : list string) (st : pstate)
    : step_result :=
  match tokens with
  | [] => Next st
  | token :: rest =>
      match getCommand_body pid disabled st token with
      | Next st' => scan pid disabled rest st'
      | r => r
      end
  end.

(** *** The globals, one field replaced *)

Definition with_fds (v : gmap Z file) (g : shell) : shell :=
  {| forePID := forePID g; backProcs := backProcs g; exitStatus := exitStatus g;
     backgroundDisabled := backgroundDisabled g; fds := v |}.

Definition with_forePID (v : Z) (g : shell) : shell :=
  {| forePID := v; backProcs := backProcs g; exitStatus := exitStatus g;
     backgroundDisabled := backgroundDisabled g; fds := fds g |}.

Definition with_backProcs (t : list (option backProcess)) (g : shell) : shell :=
  {| forePID := forePID g; backProcs := t; exitStatus := exitStatus g;
     backgroundDisabled := backgroundDisabled g; fds := fds g |}.

Definition with_exitStatus (v : Z) (g : shell) : shell :=
  {| forePID := forePID g; backProcs := backProcs g; exitStatus := v;
     backgroundDisabled := backgroundDisabled g; fds := fds g |}.

(** The number of occupied slots. *)
Fixpoint occupied (t : list (option backProcess)) : nat :=
  match t with
  | [] => 0
  | Some _ :: t' => S (occupied t')
  | None :: t' => occupied t'
  end.

(** The index of the first empty slot. *)
Fixpoint free_slot (t : list (option backProcess)) : option nat :=
  match t with
  | [] => None
  | None :: _ => Some 0%nat
  | Some _ :: t' => S <$> free_slot t'
  end.

(** The notification of a finished background job: "terminated by
    signal" for a status other than 0 and 1, "exit value" for those two. *)
Definition done_line (pid status : Z) : string :=
  "background pid " ++ sprintf_d pid ++ " is done: "
  ++ (if negb (status =? 0) && negb (status =? 1)
      then "terminated by signal " else "exit value ")
  ++ sprintf_d status ++ newline.

(** What one call of the reaper does to slot [i] holding [x], when [w i]
    answers its check: the slot afterwards, the events, the lines among
    them, and [exitStatus]. *)
Definition reaped (w : nat → Z * Z) (i : nat) (x : option backProcess) : bool :=
  match x with
  | Some _ => 0 <? fst (w i)
  | None => false
  end.

Definition reap_slot (w : nat → Z * Z) (i : nat) (x : option backProcess)
    : option backProcess :=
  if reaped w i x then None else x.

Definition reap_events (w : nat → Z * Z) (i : nat) (x : option backProcess)
    : list event :=
  match x with
  | Some p =>
      if 0 <? fst (w i)
      then [Kill (backPID p) SIGKILL; Print (done_line (fst (w i)) (snd (w i)));
            Free (mark_inactive p)]
      else []
  | None => []
  end.

Definition reap_status (w : nat → Z * Z) (i : nat) (x : option backProcess)
    (status : Z) : Z :=
  if reaped w i x then snd (w i) else status.

(** The same for the slots [i], [i + 1], ... holding the list [t]. *)
Fixpoint reap_table (w : nat → Z * Z) (i : nat) (t : list (option backProcess))
    : list (option backProcess) :=
  match t with
  | [] => []
  | x :: t' => reap_slot w i x :: reap_table w (S i) t'
  end.

Fixpoint reap_trace (w : nat → Z * Z) (i : nat) (t : list (option backProcess))
    : list event :=
  match t with
  | [] => []
  | x :: t' => (reap_events w i x ++ reap_trace w (S i) t')%list
  end.

Fixpoint reap_final (w : nat → Z * Z) (i : nat) (t : list (option backProcess))
    (status : Z) : Z :=
  match t with
  | [] => status
  | x :: t' => reap_final w (S i) t' (reap_status w i x status)
  end.

(** The lines of a trace, and the job records it frees. *)
Definition prints (tr : list event) : list string :=
  omap (λ e, match e with Print s => Some s | _ => None end) tr.

Definition frees (tr : list event) : list backProcess :=
  omap (λ e, match e with Free p => Some p | _ => None end) tr.

Definition kills (tr : list event) : list Z :=
  omap (λ e, match e with Kill pid _ => Some pid | _ => None end) tr.

(** What [exitShell] does for the slots holding [t]. *)
Definition exit_events (t : list (option backProcess)) : list event :=
  flat_map (λ x, match x with
                 | Some p => [Kill (backPID p) SIGKILL; Free p]
                 | None => []
                 end) t.

(** The jobs a table tracks. *)
Definition jobs (t : list (option backProcess)) : list backProcess :=
  omap id t.

(** What happens to the job table over time: a background job is
    registered, or the reaper runs with the answers [w] to its checks. *)
Inductive job_event : Type :=
| Spawn (pid : Z)
| Sigchld (w : nat → Z * Z).

Definition SIGCHLD : Z := 17.

Definition run_job (e : job_event) : M unit :=
  match e with
  | Spawn pid => saveProcess pid
  | Sigchld w => childTerminates w SIGCHLD
  end.

Fixpoint run_jobs (es : list job_event) : M unit :=
  match es with
  | [] => ret tt
  | e :: es' => run_job e ;; run_jobs es'
  end.

Fixpoint spawns (es : list job_event) : nat :=
  match es with
  | [] => 0
  | Spawn _ :: es' => S (spawns es')
  | Sigchld _ :: es' => spawns es'
  end.

(** *** The launcher *)

(** The calls by which [runCommand] puts the saved descriptors back. *)
Definition restores (c : command) (stdOut stdIn : Z) : list event :=
  ((if is_null (inputFile c) then [] else [Dup2 stdIn STDIN_FILENO])
   ++ (if is_null (outputFile c) then [] else [Dup2 stdOut STDOUT_FILENO]))%list.

(** The line reporting a value [v] under the rule that 0 and 1 are exit
    codes and every other value a signal number: the reading of the
    status line that the source is compared with. *)
Definition classified_line (v : Z) : string :=
  (if negb (v =? 0) && negb (v =? 1)
   then "terminated by signal " else "exit value ")
  ++ sprintf_d v ++ newline.

(** Answers of a system where the shell has pid 1234, [fork] returns
    [spawnpid], the child is waited for with [status], files open and
    programs are found. *)
Definition answers (spawnpid status : Z) : os :=
  {| getpid := 1234; fork := spawnpid; waitpid := (spawnpid, status);
     open_max := 1024; can_open := λ _ _, true; execvp_ok := true;
     getenv_HOME := Some "/home"; chdir := λ _, 0 |}.

Definition SIGTSTP : Z := 20.

End Notions.

(** ** The rest of the program: reading a line, the whole loop of
       [runShell], [initializeShell] and [main] *)

Module Main.
Import CString Parser Sys Shell Notions.

(** [fgets (buffer, size, stdin)] into a buffer that [memset] has filled
    with NUL: the characters stored and what is left of the input.  At
    most [n] characters are read, [size - 1] of them in all, and a
    newline is the last one read.  At the end of the input nothing is
    stored. *)
Fixpoint fgets_from (n : nat) (stdin : string) : string * string :=
  match n, stdin with
  | O, _ => (EmptyString, stdin)
  | S _, EmptyString => (EmptyString, EmptyString)
  | S n', String c rest =>
      if Ascii.eqb c NEWLINE then (String c EmptyString, rest)
      else let (buffer, rest') := fgets_from n' rest in (String c buffer, rest')
  end.

Definition fgets (size : nat) (stdin : string) : string * string :=
  fgets_from (size - 1) stdin.

(** The first loop of [runShell]: [backProcs[i] = NULL]. *)
Definition runShell_init_body (i : nat) : M unit :=
  g ← get;
  if (i <? length (backProcs g))%nat
  then set_backProcs (<[i := None]> (backProcs g))
  else undefined.

(** One pass of [while (1)] from its top: the prompt, the line read from
    [stdin], and the dispatch.  The value is what is left of the
    input. *)
Definition runShell_pass (o : os) (stdin : string) : M string :=
  emit (Print ": ") ;;
  let (buffer, rest) := fgets MAX_LENGTH stdin in
  runShell_body o buffer ;;
  ret rest.

(** [runShell], for as many passes of its endless loop as there are
    answers of the operating system. *)
Fixpoint runShell_loop (answers : list os) (stdin : string) : M string :=
  match answers with
  | [] => ret stdin
  | o :: answers' =>
      rest ← runShell_pass o stdin;
      runShell_loop answers' rest
  end.

Definition runShell (answers : list os) (stdin : string) : M string :=
  for_upto MAX_PROCS runShell_init_body ;;
  runShell_loop answers stdin.

(** *** [initializeShell] *)

(** The number of SIGINT, as on Linux like those of SIGCHLD and
    SIGTSTP. *)
Definition SIGINT : Z := 2.

Inductive sa_flag : Type := SA_RESTART.

(** [struct sigaction].  A handler is given the answers [w] to the
    [waitpid] calls it makes, and the number of the signal.  [sa_mask]
    is either empty or, after [sigfillset], holds every signal. *)
Record sigaction_t : Type := mkSigaction {
  sa_handler : (nat → Z * Z) → Z → M unit;
  sa_flags : list sa_flag;
  sa_mask_full : bool
}.

(** [sigaction (signum, &act, NULL)], on the dispositions of the
    process. *)
Definition sigaction (signum : Z) (act : sigaction_t)
    (d : gmap Z sigaction_t) : gmap Z sigaction_t :=
  <[signum := act]> d.

Definition initializeShell (d : gmap Z sigaction_t) : gmap Z sigaction_t :=
  let sigint_action :=
    {| sa_handler := λ _, interruptSignal; sa_flags := [SA_RESTART];
       sa_mask_full := true |} in
  let d := sigaction SIGINT sigint_action d in
  let sigchld_action :=
    {| sa_handler := childTerminates; sa_flags := [SA_RESTART];
       sa_mask_full := true |} in
  let d := sigaction SIGCHLD sigchld_action d in
  let sigtstp_action :=
    {| sa_handler := λ _, disableBackground; sa_flags := [SA_RESTART];
       sa_mask_full := true |} in
  sigaction SIGTSTP sigtstp_action d.

(** What the delivery of signal [sig] runs under the dispositions [d];
    [None] when the program has installed no handler for it. *)
Definition deliver (d : gmap Z sigaction_t) (w : nat → Z * Z) (sig : Z)
    : option (M unit) :=
  (λ act, sa_handler act w sig) <$> d !! sig.

(** *** [main]

    [main] installs the handlers and enters [runShell].  From then on
    the process is a sequence of passes of the loop and of handler runs;
    every handler runs with all signals blocked, so to its end.  A
    history lists them in order; the process is described by its globals
    and the input not yet read. *)
Inductive input : Type :=
| Pass (o : os)
| Signal (sig : Z) (w : nat → Z * Z).

Definition main_dispositions : gmap Z sigaction_t := initializeShell ∅.

Inductive reaches : list input → shell → string → list event → Prop :=
| reaches_start (stdin : string) :
    reaches [] initial stdin []
| reaches_pass h g stdin tr o g' rest tr' :
    reaches h g stdin tr →
    runShell_pass o stdin g = Ret rest g' tr' →
    reaches (h ++ [Pass o])%list g' rest (tr ++ tr')%list
| reaches_signal h g stdin tr sig w handler g' tr' :
    reaches h g stdin tr →
    deliver main_dispositions w sig = Some handler →
    handler g = Ret tt g' tr' →
    reaches (h ++ [Signal sig w])%list g' stdin (tr ++ tr')%list.

End Main.

(** ** Vocabulary of the further statements *)

Module Terms.
Import CString Parser Sys Shell Notions Main.

(** A word: a non-empty string without NUL and without the delimiters
    of [getCommand]. *)
Definition is_word_char (c : ascii) : bool :=
  negb (is_delimiter c) && negb (Ascii.eqb c NUL).

Definition word (w : string) : bool :=
  negb (String.eqb w EmptyString) && all_chars is_word_char w.

(** Words on a line, one space between neighbours. *)
Fixpoint unwords (ws : list string) : string :=
  match ws with
  | [] => EmptyString
  | [w] => w
  | w :: ws' => w ++ String SPACE (unwords ws')
  end.

Definition has_dollars (token : string) : bool :=
  match strstr_dollars token with Some _ => true | None => false end.

(** The tokens that the loop of [getCommand], with no path pending,
    stores as arguments: neither a comment nor one of the three
    operators. *)
Definition argument_token (token : string) : bool :=
  negb (isComment token) && negb (String.eqb token "<")
  && negb (String.eqb token ">") && negb (String.eqb token "&").

(** An argument token without [$$]. *)
Definition plain (token : string) : bool :=
  argument_token token && negb (has_dollars token).

(** The entry of [args] stored for an argument token. *)
Definition entry (token : string) : option argptr :=
  Some (if has_dollars token then Res else Tok token).

(** The token with its first [$$] replaced by the decimal form of
    [pid]. *)
Definition expand_first (pid : Z) (token : string) : string :=
  match strstr_dollars token with
  | Some replace =>
      substring 0 replace token ++ sprintf_d pid
      ++ substring (replace + 2) (String.length token - (replace + 2)) token
  | None => token
  end.

(** What [res] holds once the argument tokens [q] have been stored,
    having held [r0] before: the expansion of the last of them that
    contains [$$]. *)
Definition last_res (pid : Z) (r0 : string) (q : list string) : string :=
  match last (filter (λ t, has_dollars t = true) q) with
  | Some t => expand_first pid t
  | None => r0
  end.

(** The array [args] of [n] entries after the argument tokens [q] have
    been stored. *)
Definition stored (n : nat) (q : list string) : list (option argptr) :=
  ((entry <$> q) ++ replicate (n - length q) None)%list.

(** The state of the loop of [getCommand] after the tokens [p], started
    with an array of [n] null entries and [r0] in [res]: the argument
    tokens stored are some of [p], in the order of the line, and [res]
    holds the last expansion. *)
Definition shape (pid : Z) (n : nat) (r0 : string) (p : list string)
    (st : pstate) : Prop :=
  ∃ q, sublist q p
       ∧ Forall (λ t, argument_token t = true) q
       ∧ args (cmd st) = stored n q
       ∧ i st = length q
       ∧ (length q <= n)%nat
       ∧ res st = last_res pid r0 q.

(** The string that a reader of [args] finds for the argument token
    [t] when [res] holds [r]. *)
Definition reads (r : string) (t : string) : string :=
  if has_dollars t then r else t.

(** [f] comes right after [op] among the tokens [p]. *)
Definition follows (op f : string) (p : list string) : Prop :=
  ∃ a b, p = (a ++ op :: f :: b)%list.

(** The pending-path flags and the paths recorded, against the tokens
    [p] gone through: a flag is up right after its operator, never both,
    and a path recorded is a token that came right after its
    operator. *)
Definition redirects_from (p : list string) (st : pstate) : Prop :=
  (outRedirect st = true → inRedirect st = false ∧ last p = Some ">") ∧
  (inRedirect st = true → outRedirect st = false ∧ last p = Some "<") ∧
  (∀ f, outputFile (cmd st) = Some f → follows ">" f p) ∧
  (∀ f, inputFile (cmd st) = Some f → follows "<" f p).

(** The state [st] with [token] recorded as the input (resp. output)
    path and no path pending; everything else is as in [st]. *)
Definition with_input_path (token : string) (st : pstate) : pstate :=
  {| cmd := {| args := args (cmd st); inputFile := Some token;
               outputFile := outputFile (cmd st);
               background := background (cmd st) |};
     i := i st; res := res st; outRedirect := false; inRedirect := false |}.

Definition with_output_path (token : string) (st : pstate) : pstate :=
  {| cmd := {| args := args (cmd st); inputFile := inputFile (cmd st);
               outputFile := Some token;
               background := background (cmd st) |};
     i := i st; res := res st; outRedirect := false; inRedirect := false |}.

(** The command and the parse state with the background flag down,
    and a step of the loop that ends in such a state. *)
Definition without_background (c : command) : command :=
  {| args := args c; inputFile := inputFile c; outputFile := outputFile c;
     background := false |}.

Definition in_foreground (st : pstate) : pstate :=
  {| cmd := without_background (cmd st); i := i st; res := res st;
     outRedirect := outRedirect st; inRedirect := inRedirect st |}.

Definition step_in_foreground (r : step_result) : step_result :=
  match r with
  | Next st => Next (in_foreground st)
  | Stop st => Stop (in_foreground st)
  | Fault => Fault
  end.

(** *** Outcomes and traces *)

(** An outcome other than an access outside an object. *)
Definition defined {A} (r : outcome A) : Prop :=
  match r with
  | Undefined _ => False
  | _ => True
  end.

(** The values returned by the [fork]s of a trace. *)
Definition forks (tr : list event) : list Z :=
  omap (λ e, match e with Fork r => Some r | _ => None end) tr.

(** The record that [saveProcess] stores for [pid]. *)
Definition job (pid : Z) : backProcess := {| backPID := pid; active := true |}.

(** *** Descriptors *)

(** The descriptor that [open] returns when it succeeds. *)
Definition open_result (o : os) (path : string) (flags : list oflag)
    (fdt : gmap Z file) : option Z :=
  match lowest_free fdt with
  | Some n => if can_open o path flags && (n <? open_max o) then Some n else None
  | None => None
  end.

(** The open descriptors are 0, 1, ..., up to their number. *)
Definition contiguous (fdt : gmap Z file) : Prop :=
  ∀ n, is_Some (fdt !! n) ↔ 0 ≤ n < Z.of_nat (size fdt).

(** The last step of the child: [execvp] of the argument vector, and
    the message and [exit (1)] when it fails. *)
Definition exec_outcome (o : os) (c : command * string) (g : shell) : outcome Z :=
  match argv (snd c) (args (fst c)) with
  | Some (prog :: rest) =>
      if execvp_ok o then Execed (prog :: rest) g []
      else Exited 1 g [Print (prog ++ ": no such file or directory" ++ newline)]
  | _ => Undefined []
  end.

(** The child after a redirection of [target] to [path]: the [dup2]
    made from the fresh descriptor [n], and [k] run with [target]
    referring to the file. *)
Definition redirected (n target : Z) (path : string) (flags : list oflag)
    (k : shell → outcome Z) (g : shell) : outcome Z :=
  prepend [Dup2 n target]
    (k (with_fds (<[target := Opened path flags]> (fds g)) g)).

(** A step of the child that either goes on or ends the child with
    [exit (1)]. *)
Definition goes_on_or_exits_1 (m : M unit) : Prop :=
  ∀ g, (∃ g1 tr, m g = Ret tt g1 tr) ∨ (∃ g1 tr, m g = Exited 1 g1 tr).

(** How a child ends: never by returning into the shell's loop; by
    [exit] only with status 1; by [execvp] only of the argument vector;
    outside an object only when [args] holds no terminated, non-empty
    vector. *)
Definition ends_as_child (o : os) (c : command * string) (r : outcome Z) : Prop :=
  match r with
  | Ret _ _ _ => False
  | Exited code _ _ => code = 1
  | Execed v _ _ => argv (snd c) (args (fst c)) = Some v ∧ v ≠ [] ∧ execvp_ok o = true
  | Undefined _ => ∀ prog rest, argv (snd c) (args (fst c)) ≠ Some (prog :: rest)
  end.

(** The globals, descriptors apart, in which the parent leaves
    [runCommand] after a [fork] that returned [spawnpid]; [None] when
    the job table has no room for a background job. *)
Definition after_launch (o : os) (c : command) (spawnpid : Z) (g : shell)
    : option shell :=
  if background c then
    match free_slot (backProcs g) with
    | Some k => Some (with_backProcs (<[k := Some (job spawnpid)]> (backProcs g)) g)
    | None => None
    end
  else
    Some (with_exitStatus
            (if 0 <? fst (waitpid o) then snd (waitpid o) else exitStatus g)
            (with_forePID spawnpid g)).

(** What the parent prints and calls after the [fork]. *)
Definition launch_events (c : command) (spawnpid stdOut stdIn : Z) : list event :=
  ((if background c
    then [Print ("background pid is " ++ sprintf_d spawnpid ++ newline)]
    else []) ++ restores c stdOut stdIn)%list.

(** *** Histories *)

(** The number of deliveries of SIGTSTP in a history. *)
Fixpoint toggles (h : list input) : nat :=
  match h with
  | [] => 0
  | Signal sig _ :: h' =>
      if sig =? SIGTSTP then S (toggles h') else toggles h'
  | Pass _ :: h' => toggles h'
  end.

(** What holds of the globals after every history, [tr] being the
    events so far. *)
Definition shell_inv (h : list input) (g : shell) (tr : list event) : Prop :=
  length (backProcs g) = MAX_PROCS ∧
  (∀ i p, backProcs g !! i = Some (Some p) →
          active p = true ∧ 0 < backPID p ∧ In (backPID p) (forks tr)) ∧
  fds g !! STDIN_FILENO = Some (Inherited 0) ∧
  fds g !! STDOUT_FILENO = Some (Inherited 1) ∧
  contiguous (fds g) ∧
  size (fds g) = (3 + 2 * length (forks tr))%nat ∧
  (forePID g = -1 ∨ (0 < forePID g ∧ In (forePID g) (forks tr))) ∧
  backgroundDisabled g = Nat.odd (toggles h).

End Terms.

(** ** Tactics of the proofs *)

Import CString Parser Sys Shell Notions Main Terms.

(** The cases of the loop body, in the order of the source. *)
Ltac body_cases H :=
  unfold getCommand_body, store_arg in H;
  repeat match type of H with
         | context [if ?b then _ else _] => destruct b eqn:?
         | context [match ?x with _ => _ end] => destruct x eqn:?
         end;
  try discriminate H;
  try (injection H as <-).

(** A lookup in [args] after the store at [i]. *)
Ltac lookup_store Hk st k :=
  destruct (decide (i st = k)) as [<-|?];
  [ rewrite list_lookup_insert_eq in Hk by (apply Nat.ltb_lt; assumption)
  | rewrite list_lookup_insert_ne in Hk by assumption ].

(** One more pass, or one more handler run, at the end of a history. *)
Ltac history_pass R o :=
  lazymatch type of R with
  | reaches ?h ?g ?stdin ?tr =>
      let r := eval vm_compute in (runShell_pass o stdin g) in
      lazymatch r with
      | Ret ?rest ?g' ?tr' =>
          let R' := fresh "R" in
          assert (R' : reaches (h ++ [Pass o]) g' rest (tr ++ tr'))
            by (apply (reaches_pass h g stdin tr o g' rest tr' R);
                vm_compute; reflexivity);
          clear R
      end
  end.

Ltac history_signal R sig w handler :=
  lazymatch type of R with
  | reaches ?h ?g ?stdin ?tr =>
      let r := eval vm_compute in (handler g) in
      lazymatch r with
      | Ret _ ?g' ?tr' =>
          let R' := fresh "R" in
          assert (R' : reaches (h ++ [Signal sig w]) g' stdin (tr ++ tr'))
            by (apply (reaches_signal h g stdin tr sig w handler g' tr' R);
                [reflexivity | vm_compute; reflexivity]);
          clear R
      end
  end.

(** * Verification *)

(** ** Strings *)

Lemma append_String (c : ascii) (s t : string) :
  (String c s ++ t)%string = String c (s ++ t)%string.
Proof. reflexivity. Qed.

Lemma append_empty (t : string) : (EmptyString ++ t)%string = t.
Proof. reflexivity. Qed.

Lemma append_empty_r (s : string) : (s ++ EmptyString)%string = s.
Proof.
  induction s as [|c s IH]; [reflexivity|]. now rewrite append_String, IH.
Qed.

Lemma length_append (s t : string) :
  String.length (s ++ t) = (String.length s + String.length t)%nat.
Proof.
  induction s as [|c s IH]; [reflexivity|].
  rewrite append_String. simpl. now rewrite IH.
Qed.

Lemma substring_length (s : string) : ∀ n m,
  (n + m <= String.length s)%nat → String.length (substring n m s) = m.
Proof.
  induction s as [|c s IH]; intros n m H; simpl in *.
  - destruct n, m; simpl; lia.
  - destruct n as [|n].
    + destruct m as [|m]; simpl; [reflexivity|]. rewrite IH; [reflexivity | lia].
    + apply IH. lia.
Qed.

Lemma substring_short (s : string) : ∀ n m,
  (String.length s < n + S m)%nat → (String.length (substring n (S m) s) <= m)%nat.
Proof.
  induction s as [|c s IH]; intros n m H; simpl in *.
  - destruct n; simpl; lia.
  - destruct n as [|n].
    + destruct m as [|m]; simpl; [lia|].
      assert (String.length (substring 0 (S m) s) <= m)%nat by (apply IH; lia). lia.
    + apply IH. lia.
Qed.

Lemma substring_full (s : string) : substring 0 (String.length s) s = s.
Proof. induction s as [|c s IH]; simpl; [reflexivity | now rewrite IH]. Qed.

(** Cutting a string at [n], then the tail at [m]. *)
Lemma substring_split (s : string) : ∀ n m,
  (n + m <= String.length s)%nat →
  s = (substring 0 n s ++ substring n m s
       ++ substring (n + m) (String.length s - (n + m)) s)%string.
Proof.
  induction s as [|c s IH]; intros n m H; simpl in H.
  - assert (n = 0%nat) by lia. assert (m = 0%nat) by lia. subst. reflexivity.
  - destruct n as [|n].
    + cbn [substring Nat.add]. rewrite append_empty.
      destruct m as [|m].
      * cbn [substring Nat.sub String.length]. rewrite append_empty.
        now rewrite substring_full.
      * cbn [substring Nat.sub String.length]. rewrite append_String. f_equal.
        specialize (IH 0%nat m). cbn [Nat.add] in IH.
        assert (E : substring 0 0 s = EmptyString) by (destruct s; reflexivity).
        rewrite E, append_empty in IH. apply IH. lia.
    + cbn [substring Nat.add Nat.sub String.length]. rewrite append_String. f_equal.
      apply IH. lia.
Qed.

(** The first occurrence of [$$]: the token splits around it, and no
    occurrence starts further left. *)
Lemma strstr_dollars_split (token : string) (replace : nat) :
  strstr_dollars token = Some replace →
  (replace + 2 <= String.length token)%nat ∧
  token = (substring 0 replace token ++ "$$"
           ++ substring (replace + 2) (String.length token - (replace + 2)) token)%string ∧
  ∀ p, (p < replace)%nat → substring p 2 token ≠ "$$".
Proof.
  unfold strstr_dollars. intros H.
  pose proof (index_correct1 _ _ _ _ H) as H2. simpl in H2.
  assert (Hlen : (replace + 2 <= String.length token)%nat).
  { destruct (Nat.le_gt_cases (replace + 2) (String.length token)) as [|Hgt]; [assumption|].
    apply (substring_short _ _ 1) in Hgt. rewrite H2 in Hgt. simpl in Hgt. lia. }
  split; [assumption|]. split.
  - rewrite <- H2 at 1. apply substring_split. assumption.
  - intros p Hp. apply (index_correct2 _ _ _ _ H p); lia.
Qed.

(** Conversely a token that contains [$$] has a first occurrence. *)
Lemma strstr_dollars_found (pre post : string) :
  ∃ replace, strstr_dollars (pre ++ "$$" ++ post) = Some replace.
Proof.
  unfold strstr_dollars.
  destruct (index 0 "$$" (pre ++ "$$" ++ post)) as [n|] eqn:E; [eauto|].
  exfalso.
  apply (index_correct3 _ (String.length pre) _ _ E); [discriminate | lia |].
  clear E. induction pre as [|c pre IH].
  - destruct post; reflexivity.
  - rewrite append_String. simpl. exact IH.
Qed.

(** What [sprintf] writes for [%d] is a number: it differs from every
    string that does not read as one. *)
Lemma sprintf_d_not (n : Z) (s : string) :
  NilZero.int_of_string s = None → sprintf_d n ≠ s.
Proof.
  unfold sprintf_d. intros Hs E.
  destruct (NilZero.int_of_string (NilZero.string_of_int (Z.to_int n))) eqn:Hd.
  - rewrite E in Hd. congruence.
  - destruct (Z.to_int n) as [u|u] eqn:Hu.
    + destruct u; first [ discriminate Hd | rewrite NilZero.isi in Hd; discriminate ].
    + destruct u; first [ discriminate Hd | rewrite NilZero.isi in Hd; discriminate ].
Qed.

Lemma sprintf_d_nonempty (n : Z) : (0 < String.length (sprintf_d n))%nat.
Proof.
  destruct (sprintf_d n) eqn:E; [|simpl; lia].
  exfalso. revert E. apply sprintf_d_not. reflexivity.
Qed.

(** No expansion of a token is the background marker. *)
Lemma expansion_not_marker (pid : Z) (pre post : string) :
  (pre ++ sprintf_d pid ++ post)%string ≠ "&".
Proof.
  intros E.
  assert (L : String.length (pre ++ sprintf_d pid ++ post) = 1%nat) by now rewrite E.
  rewrite !length_append in L.
  pose proof (sprintf_d_nonempty pid).
  destruct pre; [|simpl in L; lia].
  destruct post; [|simpl in L; lia].
  rewrite append_empty, append_empty_r in E.
  revert E. apply sprintf_d_not. reflexivity.
Qed.

(** ** The tokens of a line *)

Lemma delimiter_not_NUL (c : ascii) : is_delimiter c = true → Ascii.eqb c NUL = false.
Proof.
  unfold is_delimiter. intros H. apply orb_true_iff in H as [H|H];
    apply Ascii.eqb_eq in H; subst; reflexivity.
Qed.

Lemma strlen_String (c : ascii) (s : string) :
  strlen (String c s) = if Ascii.eqb c NUL then 0%nat else S (strlen s).
Proof. unfold strlen. simpl. destruct (Ascii.eqb c NUL); reflexivity. Qed.

Lemma yield_length (cur : string) (toks : list string) :
  length (yield cur toks) =
  (match cur with EmptyString => 0 | _ => 1 end + length toks)%nat.
Proof. destruct cur; reflexivity. Qed.

(** A line of delimiters holds no token, and counts in full for [strlen]. *)
Lemma strtok_from_delimiters (s : string) : ∀ cur,
  all_chars is_delimiter s = true → strtok_from cur s = yield cur [].
Proof.
  induction s as [|c s IH]; intros cur H; simpl in *; [reflexivity|].
  apply andb_true_iff in H as [Hc Hs].
  rewrite (delimiter_not_NUL _ Hc), Hc, (IH EmptyString Hs). reflexivity.
Qed.

Lemma strlen_delimiters (s : string) :
  all_chars is_delimiter s = true → strlen s = String.length s.
Proof.
  induction s as [|c s IH]; intros H; [reflexivity|]. simpl in H.
  apply andb_true_iff in H as [Hc Hs].
  rewrite strlen_String, (delimiter_not_NUL _ Hc), (IH Hs). reflexivity.
Qed.

(** Tokens are separated by at least one character: [n] tokens take up
    [2 * n - 1] characters of the line or more. *)
Lemma strtok_from_count (s : string) : ∀ cur,
  (2 * length (strtok_from cur s)
   <= strlen s + 1 + match cur with EmptyString => 0 | _ => 1 end)%nat.
Proof.
  induction s as [|c s IH]; intros cur; simpl strtok_from.
  - rewrite yield_length. destruct cur; simpl; lia.
  - rewrite strlen_String. destruct (Ascii.eqb c NUL).
    + rewrite yield_length. destruct cur; simpl; lia.
    + destruct (is_delimiter c).
      * rewrite yield_length. specialize (IH EmptyString). destruct cur; simpl in *; lia.
      * specialize (IH (cur ++ String c EmptyString)%string).
        destruct cur; simpl in *; lia.
Qed.

Lemma strtok_all_count (line : string) :
  (2 * length (strtok_all line) <= strlen line + 1)%nat.
Proof. pose proof (strtok_from_count line EmptyString). simpl in *. unfold strtok_all. lia. Qed.

(** No token is longer than the line. *)
Lemma strtok_from_lengths (s : string) : ∀ cur,
  Forall (λ t, (String.length t <= String.length cur + strlen s)%nat)
         (strtok_from cur s).
Proof.
  induction s as [|c s IH]; intros cur; simpl strtok_from.
  - destruct cur; simpl; [constructor|]. constructor; [simpl; lia | constructor].
  - rewrite strlen_String. destruct (Ascii.eqb c NUL).
    + destruct cur; simpl; [constructor|]. constructor; [simpl; lia | constructor].
    + destruct (is_delimiter c).
      * assert (Forall (λ t, (String.length t <= String.length cur + S (strlen s))%nat)
                  (strtok_from EmptyString s)).
        { eapply Forall_impl; [apply IH|]. simpl. intros; lia. }
        destruct cur; simpl yield; [assumption|]. constructor; [lia | assumption].
      * eapply Forall_impl; [apply IH|]. simpl. intros t Ht.
        rewrite length_append in Ht. simpl in Ht. lia.
Qed.

Lemma strtok_all_lengths (line : string) :
  Forall (λ t, (String.length t <= strlen line)%nat) (strtok_all line).
Proof. apply (strtok_from_lengths line EmptyString). Qed.

(** ** Invariants of the loop of [getCommand] *)

Section Loop.
Variables (pid : Z) (disabled : bool).
Variable P : pstate → Prop.
Variable Q : string → Prop.
Hypothesis step_next : ∀ st token st',
  Q token → P st → getCommand_body pid disabled st token = Next st' → P st'.
Hypothesis step_stop : ∀ st token st',
  Q token → P st → getCommand_body pid disabled st token = Stop st' → P st'.

Lemma getCommand_loop_invariant : ∀ tokens st st',
  Forall Q tokens → P st →
  getCommand_loop pid disabled tokens st = Some st' → P st'.
Proof.
  induction tokens as [|token rest IH]; intros st st' HQ HP Hrun; simpl in Hrun.
  - injection Hrun as <-. assumption.
  - inversion HQ as [|? ? Hq Hrest]; subst.
    destruct (getCommand_body pid disabled st token) as [st1|st1|] eqn:Hbody.
    + apply (IH st1 st' Hrest); [|exact Hrun].
      exact (step_next st token st1 Hq HP Hbody).
    + injection Hrun as <-. exact (step_stop st token st1 Hq HP Hbody).
    + discriminate.
Qed.
End Loop.

(** The array [args] keeps its size. *)
Lemma getCommand_body_args_length pid disabled st token st' :
  getCommand_body pid disabled st token = Next st' ∨
  getCommand_body pid disabled st token = Stop st' →
  length (args (cmd st')) = length (args (cmd st)) ∧ (i st' <= S (i st))%nat
  ∧ (i st <= i st')%nat.
Proof.
  intros [H|H]; body_cases H; simpl; rewrite ?length_insert; lia.
Qed.

(** The expansion of a token fits [res] when the token and the number do. *)
Lemma expand_pid_fits (pid : Z) (token : string) (replace : nat) :
  strstr_dollars token = Some replace →
  (String.length token + String.length (sprintf_d pid) < MAX_LENGTH + 2)%nat →
  is_Some (expand_pid pid token replace).
Proof.
  intros Hfind Hlen. apply strstr_dollars_split in Hfind as (Hle & _ & _).
  unfold expand_pid.
  rewrite !length_append, !substring_length by lia.
  destruct (Nat.ltb_spec
    (replace + (String.length (sprintf_d pid) + (String.length token - (replace + 2))))
    MAX_LENGTH); [eauto | lia].
Qed.

(** The loop ends without a write outside an array when the number of
    tokens left leaves room in [args] and every token leaves room in
    [res]. *)
Lemma getCommand_loop_total (pid : Z) (disabled : bool) : ∀ tokens st,
  Forall (λ t, (String.length t + String.length (sprintf_d pid) < MAX_LENGTH + 2)%nat) tokens →
  (2 * (i st + length tokens) <= length (args (cmd st)) + 1)%nat →
  is_Some (getCommand_loop pid disabled tokens st).
Proof.
  induction tokens as [|token rest IH]; intros st Hfit Hroom; simpl; [eauto|].
  inversion Hfit as [|? ? Htok Hrest]; subst. simpl in Hroom.
  destruct (getCommand_body pid disabled st token) as [st1|st1|] eqn:Hbody.
  - apply IH; [assumption|].
    destruct (getCommand_body_args_length pid disabled st token st1) as (E & Hi & _);
      [now left|]. rewrite E. lia.
  - eauto.
  - exfalso. unfold getCommand_body, store_arg in Hbody.
    assert (Hin : (i st <? length (args (cmd st)))%nat = true)
      by (apply Nat.ltb_lt; lia).
    rewrite Hin in Hbody.
    destruct (strstr_dollars token) as [replace|] eqn:Hfind.
    + destruct (expand_pid_fits pid token replace Hfind Htok) as [r Hr].
      rewrite Hr in Hbody. simpl in Hbody. rewrite Hin in Hbody.
      repeat match type of Hbody with
             | context [if ?b then _ else _] => destruct b
             end; discriminate.
    + repeat match type of Hbody with
             | context [if ?b then _ else _] => destruct b
             end; discriminate.
Qed.

(** [runShell]'s allocation is large enough for every line: the parse
    fails only when an expansion overflows [res]. *)
Lemma parse_total (pid : Z) (disabled : bool) (buffer : string) :
  (strlen buffer + String.length (sprintf_d pid) < MAX_LENGTH + 2)%nat →
  is_Some (parse pid disabled buffer).
Proof.
  intros Hlen. unfold parse, getCommand.
  destruct (getCommand_loop_total pid disabled (strtok_all buffer)
              (start (blank (strlen buffer)))) as [st Hst].
  - eapply Forall_impl; [apply strtok_all_lengths|]. cbv beta. intros; lia.
  - cbn [start blank cmd args i]. rewrite length_replicate. pose proof (strtok_all_count buffer). lia.
  - rewrite Hst. eauto.
Qed.

Lemma expand_pid_Some (pid : Z) (token : string) (replace : nat) (r : string) :
  expand_pid pid token replace = Some r →
  r = (substring 0 replace token ++ sprintf_d pid
       ++ substring (replace + 2) (String.length token - (replace + 2)) token)%string
  ∧ (String.length r < MAX_LENGTH)%nat.
Proof.
  unfold expand_pid. intros H.
  match type of H with context [if ?b then _ else _] => destruct b eqn:E end;
    [|discriminate].
  injection H as <-. split; [reflexivity|]. now apply Nat.ltb_lt.
Qed.

(** *** The background flag *)

(** The flag is raised only by a token [&], and only while background
    execution is enabled. *)
Lemma getCommand_loop_background (pid : Z) (disabled : bool) tokens st st' :
  getCommand_loop pid disabled tokens st = Some st' →
  background (cmd st') = true →
  background (cmd st) = true ∨ (disabled = false ∧ In "&" tokens).
Proof.
  intros Hrun.
  refine (getCommand_loop_invariant pid disabled
           (λ s, background (cmd s) = true →
                 background (cmd st) = true ∨ (disabled = false ∧ In "&" tokens))
           (λ t, In t tokens) _ _ tokens st st' _ _ Hrun).
  - intros s token s' Hin IH Hbody Hb. body_cases Hbody; simpl in Hb; auto.
    right. split; [reflexivity|].
    match goal with E : String.eqb token "&" = true |- _ =>
      apply String.eqb_eq in E; subst token end. assumption.
  - intros s token s' Hin IH Hbody Hb. body_cases Hbody; simpl in Hb; auto.
  - apply List.Forall_forall. auto.
  - auto.
Qed.

(** In foreground-only mode the loop leaves the flag as it found it. *)
Lemma getCommand_loop_disabled (pid : Z) tokens st st' :
  getCommand_loop pid true tokens st = Some st' →
  background (cmd st') = background (cmd st).
Proof.
  intros Hrun.
  refine (getCommand_loop_invariant pid true
           (λ s, background (cmd s) = background (cmd st)) (λ _, True)
           _ _ tokens st st' _ _ Hrun).
  - intros s token s' _ IH Hbody. body_cases Hbody; simpl; auto.
  - intros s token s' _ IH Hbody. body_cases Hbody; simpl; auto.
  - apply Forall_forall. auto.
  - reflexivity.
Qed.

(** *** What the entries of [args] read *)

Lemma getCommand_body_args_wf (pid : Z) (disabled : bool) st token st' :
  args_wf pid st →
  getCommand_body pid disabled st token = Next st' ∨
  getCommand_body pid disabled st token = Stop st' →
  args_wf pid st'.
Proof.
  intros [Htok Hres] [H|H]; body_cases H; try (split; assumption);
    repeat match goal with
           | E : expand_pid _ _ _ = Some _ |- _ => apply expand_pid_Some in E as [-> _]
           | E : String.eqb _ "&" = false |- _ => apply String.eqb_neq in E
           end;
    (split; simpl;
     [ intros k t Hk; lookup_store Hk st k;
       [ first [ discriminate Hk | injection Hk as <-; split; assumption ]
       | exact (Htok k t Hk) ]
     | first [ intros _; eexists _, _; reflexivity
             | intros [k Hk]; apply Hres; lookup_store Hk st k;
               [ discriminate Hk | eauto ] ] ]).
Qed.

Lemma parse_args_wf (pid : Z) (disabled : bool) (buffer : string) c r :
  parse pid disabled buffer = Some (c, r) →
  ∀ k a, args c !! k = Some (Some a) → arg_string r a ≠ "&".
Proof.
  unfold parse, getCommand. intros H.
  destruct (getCommand_loop pid disabled (strtok_all buffer)
              (start (blank (strlen buffer)))) as [st|] eqn:Hrun; [|discriminate].
  injection H as <- <-.
  assert (Hwf : args_wf pid st).
  { refine (getCommand_loop_invariant pid disabled (args_wf pid) (λ _, True)
              _ _ (strtok_all buffer) (start (blank (strlen buffer))) st _ _ Hrun).
    - intros; eapply getCommand_body_args_wf; eauto.
    - intros; eapply getCommand_body_args_wf; eauto.
    - apply Forall_forall. auto.
    - split; simpl.
      + intros k t Hk. apply lookup_replicate in Hk as [? _]. discriminate.
      + intros [k Hk]. apply lookup_replicate in Hk as [? _]. discriminate. }
  destruct Hwf as [Htok Hres]. intros k [t|] Hk; simpl.
  - apply (Htok k t Hk).
  - destruct Hres as (pre & post & ->); [eauto|]. apply expansion_not_marker.
Qed.

(** The loop over a line, cut after any token it reaches. *)
Lemma getCommand_loop_app (pid : Z) (disabled : bool) : ∀ before after st st1,
  scan pid disabled before st = Next st1 →
  getCommand_loop pid disabled (before ++ after)%list st
  = getCommand_loop pid disabled after st1.
Proof.
  induction before as [|token before IH]; intros after st st1 H; cbn in H.
  - now injection H as ->.
  - cbn [app getCommand_loop].
    destruct (getCommand_body pid disabled st token) as [st'| |]; try discriminate.
    now apply IH.
Qed.

(** Once raised, the flag stays. *)
Lemma getCommand_loop_background_kept (pid : Z) (disabled : bool) tokens st st' :
  getCommand_loop pid disabled tokens st = Some st' →
  background (cmd st) = true → background (cmd st') = true.
Proof.
  intros Hrun Hb.
  refine (getCommand_loop_invariant pid disabled
           (λ s, background (cmd s) = true) (λ _, True)
           _ _ tokens st st' _ Hb Hrun).
  - intros s token s' _ IH Hbody. body_cases Hbody; simpl; auto.
  - intros s token s' _ IH Hbody. body_cases Hbody; simpl; auto.
  - apply List.Forall_forall. auto.
Qed.

(** C4 (as amended).  For every input line the parsed command has
    [background] set only if the line holds a token [&] -- anywhere, not
    necessarily last -- and background execution is not disabled; it is
    set whenever, with background execution enabled, the scan reaches a
    token [&] with no path pending.  A token [&] met as a marker while
    background execution is disabled leaves the parse state as it was and
    the scan going; and no argument of the parsed command is the marker.
    The parse itself succeeds on every line short enough for [res]. *)
Theorem background_only_with_marker (pid : Z) (disabled : bool) (buffer : string) :
  (∀ c r, parse pid disabled buffer = Some (c, r) →
     (background c = true → disabled = false ∧ In "&" (strtok_all buffer)) ∧
     (∀ k a, args c !! k = Some (Some a) → arg_string r a ≠ "&")) ∧
  (∀ before after st1 c r,
     disabled = false →
     strtok_all buffer = (before ++ "&" :: after)%list →
     scan pid disabled before (start (blank (strlen buffer))) = Next st1 →
     outRedirect st1 = false → inRedirect st1 = false →
     parse pid disabled buffer = Some (c, r) → background c = true) ∧
  (∀ st, outRedirect st = false → inRedirect st = false →
     getCommand_body pid disabled st "&"
     = Next (if disabled then st else set_background st)) ∧
  ((strlen buffer + String.length (sprintf_d pid) < MAX_LENGTH + 2)%nat →
   is_Some (parse pid disabled buffer)).
Proof.
  split; [|split; [|split]].
  - intros c r H. split.
    + unfold parse, getCommand in H.
      destruct (getCommand_loop pid disabled (strtok_all buffer)
                  (start (blank (strlen buffer)))) as [st|] eqn:Hrun; [|discriminate].
      injection H as <- <-. intros Hb.
      destruct (getCommand_loop_background _ _ _ _ _ Hrun Hb) as [Hold|Hnew];
        [discriminate Hold | exact Hnew].
    + eapply parse_args_wf; eassumption.
  - intros before after st1 c r -> Htoks Hscan Hout Hin H.
    unfold parse, getCommand in H. rewrite Htoks in H.
    rewrite (getCommand_loop_app _ _ _ _ _ _ Hscan) in H.
    cbn [getCommand_loop] in H. unfold getCommand_body in H.
    rewrite Hout, Hin in H. cbn in H.
    destruct (getCommand_loop pid false after (set_background st1)) as [st|] eqn:Hrun;
      [|discriminate].
    injection H as <- <-.
    now apply (getCommand_loop_background_kept _ _ _ _ _ Hrun).
  - intros st Hout Hin. unfold getCommand_body. rewrite Hout, Hin.
    destruct disabled; reflexivity.
  - apply parse_total.
Qed.

(** C4, the claim as stated, refuted: with background execution enabled
    the line "& ls" is parsed with [background] set although its last
    token is [ls]. *)
Lemma background_marker_need_not_be_last :
  ∃ c r, parse 1234 false ("& ls" ++ newline) = Some (c, r)
         ∧ background c = true
         ∧ last (strtok_all ("& ls" ++ newline)) = Some "ls"
         ∧ argv r (args c) = Some ["ls"].
Proof. eexists _, _. repeat split; reflexivity. Qed.

(** *** The expansion of [$$] *)

(** The loop body on a token that reaches the [$$] branch. *)
Lemma getCommand_body_dollars (pid : Z) (disabled : bool) st token replace r :
  outRedirect st = false → inRedirect st = false → isComment token = false →
  strstr_dollars token = Some replace →
  expand_pid pid token replace = Some r →
  (i st < length (args (cmd st)))%nat →
  getCommand_body pid disabled st token
  = Next (incr_i (set_arg (Some Res) (set_res r st))).
Proof.
  intros Hout Hin Hc Hfind Hr Hi.
  destruct (strstr_dollars_split _ _ Hfind) as (Hlen & Hsplit & _).
  assert (Hne : ∀ s, String.length s = 1%nat → String.eqb token s = false).
  { intros s Hs. destruct (String.eqb_spec token s) as [->|]; [lia | reflexivity]. }
  unfold getCommand_body, store_arg.
  rewrite Hout, Hin, Hc, !Hne, Hfind, Hr by reflexivity.
  cbn [set_res i cmd]. apply Nat.ltb_lt in Hi. rewrite Hi. reflexivity.
Qed.

(** The loop body on a token without [$$] leaves [res] alone, and no step
    touches the entries of [args] below [i]. *)
Lemma getCommand_body_keeps (pid : Z) (disabled : bool) st token st' k :
  getCommand_body pid disabled st token = Next st' ∨
  getCommand_body pid disabled st token = Stop st' →
  (k < i st)%nat →
  args (cmd st') !! k = args (cmd st) !! k ∧ (k < i st')%nat ∧
  (strstr_dollars token = None → res st' = res st).
Proof.
  intros [H|H] Hk; body_cases H; cbn [cmd args i res set_outputFile set_inputFile
    set_inRedirect set_outRedirect set_background set_arg incr_i set_res];
    rewrite ?list_lookup_insert_ne by lia;
    repeat split; try reflexivity; try lia; try discriminate.
Qed.

Lemma getCommand_loop_keeps (pid : Z) (disabled : bool) tokens st st' k :
  Forall (λ t, strstr_dollars t = None) tokens →
  (k < i st)%nat →
  getCommand_loop pid disabled tokens st = Some st' →
  args (cmd st') !! k = args (cmd st) !! k ∧ res st' = res st.
Proof.
  intros Hno Hk Hrun.
  assert (H : (args (cmd st') !! k = args (cmd st) !! k ∧ res st' = res st)
              ∧ (k < i st')%nat); [|tauto].
  refine (getCommand_loop_invariant pid disabled
            (λ s, (args (cmd s) !! k = args (cmd st) !! k ∧ res s = res st) ∧ (k < i s)%nat)
            (λ t, strstr_dollars t = None) _ _ tokens st st' Hno _ Hrun).
  - intros s token s' Hq [[Ha Hr] Hi] Hbody.
    destruct (getCommand_body_keeps pid disabled s token s' k) as (E1 & E2 & E3); auto.
    rewrite E1, E3; auto.
  - intros s token s' Hq [[Ha Hr] Hi] Hbody.
    destruct (getCommand_body_keeps pid disabled s token s' k) as (E1 & E2 & E3); auto.
    rewrite E1, E3; auto.
  - auto.
Qed.

(** C5 (as amended).  A token that contains [$$], is met with no path
    pending and does not begin with [#] splits as [pre ++ "$$" ++ post]
    around the first occurrence of [$$]; when the result fits [res], the
    loop body writes [pre], the decimal form of the shell's pid and [post]
    into [res] -- only that first occurrence is replaced -- and stores a
    pointer to [res] as the next argument, which reads as that string at
    the end of the parse when no later token is expanded.  Parsing
    "ls -la $$" yields exactly the arguments "ls", "-la" and the pid in
    decimal, no redirection path, and background unset. *)
Theorem expand_first_dollars (pid : Z) (disabled : bool) :
  (∀ st token,
     outRedirect st = false → inRedirect st = false → isComment token = false →
     (∃ a b, token = (a ++ "$$" ++ b)%string) →
     (i st < length (args (cmd st)))%nat →
     ∃ pre post,
       token = (pre ++ "$$" ++ post)%string ∧
       (∀ p, (p < String.length pre)%nat → substring p 2 token ≠ "$$") ∧
       ((String.length (pre ++ sprintf_d pid ++ post) < MAX_LENGTH)%nat →
        getCommand_body pid disabled st token
        = Next (incr_i (set_arg (Some Res) (set_res (pre ++ sprintf_d pid ++ post) st)))
        ∧ ∀ rest st',
            Forall (λ t, strstr_dollars t = None) rest →
            getCommand_loop pid disabled (token :: rest) st = Some st' →
            args (cmd st') !! i st = Some (Some Res)
            ∧ res st' = (pre ++ sprintf_d pid ++ post)%string)) ∧
  ((String.length (sprintf_d pid) < MAX_LENGTH)%nat →
   ∃ c r, parse pid disabled ("ls -la $$" ++ newline) = Some (c, r)
          ∧ argv r (args c) = Some ["ls"; "-la"; sprintf_d pid]
          ∧ inputFile c = None ∧ outputFile c = None ∧ background c = false).
Proof.
  split.
  - intros st token Hout Hin Hc (a & b & Hab) Hi.
    destruct (strstr_dollars_found a b) as [replace Hfind]. rewrite <- Hab in Hfind.
    destruct (strstr_dollars_split _ _ Hfind) as (Hlen & Hsplit & Hfirst).
    set (pre := substring 0 replace token) in *.
    set (post := substring (replace + 2) (String.length token - (replace + 2)) token) in *.
    assert (Hpre : String.length pre = replace) by (apply substring_length; lia).
    exists pre, post. split; [exact Hsplit|]. split.
    { intros p Hp. apply Hfirst. lia. }
    intros Hfit.
    assert (Hr : expand_pid pid token replace = Some (pre ++ sprintf_d pid ++ post)%string).
    { unfold expand_pid. fold pre post. apply Nat.ltb_lt in Hfit. rewrite Hfit. reflexivity. }
    pose proof (getCommand_body_dollars pid disabled st token replace _
                  Hout Hin Hc Hfind Hr Hi) as Hbody.
    split; [exact Hbody|].
    intros rest st' Hrest Hrun. cbn [getCommand_loop] in Hrun. rewrite Hbody in Hrun.
    destruct (getCommand_loop_keeps pid disabled rest
                (incr_i (set_arg (Some Res) (set_res (pre ++ sprintf_d pid ++ post) st)))
                st' (i st) Hrest (Nat.lt_succ_diag_r (i st)) Hrun) as [E1 E2].
    rewrite E1, E2. cbn [incr_i set_arg set_res cmd args res].
    split; [|reflexivity]. now apply list_lookup_insert_eq.
  - intros Hfit.
    exists {| args := [Some (Tok "ls"); Some (Tok "-la"); Some Res]
                        ++ replicate 7 None;
              inputFile := None; outputFile := None; background := false |},
           (sprintf_d pid).
    split; [|repeat split; reflexivity].
    unfold parse, getCommand.
    replace (strtok_all ("ls -la $$" ++ newline)) with ["ls"; "-la"; "$$"] by reflexivity.
    replace (strlen ("ls -la $$" ++ newline)) with 10%nat by reflexivity.
    cbn [getCommand_loop].
    change (getCommand_body pid disabled (start (blank 10)) "ls")
      with (Next (incr_i (set_arg (Some (Tok "ls")) (start (blank 10))))).
    cbv iota beta.
    change (getCommand_body pid disabled
              (incr_i (set_arg (Some (Tok "ls")) (start (blank 10)))) "-la")
      with (Next (incr_i (set_arg (Some (Tok "-la"))
                    (incr_i (set_arg (Some (Tok "ls")) (start (blank 10))))))).
    cbv iota beta.
    rewrite (getCommand_body_dollars pid disabled _ "$$" 0 (sprintf_d pid));
      try reflexivity.
    + unfold expand_pid. cbn [substring Nat.add Nat.sub String.length].
      rewrite append_empty, append_empty_r. apply Nat.ltb_lt in Hfit.
      rewrite Hfit. reflexivity.
    + cbn. lia.
Qed.

(** C5, the claim as stated, refuted: of the two occurrences in the token
    "$$$$" only the first is replaced, so the argument differs from the one
    with every occurrence replaced. *)
Lemma only_first_dollars_expanded :
  ∃ c r, parse 1234 false ("echo $$$$" ++ newline) = Some (c, r)
         ∧ argv r (args c) = Some ["echo"; "1234$$"]
         ∧ expand_every 1234 "$$$$" = "12341234"
         ∧ argv r (args c) ≠ Some ["echo"; expand_every 1234 "$$$$"].
Proof. eexists _, _. repeat split; try reflexivity. discriminate. Qed.

(** *** A concrete line *)

(** C6.  With background execution enabled, the line
    "sort < in.txt > out.txt &" -- as typed, with its newline, or without
    one -- is parsed into input file "in.txt", output file "out.txt",
    background set, and the single argument "sort". *)
Theorem parse_sort_redirected_background (pid : Z) :
  (∃ c r, parse pid false ("sort < in.txt > out.txt &" ++ newline) = Some (c, r)
          ∧ inputFile c = Some "in.txt" ∧ outputFile c = Some "out.txt"
          ∧ background c = true ∧ argv r (args c) = Some ["sort"]) ∧
  (∃ c r, parse pid false "sort < in.txt > out.txt &" = Some (c, r)
          ∧ inputFile c = Some "in.txt" ∧ outputFile c = Some "out.txt"
          ∧ background c = true ∧ argv r (args c) = Some ["sort"]).
Proof. split; eexists _, _; repeat split; reflexivity. Qed.

(** *** The mode toggle *)

Lemma toggled_involutive (g : shell) : toggled (toggled g) = g.
Proof. destruct g. unfold toggled. simpl. now rewrite negb_involutive. Qed.

Lemma parse_disabled (pid : Z) (buffer : string) c r :
  parse pid true buffer = Some (c, r) → background c = false.
Proof.
  unfold parse, getCommand. intros H.
  destruct (getCommand_loop pid true (strtok_all buffer)
              (start (blank (strlen buffer)))) as [st|] eqn:Hrun; [|discriminate].
  injection H as <- <-. now rewrite (getCommand_loop_disabled _ _ _ _ Hrun).
Qed.

(** C7 (as amended).  Each delivery of the toggle signal flips
    [backgroundDisabled] and prints exactly one line, the one of the mode
    entered.  After a toggle delivered while background execution is
    enabled -- the first toggle of a shell, or one that an even number of
    toggles precede -- every line is parsed with [background] unset; a
    toggle delivered in foreground-only mode enables it again; two toggles
    in a row restore the flag and with it the parser's treatment of [&]. *)
Theorem mode_toggle (sigNum : Z) (g : shell) :
  disableBackground sigNum g
  = Ret tt (toggled g) [Print (mode_line (backgroundDisabled (toggled g)))] ∧
  backgroundDisabled (toggled g) = negb (backgroundDisabled g) ∧
  (backgroundDisabled g = false →
   ∀ pid buffer c r,
     parse pid (backgroundDisabled (toggled g)) buffer = Some (c, r) →
     background c = false) ∧
  toggled (toggled g) = g ∧
  (∀ pid buffer,
     parse pid (backgroundDisabled (toggled (toggled g))) buffer
     = parse pid (backgroundDisabled g) buffer) ∧
  (∀ n, backgroundDisabled (Nat.iter n toggled g)
        = if Nat.even n then backgroundDisabled g else negb (backgroundDisabled g)).
Proof.
  split; [|split; [|split; [|split; [|split]]]].
  - unfold disableBackground, toggled, mode_line. destruct g as [f b e d t].
    destruct d; reflexivity.
  - reflexivity.
  - intros Hen pid buffer c r. cbn [toggled backgroundDisabled]. rewrite Hen.
    apply parse_disabled.
  - apply toggled_involutive.
  - intros. now rewrite toggled_involutive.
  - induction n as [|n IH]; [reflexivity|].
    rewrite Nat.even_succ, <- Nat.negb_even.
    change (Nat.iter (S n) toggled g) with (toggled (Nat.iter n toggled g)).
    cbn [toggled backgroundDisabled]. rewrite IH. destruct (Nat.even n); cbn; [reflexivity | now rewrite negb_involutive].
Qed.

(** C7, the claim as stated, refuted: with one toggle before it, a toggle
    leaves the shell in a state where "ls &" is parsed with [background]
    set. *)
Lemma toggle_after_toggle_enables :
  ∃ g1 g2 tr1 tr2 c r,
    disableBackground SIGTSTP initial = Ret tt g1 tr1
    ∧ disableBackground SIGTSTP g1 = Ret tt g2 tr2
    ∧ parse 1234 (backgroundDisabled g2) ("ls &" ++ newline) = Some (c, r)
    ∧ background c = true.
Proof. eexists _, _, _, _, _, _. repeat split; reflexivity. Qed.

(** ** The monad *)

Lemma prepend_nil {A} (r : outcome A) : prepend [] r = r.
Proof. destruct r; reflexivity. Qed.

Lemma prepend_prepend {A} (tr1 tr2 : list event) (r : outcome A) :
  prepend tr1 (prepend tr2 r) = prepend (tr1 ++ tr2) r.
Proof. destruct r; simpl; now rewrite app_assoc. Qed.

Lemma bind_Ret {A B} (m : M A) (k : A → M B) g a g1 tr1 :
  m g = Ret a g1 tr1 → (m ≫= k) g = prepend tr1 (k a g1).
Proof. intros H. unfold mbind, M_bind, bind. now rewrite H. Qed.

Lemma bind_get {B} (k : shell → M B) g : (get ≫= k) g = k g g.
Proof. unfold mbind, M_bind, bind, get. apply prepend_nil. Qed.

Lemma bind_ret {A B} (a : A) (k : A → M B) g : (ret a ≫= k) g = k a g.
Proof. unfold mbind, M_bind, bind, ret. apply prepend_nil. Qed.

Lemma bind_emit {B} (e : event) (k : unit → M B) g :
  (emit e ≫= k) g = prepend [e] (k tt g).
Proof. reflexivity. Qed.

Lemma bind_set_backProcs {B} v (k : unit → M B) g :
  (set_backProcs v ≫= k) g = k tt (with_backProcs v g).
Proof. unfold mbind, M_bind, bind, set_backProcs. apply prepend_nil. Qed.

Lemma bind_set_exitStatus {B} v (k : unit → M B) g :
  (set_exitStatus v ≫= k) g = k tt (with_exitStatus v g).
Proof. unfold mbind, M_bind, bind, set_exitStatus. apply prepend_nil. Qed.

Lemma bind_undefined {A B} (k : A → M B) g : (undefined ≫= k) g = Undefined [].
Proof. reflexivity. Qed.

Lemma for_from_S (i n : nat) (body : nat → M unit) g :
  for_from i (S n) body g = (body i ;; for_from (S i) n body) g.
Proof. reflexivity. Qed.

(** ** The job table *)

Lemma with_backProcs_id g : with_backProcs (backProcs g) g = g.
Proof. now destruct g. Qed.

(** *** The reaper *)

(** One slot of the reaper. *)
Lemma childTerminates_body_spec (w : nat → Z * Z) (i : nat) g x :
  backProcs g !! i = Some x →
  childTerminates_body w i g
  = Ret tt (with_backProcs (<[i := reap_slot w i x]> (backProcs g))
              (with_exitStatus (reap_status w i x (exitStatus g)) g))
        (reap_events w i x).
Proof.
  intros Hx. unfold childTerminates_body. rewrite bind_get, Hx.
  unfold reap_slot, reap_status, reap_events, reaped.
  destruct x as [p|].
  - destruct (0 <? fst (w i)) eqn:Hw.
    + rewrite bind_set_exitStatus, bind_get, bind_set_backProcs, bind_emit, bind_get.
      cbn [with_backProcs with_exitStatus exitStatus backProcs].
      unfold done_line.
      destruct (negb (snd (w i) =? 0) && negb (snd (w i) =? 1));
        rewrite bind_emit, bind_emit, bind_get; unfold set_backProcs;
        cbn [prepend with_backProcs with_exitStatus exitStatus backProcs forePID
             backgroundDisabled fds app];
        rewrite list_insert_insert_eq; reflexivity.
    + unfold ret. rewrite list_insert_id by assumption.
      destruct g; reflexivity.
  - unfold ret. rewrite list_insert_id by assumption. destruct g; reflexivity.
Qed.

Lemma with_fields_collapse t1 s1 t2 s2 g :
  with_backProcs t1 (with_exitStatus s1 (with_backProcs t2 (with_exitStatus s2 g)))
  = with_backProcs t1 (with_exitStatus s1 g).
Proof. reflexivity. Qed.

(** The slots from [i] on, for a table of [i + n] slots. *)
Lemma childTerminates_from (w : nat → Z * Z) : ∀ n i g,
  length (backProcs g) = (i + n)%nat →
  for_from i n (childTerminates_body w) g
  = Ret tt (with_backProcs (take i (backProcs g)
                              ++ reap_table w i (drop i (backProcs g)))
              (with_exitStatus (reap_final w i (drop i (backProcs g)) (exitStatus g)) g))
        (reap_trace w i (drop i (backProcs g))).
Proof.
  induction n as [|n IH]; intros i g Hlen.
  - rewrite drop_ge, take_ge by lia. cbn [for_from reap_table reap_final reap_trace].
    rewrite app_nil_r. destruct g; reflexivity.
  - destruct (lookup_lt_is_Some_2 (backProcs g) i) as [x Hx]; [lia|].
    rewrite for_from_S.
    rewrite (bind_Ret _ _ _ _ _ _ (childTerminates_body_spec w i g x Hx)).
    rewrite IH by (cbn [with_backProcs backProcs]; rewrite length_insert; lia).
    cbn [with_backProcs with_exitStatus backProcs exitStatus].
    rewrite (drop_S _ _ _ Hx). cbn [reap_table reap_final reap_trace].
    rewrite drop_insert_lt by lia.
    rewrite (take_S_r _ _ (reap_slot w i x))
      by (apply list_lookup_insert_eq; lia).
    rewrite take_insert_ge by lia.
    cbn [prepend]. rewrite <- app_assoc. reflexivity.
Qed.

(** The reaper, for a table of [MAX_PROCS] slots. *)
Lemma childTerminates_spec (w : nat → Z * Z) (sigNum : Z) g :
  length (backProcs g) = MAX_PROCS →
  childTerminates w sigNum g
  = Ret tt (with_backProcs (reap_table w 0 (backProcs g))
              (with_exitStatus (reap_final w 0 (backProcs g) (exitStatus g)) g))
        (reap_trace w 0 (backProcs g)).
Proof.
  intros Hlen. unfold childTerminates, for_upto.
  rewrite childTerminates_from by (rewrite Hlen; reflexivity).
  rewrite drop_0, take_0. reflexivity.
Qed.

(** The table after the reaper, slot by slot. *)
Lemma reap_table_lookup (w : nat → Z * Z) : ∀ t i j,
  reap_table w i t !! j = reap_slot w (i + j) <$> t !! j.
Proof.
  induction t as [|x t IH]; intros i j; [reflexivity|].
  destruct j as [|j]; cbn [reap_table].
  - rewrite Nat.add_0_r. reflexivity.
  - cbn [lookup list_lookup]. rewrite IH. now rewrite Nat.add_succ_r.
Qed.

Lemma reap_table_length (w : nat → Z * Z) : ∀ t i,
  length (reap_table w i t) = length t.
Proof. induction t as [|x t IH]; intros i; simpl; [reflexivity | now rewrite IH]. Qed.

(** Each slot the reaper empties accounts for exactly one line. *)
Lemma reap_trace_prints (w : nat → Z * Z) : ∀ t i,
  (length (prints (reap_trace w i t)) + occupied (reap_table w i t))%nat = occupied t.
Proof.
  induction t as [|x t IH]; intros i; [reflexivity|].
  cbn [reap_table reap_trace]. unfold prints in *. rewrite omap_app, length_app.
  specialize (IH (S i)).
  unfold reap_events, reap_slot, reaped. destruct x as [p|]; [|simpl; lia].
  destruct (0 <? fst (w i)); simpl; lia.
Qed.

(** The lines and the records freed, slot by slot. *)
Lemma reap_trace_slot (w : nat → Z * Z) : ∀ t i j p,
  t !! j = Some (Some p) → 0 < fst (w (i + j)%nat) →
  In (Print (done_line (fst (w (i + j)%nat)) (snd (w (i + j)%nat)))) (reap_trace w i t)
  ∧ In (Free (mark_inactive p)) (reap_trace w i t)
  ∧ In (Kill (backPID p) SIGKILL) (reap_trace w i t).
Proof.
  induction t as [|x t IH]; intros i j p Hj Hw; [discriminate|].
  cbn [reap_trace]. rewrite !in_app_iff. destruct j as [|j].
  - injection Hj as ->. rewrite Nat.add_0_r in *. unfold reap_events.
    apply Z.ltb_lt in Hw. rewrite Hw. simpl. tauto.
  - rewrite Nat.add_succ_r in *. destruct (IH (S i) j p Hj Hw) as (? & ? & ?). tauto.
Qed.

(** *** Registration *)

Lemma free_slot_Some t : ∀ k,
  free_slot t = Some k →
  t !! k = Some None ∧ ∀ j, (j < k)%nat → ∃ p, t !! j = Some (Some p).
Proof.
  induction t as [|x t IH]; intros k H; [discriminate|].
  destruct x as [p|]; cbn [free_slot] in H.
  - destruct (free_slot t) as [k'|]; [|discriminate]. injection H as <-.
    destruct (IH k' eq_refl) as [H1 H2]. split; [exact H1|].
    intros [|j] Hj; [eauto|]. apply H2. lia.
  - injection H as <-. split; [reflexivity|]. intros j Hj. lia.
Qed.

Lemma free_slot_room t : (occupied t < length t)%nat → is_Some (free_slot t).
Proof.
  induction t as [|x t IH]; simpl; [lia|]. destruct x as [p|]; [|eauto].
  intros H. destruct IH as [k Hk]; [lia|]. rewrite Hk. eauto.
Qed.

Lemma occupied_le_length t : (occupied t <= length t)%nat.
Proof. induction t as [|[p|] t IH]; simpl; lia. Qed.

Lemma occupied_insert t : ∀ k p,
  t !! k = Some None → occupied (<[k := Some p]> t) = S (occupied t).
Proof.
  induction t as [|x t IH]; intros k p H; [discriminate|]. destruct k as [|k].
  - injection H as ->. reflexivity.
  - cbn in H. specialize (IH k p H).
    change (<[S k := Some p]> (x :: t)) with (x :: <[k := Some p]> t).
    destruct x; cbn [occupied]; rewrite IH; reflexivity.
Qed.

Lemma occupied_0 t : occupied t = 0%nat → t = replicate (length t) None.
Proof.
  induction t as [|[p|] t IH]; simpl; intros H; [reflexivity | lia |].
  now rewrite <- IH.
Qed.

Lemma occupied_lookup t : ∀ i p, t !! i = Some (Some p) → (0 < occupied t)%nat.
Proof.
  induction t as [|x t IH]; intros [|i] p H; try discriminate.
  - injection H as ->. simpl. lia.
  - cbn in H. specialize (IH i p H). destruct x; simpl; lia.
Qed.

(** The scan from slot [i] stores the record in the first empty slot, and
    runs off the array when there is none. *)
Lemma saveProcess_scan_spec (proc : backProcess) : ∀ n i g,
  length (backProcs g) = (i + n)%nat →
  saveProcess_scan proc i n g
  = match free_slot (drop i (backProcs g)) with
    | Some k => Ret tt (with_backProcs (<[(i + k)%nat := Some proc]> (backProcs g)) g) []
    | None => Undefined []
    end.
Proof.
  induction n as [|n IH]; intros i g Hlen.
  - rewrite drop_ge by lia. reflexivity.
  - destruct (lookup_lt_is_Some_2 (backProcs g) i) as [x Hx]; [lia|].
    cbn [saveProcess_scan]. rewrite bind_get, Hx, (drop_S _ _ _ Hx).
    destruct x as [p|]; cbn [free_slot].
    + rewrite IH by lia. destruct (free_slot (drop (S i) (backProcs g))) as [k|];
        cbn [fmap option_fmap option_map]; [|reflexivity].
      now rewrite Nat.add_succ_r.
    + rewrite Nat.add_0_r. reflexivity.
Qed.

Lemma saveProcess_spec (spawnpid : Z) g :
  length (backProcs g) = MAX_PROCS →
  saveProcess spawnpid g
  = match free_slot (backProcs g) with
    | Some k => Ret tt (with_backProcs
                          (<[k := Some {| backPID := spawnpid; active := true |}]>
                             (backProcs g)) g) []
    | None => Undefined []
    end.
Proof.
  intros Hlen. unfold saveProcess.
  rewrite saveProcess_scan_spec by (rewrite Hlen; reflexivity).
  rewrite drop_0. reflexivity.
Qed.

(** *** [exitShell] *)

Lemma exitShell_body_spec (i : nat) g x :
  backProcs g !! i = Some x →
  exitShell_body i g
  = Ret tt (with_backProcs (<[i := None]> (backProcs g)) g) (exit_events [x]).
Proof.
  intros Hx. unfold exitShell_body. rewrite bind_get, Hx. destruct x as [p|].
  - rewrite !bind_emit. reflexivity.
  - unfold ret. rewrite list_insert_id by assumption. destruct g; reflexivity.
Qed.

Lemma exitShell_from : ∀ n i g,
  length (backProcs g) = (i + n)%nat →
  for_from i n exitShell_body g
  = Ret tt (with_backProcs (take i (backProcs g) ++ replicate n None) g)
        (exit_events (drop i (backProcs g))).
Proof.
  induction n as [|n IH]; intros i g Hlen.
  - rewrite drop_ge, take_ge by lia. cbn [for_from replicate].
    rewrite app_nil_r. destruct g; reflexivity.
  - destruct (lookup_lt_is_Some_2 (backProcs g) i) as [x Hx]; [lia|].
    rewrite for_from_S.
    rewrite (bind_Ret _ _ _ _ _ _ (exitShell_body_spec i g x Hx)).
    rewrite IH by (cbn [with_backProcs backProcs]; rewrite length_insert; lia).
    cbn [with_backProcs backProcs].
    rewrite (drop_S _ _ _ Hx), drop_insert_lt by lia.
    rewrite (take_S_r _ _ None) by (apply list_lookup_insert_eq; lia).
    rewrite take_insert_ge by lia.
    cbn [prepend replicate]. rewrite <- app_assoc. destruct x; reflexivity.
Qed.

Lemma exitShell_spec g :
  length (backProcs g) = MAX_PROCS →
  exitShell g
  = Exited EXIT_SUCCESS (with_backProcs (replicate MAX_PROCS None) g)
      (exit_events (backProcs g)).
Proof.
  intros Hlen. unfold exitShell, for_upto.
  rewrite (bind_Ret _ _ _ _ _ _ (exitShell_from MAX_PROCS 0 g Hlen)).
  rewrite drop_0, take_0. cbn [prepend exit]. unfold exit. cbn [prepend].
  rewrite app_nil_r. reflexivity.
Qed.

Lemma exit_events_kills t : kills (exit_events t) = backPID <$> jobs t.
Proof. induction t as [|[p|] t IH]; simpl; [reflexivity | now f_equal | exact IH]. Qed.

Lemma exit_events_frees t : frees (exit_events t) = jobs t.
Proof. induction t as [|[p|] t IH]; simpl; [reflexivity | now f_equal | exact IH]. Qed.

Lemma jobs_length t : length (jobs t) = occupied t.
Proof. induction t as [|[p|] t IH]; simpl; [reflexivity | now f_equal | exact IH]. Qed.

Lemma jobs_lookup t : ∀ i p, t !! i = Some (Some p) → In p (jobs t).
Proof.
  induction t as [|x t IH]; intros [|i] p H; try discriminate.
  - injection H as ->. simpl. now left.
  - cbn in H. specialize (IH i p H). destruct x; simpl; auto.
Qed.

(** ** Descriptors *)

(** Some descriptor up to [size fds] is free, and [lowest_free] finds one. *)
Lemma lowest_free_spec (fds : gmap Z file) :
  ∃ n, lowest_free fds = Some n ∧ fds !! n = None ∧ 0 ≤ n ≤ Z.of_nat (size fds).
Proof.
  unfold lowest_free.
  destruct (filter (λ n, fds !! n = None) (seqZ 0 (Z.of_nat (S (size fds)))))
    as [|n l] eqn:E.
  - exfalso.
    assert (Hsub : (list_to_set (seqZ 0 (Z.of_nat (S (size fds)))) : gset Z) ⊆ dom fds).
    { intros n Hn. apply elem_of_list_to_set in Hn.
      destruct (fds !! n) eqn:Hl; [apply elem_of_dom; eauto|].
      exfalso. exact (filter_nil_not_elem_of _ _ n E Hl Hn). }
    apply subseteq_size in Hsub.
    rewrite size_list_to_set, length_seqZ, size_dom in Hsub by apply NoDup_seqZ. lia.
  - exists n. split; [reflexivity|].
    assert (Hn : n ∈ filter (λ n, fds !! n = None) (seqZ 0 (Z.of_nat (S (size fds)))))
      by (rewrite E; left).
    apply list_elem_of_filter in Hn as [Hfree Hn]. split; [exact Hfree|].
    apply elem_of_seqZ in Hn. lia.
Qed.

(** [dup] of an open descriptor, below the limit. *)
Lemma dup_spec (o : os) (oldfd : Z) (f : file) g :
  fds g !! oldfd = Some f →
  Z.of_nat (size (fds g)) < open_max o →
  ∃ n, dup o oldfd g = Ret n (with_fds (<[n := f]> (fds g)) g) []
       ∧ fds g !! n = None ∧ 0 ≤ n.
Proof.
  intros Hf Hmax. destruct (lowest_free_spec (fds g)) as (n & Hn & Hfree & Hrange).
  exists n. split; [|split; [exact Hfree | lia]].
  unfold dup. rewrite bind_get, Hf, Hn.
  destruct (Z.ltb_spec n (open_max o)); [reflexivity | lia].
Qed.

Lemma bind_set_fds {B} v (k : unit → M B) g :
  (set_fds v ≫= k) g = k tt (with_fds v g).
Proof. unfold mbind, M_bind, bind, set_fds. apply prepend_nil. Qed.

Lemma bind_set_forePID {B} v (k : unit → M B) g :
  (set_forePID v ≫= k) g = k tt (with_forePID v g).
Proof. unfold mbind, M_bind, bind, set_forePID. apply prepend_nil. Qed.

(** ** The launcher *)

(** Up to the [fork]: both descriptors are saved in fresh ones. *)
Lemma runCommand_forks (o : os) (c : command * string) g (f0 f1 : file) :
  fds g !! STDIN_FILENO = Some f0 → fds g !! STDOUT_FILENO = Some f1 →
  Z.of_nat (size (fds g)) + 1 < open_max o →
  ∃ stdOut stdIn,
    fds g !! stdOut = None ∧ fds g !! stdIn = None ∧ stdOut ≠ stdIn ∧
    runCommand o c g
    = prepend [Fork (fork o)]
        ((if fork o =? CHILD then runCommand_child o c
          else if CHILD <? fork o then runCommand_parent o c stdOut stdIn (fork o)
          else emit (Perror "Error") ;; exit EXIT_FAILURE)
           (with_fds (<[stdIn := f0]> (<[stdOut := f1]> (fds g))) g)).
Proof.
  intros H0 H1 Hmax.
  destruct (dup_spec o STDOUT_FILENO f1 g H1) as (n1 & E1 & Hn1 & Hp1); [lia|].
  assert (Hne1 : n1 ≠ STDIN_FILENO) by congruence.
  destruct (dup_spec o STDIN_FILENO f0 (with_fds (<[n1 := f1]> (fds g)) g))
    as (n2 & E2 & Hn2 & Hp2).
  { cbn [with_fds fds]. now rewrite lookup_insert_ne. }
  { cbn [with_fds fds]. rewrite map_size_insert_None by assumption. lia. }
  cbn [with_fds fds] in Hn2.
  assert (Hne : n1 ≠ n2).
  { intros <-. rewrite lookup_insert_eq in Hn2. discriminate. }
  rewrite lookup_insert_ne in Hn2 by assumption.
  exists n1, n2. repeat split; try assumption.
  unfold runCommand.
  rewrite (bind_Ret _ _ _ _ _ _ E1), prepend_nil.
  rewrite (bind_Ret _ _ _ _ _ _ E2), prepend_nil.
  destruct (Z.eqb_spec n1 (-1)); [lia|]. destruct (Z.eqb_spec n2 (-1)); [lia|].
  cbn [orb]. rewrite bind_emit. reflexivity.
Qed.

Lemma dup2_spec (oldfd newfd : Z) (f : file) g :
  fds g !! oldfd = Some f →
  dup2 oldfd newfd g = Ret tt (with_fds (<[newfd := f]> (fds g)) g) [Dup2 oldfd newfd].
Proof. intros H. unfold dup2. rewrite bind_get, bind_emit, H. reflexivity. Qed.

Lemma ret_spec {A} (a : A) g : ret a g = Ret a g [].
Proof. reflexivity. Qed.

(** The restores, from a table that holds the saved descriptors. *)
Lemma restore_spec {B} (c : command) (stdOut stdIn : Z) (f0 f1 : file)
    (k : shell → M B) g :
  fds g !! stdIn = Some f0 → fds g !! stdOut = Some f1 →
  stdIn ≠ STDIN_FILENO → stdIn ≠ STDOUT_FILENO →
  stdOut ≠ STDIN_FILENO → stdOut ≠ STDOUT_FILENO →
  ∃ F, ((if is_null (inputFile c) then ret tt else dup2 stdIn STDIN_FILENO) ;;
        (if is_null (outputFile c) then ret tt else dup2 stdOut STDOUT_FILENO) ;;
        g' ← get; k g') g
       = prepend (restores c stdOut stdIn) (k (with_fds F g) (with_fds F g))
       ∧ F !! stdIn = Some f0 ∧ F !! stdOut = Some f1
       ∧ (fds g !! STDIN_FILENO = Some f0 → F !! STDIN_FILENO = Some f0)
       ∧ (fds g !! STDOUT_FILENO = Some f1 → F !! STDOUT_FILENO = Some f1)
       ∧ (inputFile c ≠ None → F !! STDIN_FILENO = Some f0)
       ∧ (outputFile c ≠ None → F !! STDOUT_FILENO = Some f1).
Proof.
  intros Hin Hout Hi0 Hi1 Ho0 Ho1. unfold restores.
  assert (Hg : with_fds (fds g) g = g) by now destruct g.
  assert (H01 : STDIN_FILENO ≠ STDOUT_FILENO) by discriminate.
  destruct (inputFile c) as [inp|], (outputFile c) as [out|]; cbn [is_null].
  - exists (<[STDOUT_FILENO := f1]> (<[STDIN_FILENO := f0]> (fds g))).
    split.
    + rewrite (bind_Ret _ _ _ _ _ _ (dup2_spec stdIn STDIN_FILENO f0 g Hin)).
      erewrite (bind_Ret _ _ _ _ _ _ (dup2_spec stdOut STDOUT_FILENO f1 _ _)).
      rewrite bind_get, prepend_prepend. reflexivity.
    + repeat split; intros; simplify_map_eq; reflexivity.
  - exists (<[STDIN_FILENO := f0]> (fds g)).
    split.
    + rewrite (bind_Ret _ _ _ _ _ _ (dup2_spec stdIn STDIN_FILENO f0 g Hin)).
      rewrite bind_ret, bind_get. reflexivity.
    + repeat split; intros; simplify_map_eq; first [reflexivity | congruence].
  - exists (<[STDOUT_FILENO := f1]> (fds g)).
    split.
    + rewrite bind_ret.
      rewrite (bind_Ret _ _ _ _ _ _ (dup2_spec stdOut STDOUT_FILENO f1 g Hout)).
      rewrite bind_get. reflexivity.
    + repeat split; intros; simplify_map_eq; first [reflexivity | congruence].
  - exists (fds g). rewrite Hg.
    split; [rewrite !bind_ret, bind_get, prepend_nil; reflexivity|].
    repeat split; auto; congruence.
  Unshelve. cbn [with_fds fds]. now rewrite lookup_insert_ne.
Qed.

(** The exit-code byte of a status below 256 is 0. *)
Lemma WEXITSTATUS_small (w : Z) : 0 ≤ w < 256 → WEXITSTATUS w = 0.
Proof.
  intros H. unfold WEXITSTATUS.
  rewrite Z.shiftr_land, (Z.shiftr_div_pow2 w 8) by lia.
  change (2 ^ 8) with 256. rewrite Z.div_small by lia. reflexivity.
Qed.

(** The exit-code byte of the status of a child that exited with [code]. *)
Lemma WEXITSTATUS_exited (code : Z) :
  0 ≤ code < 256 → WEXITSTATUS (code * 256) = code.
Proof.
  intros H. unfold WEXITSTATUS.
  rewrite Z.shiftr_land, (Z.shiftr_div_pow2 (code * 256) 8) by lia.
  change (2 ^ 8) with 256. rewrite Z.div_mul by lia.
  change (Z.shiftr 65280 8) with (Z.ones 8). rewrite Z.land_ones by lia.
  apply Z.mod_small. change (2 ^ 8) with 256. lia.
Qed.

(** The parent's side of [runCommand], after the [fork]. *)
Lemma runCommand_parent_spec (o : os) (c : command * string) g
    (stdOut stdIn spawnpid : Z) (f0 f1 : file) :
  length (backProcs g) = MAX_PROCS →
  fds g !! stdIn = Some f0 → fds g !! stdOut = Some f1 →
  fds g !! STDIN_FILENO = Some f0 → fds g !! STDOUT_FILENO = Some f1 →
  stdIn ≠ STDIN_FILENO → stdIn ≠ STDOUT_FILENO →
  stdOut ≠ STDIN_FILENO → stdOut ≠ STDOUT_FILENO →
  (background (fst c) = true → (occupied (backProcs g) < MAX_PROCS)%nat) →
  ∃ g',
    runCommand_parent o c stdOut stdIn spawnpid g
    = Ret (WEXITSTATUS (exitStatus g')) g'
        ((if background (fst c)
          then [Print ("background pid is " ++ sprintf_d spawnpid ++ newline)]
          else []) ++ restores (fst c) stdOut stdIn) ∧
    fds g' !! stdOut = Some f1 ∧ fds g' !! stdIn = Some f0 ∧
    fds g' !! STDIN_FILENO = Some f0 ∧ fds g' !! STDOUT_FILENO = Some f1 ∧
    backgroundDisabled g' = backgroundDisabled g ∧
    (background (fst c) = true →
     ∃ k, free_slot (backProcs g) = Some k
          ∧ backProcs g' = <[k := Some {| backPID := spawnpid; active := true |}]>
                             (backProcs g)
          ∧ exitStatus g' = exitStatus g ∧ forePID g' = forePID g) ∧
    (background (fst c) = false →
     backProcs g' = backProcs g ∧ forePID g' = spawnpid
     ∧ exitStatus g' = if 0 <? fst (waitpid o) then snd (waitpid o) else exitStatus g).
Proof.
  intros Hlen Hin Hout H0 H1 Hi0 Hi1 Ho0 Ho1 Hroom. unfold runCommand_parent.
  destruct (background (fst c)) eqn:Hbg.
  - destruct (free_slot_room (backProcs g)) as [k Hk]; [rewrite Hlen; auto|].
    pose proof (saveProcess_spec spawnpid g Hlen) as Hsave. rewrite Hk in Hsave.
    set (g1 := with_backProcs
                 (<[k := Some {| backPID := spawnpid; active := true |}]> (backProcs g)) g)
      in *.
    destruct (restore_spec (fst c) stdOut stdIn f0 f1
                (λ g', ret (WEXITSTATUS (exitStatus g'))) g1)
      as (F & Hrun & HF1 & HF2 & HF3 & HF4 & _); try assumption.
    exists (with_fds F g1). split; [|split_and!; auto; try discriminate;
      intros _; exists k; split_and!; auto].
    assert (Hfirst : (saveProcess spawnpid ;;
                      emit (Print ("background pid is " ++ sprintf_d spawnpid ++ newline))) g
                     = Ret tt g1 [Print ("background pid is " ++ sprintf_d spawnpid
                                         ++ newline)]).
    { rewrite (bind_Ret _ _ _ _ _ _ Hsave), prepend_nil. reflexivity. }
    rewrite (bind_Ret _ _ _ _ _ _ Hfirst), Hrun.
    unfold ret. cbn [prepend]. rewrite app_nil_r. reflexivity.
  - set (st := if 0 <? fst (waitpid o) then snd (waitpid o) else exitStatus g).
    set (g1 := with_exitStatus st (with_forePID spawnpid g)).
    destruct (restore_spec (fst c) stdOut stdIn f0 f1
                (λ g', ret (WEXITSTATUS (exitStatus g'))) g1)
      as (F & Hrun & HF1 & HF2 & HF3 & HF4 & _); try assumption.
    exists (with_fds F g1). split; [|split_and!; auto; try discriminate;
      intros _; split_and!; auto].
    assert (Hwait : (set_forePID spawnpid ;;
                     (if 0 <? fst (waitpid o) then set_exitStatus (snd (waitpid o))
                      else ret tt)) g = Ret tt g1 []).
    { rewrite bind_set_forePID. subst g1 st.
      destruct (0 <? fst (waitpid o)); [reflexivity|].
      unfold ret. destruct g; reflexivity. }
    rewrite (bind_Ret _ _ _ _ _ _ Hwait), prepend_nil, Hrun.
    unfold ret. cbn [prepend]. rewrite app_nil_r. reflexivity.
Qed.

(** A foreground command, on the parent's side: the child is waited for,
    and the value returned is the exit-code byte of the status the wait
    stored. *)
Lemma runCommand_foreground
    (o : os) (c : command * string) (g : shell) (f0 f1 : file) :
  length (backProcs g) = MAX_PROCS →
  fds g !! STDIN_FILENO = Some f0 → fds g !! STDOUT_FILENO = Some f1 →
  Z.of_nat (size (fds g)) + 1 < open_max o →
  CHILD < fork o →
  background (fst c) = false →
  ∃ g' tr,
    runCommand o c g = Ret (WEXITSTATUS (exitStatus g')) g' tr ∧
    backProcs g' = backProcs g ∧ forePID g' = fork o ∧
    exitStatus g' = if 0 <? fst (waitpid o) then snd (waitpid o) else exitStatus g.
Proof.
  intros Hlen H0 H1 Hmax Hfork Hfg.
  destruct (runCommand_forks o c g f0 f1 H0 H1 Hmax)
    as (stdOut & stdIn & HfO & HfI & Hne & Hrun).
  destruct (runCommand_parent_spec o c
              (with_fds (<[stdIn := f0]> (<[stdOut := f1]> (fds g))) g)
              stdOut stdIn (fork o) f0 f1)
    as (g' & Hpar & _ & _ & _ & _ & _ & _ & Hfgs);
    cbn [with_fds fds backProcs]; try assumption; try congruence;
    try (simplify_map_eq; reflexivity).
  eexists g', _. split; [|exact (Hfgs Hfg)].
  rewrite Hrun. destruct (Z.eqb_spec (fork o) CHILD); [lia|].
  destruct (Z.ltb_spec CHILD (fork o)); [|lia]. rewrite Hpar. reflexivity.
Qed.

(** C2 (as amended).  When the launcher is given a command and the two
    [dup]s and the [fork] succeed, then in the parent: for a background
    command, if the job table has an empty slot, the job is registered in
    the first one and its pid reported; whichever branch was taken, stdin
    (resp. stdout) is restored by [dup2] from the duplicate saved before
    the [fork] when an input (resp. output) file was requested, and both
    descriptors refer to what they did on entry; and the value returned is
    the exit-code byte of the status recorded at that moment -- for a
    background command the one recorded before the call, which is 0
    whenever that status lies below 256. *)
Theorem launcher_registers_and_restores
    (o : os) (c : command * string) (g : shell) (f0 f1 : file) :
  length (backProcs g) = MAX_PROCS →
  fds g !! STDIN_FILENO = Some f0 → fds g !! STDOUT_FILENO = Some f1 →
  Z.of_nat (size (fds g)) + 1 < open_max o →
  CHILD < fork o →
  (background (fst c) = true → (occupied (backProcs g) < MAX_PROCS)%nat) →
  ∃ g' stdOut stdIn,
    runCommand o c g
    = Ret (WEXITSTATUS (exitStatus g')) g'
        ([Fork (fork o)]
         ++ (if background (fst c)
             then [Print ("background pid is " ++ sprintf_d (fork o) ++ newline)]
             else [])
         ++ restores (fst c) stdOut stdIn) ∧
    fds g !! stdOut = None ∧ fds g !! stdIn = None ∧
    fds g' !! stdOut = Some f1 ∧ fds g' !! stdIn = Some f0 ∧
    fds g' !! STDIN_FILENO = Some f0 ∧ fds g' !! STDOUT_FILENO = Some f1 ∧
    backgroundDisabled g' = backgroundDisabled g ∧
    (background (fst c) = true →
     ∃ k, free_slot (backProcs g) = Some k
          ∧ backProcs g' = <[k := Some {| backPID := fork o; active := true |}]>
                             (backProcs g)
          ∧ exitStatus g' = exitStatus g ∧ forePID g' = forePID g
          ∧ (0 ≤ exitStatus g < 256 → WEXITSTATUS (exitStatus g') = 0)) ∧
    (background (fst c) = false →
     backProcs g' = backProcs g ∧ forePID g' = fork o
     ∧ exitStatus g' = if 0 <? fst (waitpid o) then snd (waitpid o) else exitStatus g).
Proof.
  intros Hlen H0 H1 Hmax Hfork Hroom.
  destruct (runCommand_forks o c g f0 f1 H0 H1 Hmax)
    as (stdOut & stdIn & HfO & HfI & Hne & Hrun).
  assert (Hi0 : stdIn ≠ STDIN_FILENO) by congruence.
  assert (Hi1 : stdIn ≠ STDOUT_FILENO) by congruence.
  assert (Ho0 : stdOut ≠ STDIN_FILENO) by congruence.
  assert (Ho1 : stdOut ≠ STDOUT_FILENO) by congruence.
  destruct (runCommand_parent_spec o c
              (with_fds (<[stdIn := f0]> (<[stdOut := f1]> (fds g))) g)
              stdOut stdIn (fork o) f0 f1)
    as (g' & Hpar & HF1 & HF2 & HF3 & HF4 & Hbd & Hbg & Hfg);
    cbn [with_fds fds backProcs]; try assumption; try (simplify_map_eq; reflexivity).
  exists g', stdOut, stdIn.
  split.
  { rewrite Hrun. destruct (Z.eqb_spec (fork o) CHILD); [lia|].
    destruct (Z.ltb_spec CHILD (fork o)); [|lia]. rewrite Hpar. reflexivity. }
  repeat split; try assumption.
  - intros Hb. destruct (Hbg Hb) as (k & Hk & HT & Hst & Hfp). exists k.
    repeat split; try assumption. intros Hsmall. rewrite Hst.
    now apply WEXITSTATUS_small.
  - now apply Hfg.
  - now apply Hfg.
  - now apply Hfg.
Qed.

(** C2, the claim as stated, refuted: once the reaper has stored the
    status 768 of a background job that exited with code 3, the launch of
    the next background command returns 3, not 0. *)
Lemma background_launch_returns_stale_status :
  ∃ g1 tr1 g2 tr2 c g3 tr3,
    runShell_body (answers 5000 0) ("sleep 1 &" ++ newline) initial = Ret tt g1 tr1
    ∧ childTerminates (λ _, (5000, 768)) SIGCHLD g1 = Ret tt g2 tr2
    ∧ exitStatus g2 = 768
    ∧ parse 1234 (backgroundDisabled g2) ("sleep 2 &" ++ newline) = Some c
    ∧ background (fst c) = true
    ∧ runCommand (answers 5001 0) c g2 = Ret 3 g3 tr3.
Proof.
  let r1 := eval vm_compute in
      (runShell_body (answers 5000 0) ("sleep 1 &" ++ newline) initial) in
  lazymatch r1 with
  | Ret _ ?g1 ?tr1 =>
      exists g1, tr1;
      let r2 := eval vm_compute in (childTerminates (λ _, (5000, 768)) SIGCHLD g1) in
      lazymatch r2 with
      | Ret _ ?g2 ?tr2 =>
          exists g2, tr2;
          let p := eval vm_compute in
              (parse 1234 (backgroundDisabled g2) ("sleep 2 &" ++ newline)) in
          lazymatch p with
          | Some ?c =>
              exists c;
              let r3 := eval vm_compute in (runCommand (answers 5001 0) c g2) in
              lazymatch r3 with
              | Ret _ ?g3 ?tr3 => exists g3, tr3
              end
          end
      end
  end.
  split_and!; vm_compute; reflexivity.
Qed.

(** C2, at the line "sort < in.txt > out.txt &" in a fresh shell: the job
    takes slot 0, its pid is reported, both descriptors are restored, and
    0 is returned. *)
Lemma launcher_registers_and_restores_witness :
  ∃ c g' stdOut stdIn,
    parse 1234 false ("sort < in.txt > out.txt &" ++ newline) = Some c
    ∧ runCommand (answers 5000 0) c initial
      = Ret 0 g'
          [Fork 5000; Print ("background pid is 5000" ++ newline);
           Dup2 stdIn STDIN_FILENO; Dup2 stdOut STDOUT_FILENO]
    ∧ backProcs g' !! 0%nat = Some (Some {| backPID := 5000; active := true |})
    ∧ fds g' !! STDIN_FILENO = Some (Inherited 0)
    ∧ fds g' !! STDOUT_FILENO = Some (Inherited 1).
Proof.
  destruct (launcher_registers_and_restores (answers 5000 0)
              ({| args := Some (Tok "sort") :: replicate 25 None;
                  inputFile := Some "in.txt"; outputFile := Some "out.txt";
                  background := true |}, EmptyString)
              initial (Inherited 0) (Inherited 1))
    as (g' & stdOut & stdIn & Hrun & _ & _ & _ & _ & H0 & H1 & _ & Hbg & _);
    [reflexivity | reflexivity | reflexivity | vm_compute; reflexivity
    | reflexivity | intros _; vm_compute; lia |].
  destruct (Hbg eq_refl) as (k & Hk & HT & Hst & _ & Hret).
  exists ({| args := Some (Tok "sort") :: replicate 25 None;
             inputFile := Some "in.txt"; outputFile := Some "out.txt";
             background := true |}, EmptyString), g', stdOut, stdIn.
  split; [vm_compute; reflexivity|].
  split; [|split; [|split; assumption]].
  - rewrite Hrun, Hret by (change (exitStatus initial) with 0; lia). reflexivity.
  - rewrite HT. vm_compute in Hk. injection Hk as <-. reflexivity.
Defined.

(** ** The loop of [runShell] *)

(** A line whose first argument is no built-in goes to the launcher, and
    what the launcher returns is recorded. *)
Lemma runShell_body_external (o : os) (buffer : string) g c a0 :
  parse (getpid o) (backgroundDisabled g) buffer = Some c →
  args (fst c) !! 0%nat = Some (Some a0) →
  arg_string (snd c) a0 ≠ "exit" → arg_string (snd c) a0 ≠ "cd" →
  arg_string (snd c) a0 ≠ "status" →
  runShell_body o buffer g = (r ← runCommand o c; set_exitStatus r) g.
Proof.
  intros Hparse Ha0 H1 H2 H3. unfold runShell_body.
  rewrite bind_get, Hparse, Ha0.
  destruct (String.eqb_spec "exit" (arg_string (snd c) a0)); [congruence|].
  destruct (String.eqb_spec "cd" (arg_string (snd c) a0)); [congruence|].
  destruct (String.eqb_spec "status" (arg_string (snd c) a0)); [congruence|].
  reflexivity.
Qed.

(** The built-in [status] prints the recorded value as an exit value. *)
Lemma runShell_body_status (o : os) g :
  runShell_body o ("status" ++ newline) g
  = Ret tt g [Print ("exit value " ++ sprintf_d (exitStatus g) ++ newline)].
Proof.
  unfold runShell_body. rewrite bind_get.
  change (parse (getpid o) (backgroundDisabled g) ("status" ++ newline))
    with (Some ({| args := Some (Tok "status") :: replicate 6 None;
                   inputFile := None; outputFile := None; background := false |},
                EmptyString)).
  reflexivity.
Qed.

(** C1 (as amended).  After a foreground command whose wait status is
    [w], the shell has recorded the exit-code byte of [w], and the built-in
    [status] prints "exit value" followed by that byte, whatever it is:
    nothing is classified.  For a command killed by signal N -- status N,
    or N + 128 when a core was dumped -- the byte is 0 and the line is
    "exit value 0": the signal number is not recorded. *)
Theorem status_after_foreground
    (o o' : os) (buffer : string) (g : shell) (c : command * string)
    (a0 : argptr) (f0 f1 : file) (w : Z) :
  length (backProcs g) = MAX_PROCS →
  fds g !! STDIN_FILENO = Some f0 → fds g !! STDOUT_FILENO = Some f1 →
  Z.of_nat (size (fds g)) + 1 < open_max o →
  CHILD < fork o →
  parse (getpid o) (backgroundDisabled g) buffer = Some c →
  args (fst c) !! 0%nat = Some (Some a0) →
  arg_string (snd c) a0 ≠ "exit" → arg_string (snd c) a0 ≠ "cd" →
  arg_string (snd c) a0 ≠ "status" →
  background (fst c) = false →
  waitpid o = (fork o, w) →
  ∃ g1 tr1,
    runShell_body o buffer g = Ret tt g1 tr1
    ∧ exitStatus g1 = WEXITSTATUS w
    ∧ forePID g1 = fork o
    ∧ runShell_body o' ("status" ++ newline) g1
      = Ret tt g1 [Print ("exit value " ++ sprintf_d (WEXITSTATUS w) ++ newline)]
    ∧ (∀ N, 1 ≤ N ≤ 127 → w = N ∨ w = N + 128 →
       exitStatus g1 = 0
       ∧ runShell_body o' ("status" ++ newline) g1
         = Ret tt g1 [Print ("exit value 0" ++ newline)]).
Proof.
  intros Hlen H0 H1 Hmax Hfork Hparse Ha0 Hn1 Hn2 Hn3 Hfg Hwait.
  destruct (runCommand_foreground o c g f0 f1 Hlen H0 H1 Hmax Hfork Hfg)
    as (g' & tr & Hrun & HT & Hfp & Hst).
  rewrite Hwait in Hst. cbn [fst snd] in Hst.
  destruct (Z.ltb_spec 0 (fork o)); [|unfold CHILD in Hfork; lia].
  eexists (with_exitStatus (WEXITSTATUS (exitStatus g')) g'), _.
  split.
  { rewrite (runShell_body_external o buffer g c a0) by assumption.
    rewrite (bind_Ret _ _ _ _ _ _ Hrun). unfold set_exitStatus. cbn [prepend].
    reflexivity. }
  rewrite Hst. split; [reflexivity|]. split; [exact Hfp|].
  split; [apply runShell_body_status|].
  intros N HN Hw. rewrite runShell_body_status.
  cbn [with_exitStatus exitStatus].
  rewrite (WEXITSTATUS_small w) by (destruct Hw; subst; lia).
  split; reflexivity.
Qed.

(** C1, at a "sleep 100" killed by signal 9 in a fresh shell. *)
Lemma status_after_foreground_witness :
  ∃ g1 tr1,
    runShell_body (answers 5000 9) ("sleep 100" ++ newline) initial = Ret tt g1 tr1
    ∧ exitStatus g1 = 0
    ∧ runShell_body (answers 5001 0) ("status" ++ newline) g1
      = Ret tt g1 [Print ("exit value 0" ++ newline)].
Proof.
  destruct (status_after_foreground (answers 5000 9) (answers 5001 0)
              ("sleep 100" ++ newline) initial
              ({| args := [Some (Tok "sleep"); Some (Tok "100")] ++ replicate 8 None;
                  inputFile := None; outputFile := None; background := false |},
               EmptyString)
              (Tok "sleep") (Inherited 0) (Inherited 1) 9)
    as (g1 & tr1 & Hrun & _ & _ & _ & Hsig);
    [ reflexivity | reflexivity | reflexivity | vm_compute; reflexivity
    | reflexivity | reflexivity | reflexivity
    | discriminate | discriminate | discriminate | reflexivity | reflexivity |].
  destruct (Hsig 9) as [Hst Hline]; [lia | now left |].
  exists g1, tr1. split_and!; assumption.
Defined.

(** C1, the claim as stated, refuted: after a foreground command killed by
    signal 9, [status] prints "exit value 0", the line it prints after a
    command that exited with code 0 and after one killed by signal 15; it
    is not the line that reports 9 as a signal number, and the value
    recorded is 0, not 9. *)
Lemma status_does_not_reflect_signal :
  ∃ g9 tr9 g15 tr15 g0 tr0,
    runShell_body (answers 5000 9) ("sleep 100" ++ newline) initial = Ret tt g9 tr9
    ∧ runShell_body (answers 5000 15) ("sleep 100" ++ newline) initial = Ret tt g15 tr15
    ∧ runShell_body (answers 5000 0) ("sleep 100" ++ newline) initial = Ret tt g0 tr0
    ∧ exitStatus g9 = 0
    ∧ runShell_body (answers 5001 0) ("status" ++ newline) g9
      = Ret tt g9 [Print ("exit value 0" ++ newline)]
    ∧ runShell_body (answers 5001 0) ("status" ++ newline) g15
      = Ret tt g15 [Print ("exit value 0" ++ newline)]
    ∧ runShell_body (answers 5001 0) ("status" ++ newline) g0
      = Ret tt g0 [Print ("exit value 0" ++ newline)]
    ∧ classified_line 9 = "terminated by signal 9" ++ newline
    ∧ "exit value 0" ++ newline ≠ classified_line 9.
Proof.
  let r9 := eval vm_compute in
      (runShell_body (answers 5000 9) ("sleep 100" ++ newline) initial) in
  let r15 := eval vm_compute in
      (runShell_body (answers 5000 15) ("sleep 100" ++ newline) initial) in
  let r0 := eval vm_compute in
      (runShell_body (answers 5000 0) ("sleep 100" ++ newline) initial) in
  lazymatch r9 with
  | Ret _ ?g9 ?tr9 =>
      lazymatch r15 with
      | Ret _ ?g15 ?tr15 =>
          lazymatch r0 with
          | Ret _ ?g0 ?tr0 => exists g9, tr9, g15, tr15, g0, tr0
          end
      end
  end.
  split_and!; try (vm_compute; reflexivity). discriminate.
Qed.

(** *** Lines that are not dispatched *)

(** C9 (as amended).  For a non-empty line made only of the tokenizer's
    delimiters, space and newline, and for a line whose first token begins
    with [#], the pass of the loop dispatches nothing: no event occurs --
    no built-in runs, no process is forked -- and the globals, job table,
    exit status, foreground pid, [backgroundDisabled] and descriptors, are
    what they were. *)
Theorem blank_and_comment_lines (o : os) (buffer : string) (g : shell) :
  (buffer ≠ EmptyString → all_chars is_delimiter buffer = true →
   runShell_body o buffer g = Ret tt g []) ∧
  (∀ token rest, strtok_all buffer = token :: rest → isComment token = true →
   runShell_body o buffer g = Ret tt g []).
Proof.
  split.
  - intros Hne Hblank. unfold runShell_body, parse, getCommand, strtok_all.
    rewrite bind_get, (strtok_from_delimiters buffer EmptyString Hblank).
    cbn [getCommand_loop yield start blank cmd res args fst snd].
    rewrite strlen_delimiters by assumption.
    destruct buffer as [|ch s]; [congruence|]. reflexivity.
  - intros token rest Htoks Hc. unfold runShell_body, parse, getCommand.
    rewrite bind_get, Htoks.
    pose proof (strtok_all_count buffer) as Hcount. rewrite Htoks in Hcount.
    cbn [length] in Hcount.
    destruct (strlen buffer) as [|n] eqn:Hn; [lia|].
    cbn [getCommand_loop]. unfold getCommand_body.
    cbn [start blank outRedirect inRedirect cmd args i]. rewrite Hc.
    cbn [replicate length]. cbn [Nat.ltb Nat.leb set_arg cmd args res i fst snd].
    reflexivity.
Qed.

(** C9, the claim as stated, refuted: the line made of a tab and a newline
    consists of white space only, yet its pass forks a child to run the
    command named by the tab, and changes the foreground pid and the exit
    status. *)
Lemma tab_line_is_dispatched :
  all_chars isspace (String "009" newline) = true
  ∧ ∃ g' tr,
      runShell_body (answers 5000 256) (String "009" newline) initial = Ret tt g' tr
      ∧ In (Fork 5000) tr
      ∧ forePID g' = 5000 ∧ forePID initial = -1
      ∧ exitStatus g' = 1 ∧ exitStatus initial = 0.
Proof.
  split; [reflexivity|].
  let r := eval vm_compute in
      (runShell_body (answers 5000 256) (String "009" newline) initial) in
  lazymatch r with Ret _ ?g ?tr => exists g, tr end.
  split; [vm_compute; reflexivity|]. split; [left; reflexivity|].
  split_and!; reflexivity.
Qed.

(** *** The built-in [exit] *)

(** C8.  When the first argument of the line is [exit], the pass of the
    loop is [exitShell]: for every occupied slot of the job table, in
    order, it sends SIGKILL to the job's pid and frees the record, leaves
    every slot empty, and then exits the shell with status 0.  The pids
    killed are those of the jobs tracked, the records freed are theirs, and
    they are as many as the slots that were occupied. *)
Theorem exit_kills_and_frees_all (o : os) (g : shell) :
  length (backProcs g) = MAX_PROCS →
  (∀ buffer c a0,
     parse (getpid o) (backgroundDisabled g) buffer = Some c →
     args (fst c) !! 0%nat = Some (Some a0) →
     arg_string (snd c) a0 = "exit" →
     runShell_body o buffer g = exitShell g) ∧
  runShell_body o ("exit" ++ newline) g = exitShell g ∧
  exitShell g
  = Exited 0 (with_backProcs (replicate MAX_PROCS None) g) (exit_events (backProcs g)) ∧
  kills (exit_events (backProcs g)) = backPID <$> jobs (backProcs g) ∧
  frees (exit_events (backProcs g)) = jobs (backProcs g) ∧
  length (jobs (backProcs g)) = occupied (backProcs g) ∧
  (∀ i p, backProcs g !! i = Some (Some p) →
     In (Kill (backPID p) SIGKILL) (exit_events (backProcs g))
     ∧ In (Free p) (exit_events (backProcs g))).
Proof.
  intros Hlen. split_and!.
  - intros buffer c a0 Hparse Ha0 Hname. unfold runShell_body.
    rewrite bind_get, Hparse, Ha0, Hname. reflexivity.
  - unfold runShell_body. rewrite bind_get.
    change (parse (getpid o) (backgroundDisabled g) ("exit" ++ newline))
      with (Some ({| args := Some (Tok "exit") :: replicate 4 None;
                     inputFile := None; outputFile := None; background := false |},
                  EmptyString)).
    reflexivity.
  - apply exitShell_spec. exact Hlen.
  - apply exit_events_kills.
  - apply exit_events_frees.
  - apply jobs_length.
  - intros i p Hp. unfold exit_events. rewrite !in_flat_map.
    split; exists (Some p); (split; [|simpl; auto]);
      apply list_elem_of_In, list_elem_of_lookup; eauto.
Qed.

(** C8, at a shell that tracks two background jobs. *)
Lemma exit_kills_and_frees_all_witness :
  ∃ g1 tr1,
    runShell_lines [(answers 5000 0, "sleep 50 &" ++ newline);
                    (answers 5001 0, "sleep 60 &" ++ newline)] initial = Ret tt g1 tr1
    ∧ jobs (backProcs g1) = [{| backPID := 5000; active := true |};
                             {| backPID := 5001; active := true |}]
    ∧ runShell_body (answers 5002 0) ("exit" ++ newline) g1
      = Exited 0 (with_backProcs (replicate MAX_PROCS None) g1)
          [Kill 5000 SIGKILL; Free {| backPID := 5000; active := true |};
           Kill 5001 SIGKILL; Free {| backPID := 5001; active := true |}].
Proof.
  let r := eval vm_compute in
      (runShell_lines [(answers 5000 0, "sleep 50 &" ++ newline);
                       (answers 5001 0, "sleep 60 &" ++ newline)] initial) in
  lazymatch r with Ret _ ?g ?tr => exists g, tr end.
  split; [vm_compute; reflexivity|]. split; [reflexivity|].
  match goal with |- runShell_body ?o _ ?g = _ =>
    destruct (exit_kills_and_frees_all o g) as (_ & Hexit & Hspec & _);
      [reflexivity|]; rewrite Hexit, Hspec end.
  reflexivity.
Defined.

(** *** Histories of the job table *)

Lemma prepend_Ret_inv {A} (tr : list event) (r : outcome A) a g t :
  prepend tr r = Ret a g t → ∃ t', r = Ret a g t' ∧ t = (tr ++ t')%list.
Proof. destruct r; simpl; intros H; try discriminate. injection H as -> -> <-. eauto. Qed.

Lemma prints_app (tr1 tr2 : list event) :
  prints (tr1 ++ tr2)%list = (prints tr1 ++ prints tr2)%list.
Proof. apply omap_app. Qed.

(** One event of a history, while the table has room. *)
Lemma run_job_spec (e : job_event) g :
  length (backProcs g) = MAX_PROCS →
  (occupied (backProcs g) + spawns [e] <= MAX_PROCS)%nat →
  ∃ g' tr, run_job e g = Ret tt g' tr
           ∧ length (backProcs g') = MAX_PROCS
           ∧ (length (prints tr) + occupied (backProcs g')
              = occupied (backProcs g) + spawns [e])%nat.
Proof.
  intros Hlen Hroom. destruct e as [pid|w]; cbn [run_job spawns] in *.
  - destruct (free_slot_room (backProcs g)) as [k Hk]; [lia|].
    rewrite saveProcess_spec, Hk by assumption.
    destruct (free_slot_Some _ _ Hk) as [Hnone _].
    eexists _, _. split; [reflexivity|]. cbn [with_backProcs backProcs prints omap length].
    rewrite length_insert, (occupied_insert _ _ _ Hnone).
    split; [assumption | simpl; lia].
  - rewrite childTerminates_spec by assumption.
    eexists _, _. split; [reflexivity|]. cbn [with_backProcs backProcs].
    rewrite reap_table_length. split; [assumption|].
    pose proof (reap_trace_prints w (backProcs g) 0). lia.
Qed.

(** A history with at most as many registrations as the table has room
    for runs to its end, and each line printed accounts for one slot
    emptied. *)
Lemma run_jobs_spec : ∀ es g,
  length (backProcs g) = MAX_PROCS →
  (occupied (backProcs g) + spawns es <= MAX_PROCS)%nat →
  ∃ g' tr, run_jobs es g = Ret tt g' tr
           ∧ length (backProcs g') = MAX_PROCS
           ∧ (length (prints tr) + occupied (backProcs g')
              = occupied (backProcs g) + spawns es)%nat.
Proof.
  induction es as [|e es IH]; intros g Hlen Hroom.
  - exists g, []. split; [reflexivity|]. split; [assumption|]. simpl. lia.
  - assert (Hsp : spawns (e :: es) = (spawns [e] + spawns es)%nat)
      by (destruct e; reflexivity).
    destruct (run_job_spec e g Hlen) as (g1 & tr1 & H1 & Hlen1 & Hc1); [lia|].
    destruct (IH g1 Hlen1) as (g2 & tr2 & H2 & Hlen2 & Hc2); [lia|].
    exists g2, (tr1 ++ tr2)%list. split.
    + cbn [run_jobs]. rewrite (bind_Ret _ _ _ _ _ _ H1), H2. reflexivity.
    + split; [assumption|]. rewrite prints_app, length_app. lia.
Qed.

Lemma run_jobs_app : ∀ es1 es2 g g1 tr1,
  run_jobs es1 g = Ret tt g1 tr1 →
  run_jobs (es1 ++ es2)%list g = prepend tr1 (run_jobs es2 g1).
Proof.
  induction es1 as [|e es1 IH]; intros es2 g g1 tr1 H.
  - injection H as <- <-. now rewrite prepend_nil.
  - cbn [run_jobs app] in *. unfold mbind, M_bind, bind in *.
    destruct (run_job e g) as [[] g' tr'| | |]; try discriminate.
    apply prepend_Ret_inv in H as (t' & H & ->).
    rewrite (IH es2 g' g1 t' H), prepend_prepend. reflexivity.
Qed.

(** Reaper runs in which every occupied slot is at some point reported
    terminated leave the table empty, with one line per job. *)
Lemma run_reapers_spec : ∀ ws g,
  length (backProcs g) = MAX_PROCS →
  (∀ i p, backProcs g !! i = Some (Some p) → ∃ w, In w ws ∧ 0 < fst (w i)) →
  ∃ g' tr, run_jobs (Sigchld <$> ws) g = Ret tt g' tr
           ∧ backProcs g' = replicate MAX_PROCS None
           ∧ length (prints tr) = occupied (backProcs g).
Proof.
  induction ws as [|w ws IH]; intros g Hlen Hall.
  - exists g, []. split; [reflexivity|].
    assert (H0 : occupied (backProcs g) = 0%nat).
    { destruct (occupied (backProcs g)) eqn:E; [reflexivity|]. exfalso.
      assert (Hex : ∃ i p, backProcs g !! i = Some (Some p)).
      { clear -E. induction (backProcs g) as [|[p|] t IHt]; simpl in E; [lia | |].
        - exists 0%nat, p. reflexivity.
        - destruct (IHt E) as (i & p & H). exists (S i), p. exact H. }
      destruct Hex as (i & p & H). destruct (Hall i p H) as (w & [] & _). }
    split; [|now rewrite H0]. rewrite <- Hlen. now apply occupied_0.
  - cbn [fmap list_fmap run_jobs run_job].
    pose proof (childTerminates_spec w SIGCHLD g Hlen) as H1.
    set (g1 := with_backProcs (reap_table w 0 (backProcs g))
                 (with_exitStatus (reap_final w 0 (backProcs g) (exitStatus g)) g)) in *.
    destruct (IH g1) as (g2 & tr2 & H2 & HT & Hc).
    + cbn. now rewrite reap_table_length.
    + intros i p Hp. cbn [g1 with_backProcs backProcs] in Hp.
      rewrite reap_table_lookup in Hp. cbn [Nat.add] in Hp.
      destruct (backProcs g !! i) as [x|] eqn:Hx; [|discriminate].
      cbn in Hp. unfold reap_slot, reaped in Hp. destruct x as [q|]; [|discriminate].
      destruct (Z.ltb_spec 0 (fst (w i))); [discriminate|].
      injection Hp as ->. destruct (Hall i p Hx) as (w' & [<-|Hin] & Hpos); [lia|].
      eauto.
    + exists g2, (reap_trace w 0 (backProcs g) ++ tr2)%list. split.
      * rewrite (bind_Ret _ _ _ _ _ _ H1). change (list_fmap _ _ Sigchld ws)
          with (Sigchld <$> ws). rewrite H2. reflexivity.
      * split; [assumption|]. rewrite prints_app, length_app, Hc.
        pose proof (reap_trace_prints w (backProcs g) 0). cbn [g1 with_backProcs backProcs].
        lia.
Qed.

(** C3.  On a job table of [MAX_PROCS] slots: one run of the reaper turns
    every occupied slot whose check reports termination into an empty one,
    printing for it exactly one line -- "terminated by signal" when the
    status captured is neither 0 nor 1, "exit value" otherwise -- and
    freeing its record, marked inactive; it leaves every other slot as it
    was.  A registration fills the first empty slot and touches no other,
    so no slot takes a second job while it holds one.  A history with at
    most as many registrations as there is room for runs to its end; the
    lines printed are as many as the slots emptied; and once every slot has
    been reported terminated in some run of the reaper, all slots are empty
    and one line has been printed per job. *)
Theorem job_table_reaped (g : shell) :
  length (backProcs g) = MAX_PROCS →
  (∀ w sigNum, ∃ g',
     childTerminates w sigNum g = Ret tt g' (reap_trace w 0 (backProcs g))
     ∧ length (backProcs g') = MAX_PROCS
     ∧ (∀ i p, backProcs g !! i = Some (Some p) →
          (0 < fst (w i) →
             backProcs g' !! i = Some None
             ∧ In (Print (done_line (fst (w i)) (snd (w i)))) (reap_trace w 0 (backProcs g))
             ∧ In (Free (mark_inactive p)) (reap_trace w 0 (backProcs g))
             ∧ active (mark_inactive p) = false)
          ∧ (fst (w i) ≤ 0 → backProcs g' !! i = Some (Some p)))
     ∧ (∀ i, backProcs g !! i = Some None → backProcs g' !! i = Some None)
     ∧ (length (prints (reap_trace w 0 (backProcs g))) + occupied (backProcs g')
        = occupied (backProcs g))%nat) ∧
  (∀ pid, (occupied (backProcs g) < MAX_PROCS)%nat →
     ∃ k, saveProcess pid g
          = Ret tt (with_backProcs
                      (<[k := Some {| backPID := pid; active := true |}]> (backProcs g)) g) []
          ∧ backProcs g !! k = Some None
          ∧ (∀ j, (j < k)%nat → ∃ p, backProcs g !! j = Some (Some p))
          ∧ (∀ j, j ≠ k →
               <[k := Some {| backPID := pid; active := true |}]> (backProcs g) !! j
               = backProcs g !! j)) ∧
  (∀ es, (occupied (backProcs g) + spawns es <= MAX_PROCS)%nat →
     ∃ g' tr, run_jobs es g = Ret tt g' tr
              ∧ length (backProcs g') = MAX_PROCS
              ∧ (length (prints tr) + occupied (backProcs g')
                 = occupied (backProcs g) + spawns es)%nat) ∧
  (∀ es ws, (occupied (backProcs g) + spawns es <= MAX_PROCS)%nat →
     (∀ i, (i < MAX_PROCS)%nat → ∃ w, In w ws ∧ 0 < fst (w i)) →
     ∃ g' tr, run_jobs (es ++ (Sigchld <$> ws))%list g = Ret tt g' tr
              ∧ backProcs g' = replicate MAX_PROCS None
              ∧ length (prints tr) = (occupied (backProcs g) + spawns es)%nat).
Proof.
  intros Hlen. split_and!.
  - intros w sigNum. eexists. split; [apply childTerminates_spec; exact Hlen|].
    cbn [with_backProcs backProcs]. split_and!.
    + now rewrite reap_table_length.
    + intros i p Hp. split.
      * intros Hw. destruct (reap_trace_slot w (backProcs g) 0 i p Hp Hw) as (? & ? & ?).
        split_and!; try assumption; try reflexivity.
        rewrite reap_table_lookup, Hp. cbn. unfold reap_slot, reaped.
        apply Z.ltb_lt in Hw. now rewrite Hw.
      * intros Hw. rewrite reap_table_lookup, Hp. cbn. unfold reap_slot, reaped.
        destruct (Z.ltb_spec 0 (fst (w i))); [lia | reflexivity].
    + intros i Hi. rewrite reap_table_lookup, Hi. reflexivity.
    + apply reap_trace_prints.
  - intros pid Hroom. destruct (free_slot_room (backProcs g)) as [k Hk]; [lia|].
    destruct (free_slot_Some _ _ Hk) as [Hnone Hbelow].
    exists k. rewrite saveProcess_spec, Hk by assumption. split_and!; auto.
    intros j Hj. now apply list_lookup_insert_ne.
  - intros es Hroom. now apply run_jobs_spec.
  - intros es ws Hroom Hall.
    destruct (run_jobs_spec es g Hlen Hroom) as (g1 & tr1 & H1 & Hlen1 & Hc1).
    destruct (run_reapers_spec ws g1 Hlen1) as (g2 & tr2 & H2 & HT & Hc2).
    { intros i p Hp. apply Hall. rewrite <- Hlen1. apply lookup_lt_is_Some. eauto. }
    exists g2, (tr1 ++ tr2)%list. split; [|split; [assumption|]].
    + rewrite (run_jobs_app _ _ _ _ _ H1), H2. reflexivity.
    + rewrite prints_app, length_app. lia.
Qed.

(** C3, at a history of three jobs in a fresh shell: a reaper run that
    finds nothing, one that reaps the second job, killed by signal 9, and
    one that reaps the others. *)
Lemma job_table_reaped_witness :
  ∃ g' tr,
    run_jobs ([Spawn 5000; Spawn 5001; Sigchld (λ _, (0, 0)); Spawn 5002]
              ++ (Sigchld <$> [λ i, if (i =? 1)%nat then (5001, 9) else (0, 0);
                               λ i, (Z.of_nat i + 5000, 0)]))%list initial
    = Ret tt g' tr
    ∧ backProcs g' = replicate MAX_PROCS None
    ∧ length (prints tr) = 3%nat.
Proof.
  destruct (job_table_reaped initial eq_refl) as (_ & _ & _ & Hall).
  destruct (Hall [Spawn 5000; Spawn 5001; Sigchld (λ _, (0, 0)); Spawn 5002]
                 [λ i, if (i =? 1)%nat then (5001, 9) else (0, 0);
                  λ i, (Z.of_nat i + 5000, 0)])
    as (g' & tr & Hrun & HT & Hc).
  - vm_compute. lia.
  - intros i _. eexists. split; [right; left; reflexivity|]. simpl. lia.
  - exists g', tr. split_and!; assumption.
Defined.

(** ** The statements above at concrete lines *)

(** C4, at the line "sleep 5 &". *)
Lemma background_only_with_marker_witness :
  ∃ c r, parse 1234 false ("sleep 5 &" ++ newline) = Some (c, r)
         ∧ background c = true
         ∧ In "&" (strtok_all ("sleep 5 &" ++ newline))
         ∧ (∀ k a, args c !! k = Some (Some a) → arg_string r a ≠ "&")
         ∧ getCommand_body 1234 true (start (blank 3)) "&" = Next (start (blank 3)).
Proof.
  destruct (background_only_with_marker 1234 false ("sleep 5 &" ++ newline))
    as (Hparse & _ & _ & Htotal).
  destruct Htotal as [[c r] Hc]; [vm_compute; lia|].
  destruct (Hparse c r Hc) as [Hb Ha].
  assert (Hbg : background c = true).
  { vm_compute in Hc. injection Hc as <- _. reflexivity. }
  exists c, r. split_and!; try assumption.
  - apply (Hb Hbg).
  - apply (background_only_with_marker 1234 true EmptyString); reflexivity.
Defined.

(** C5, at the token "a$$b$$". *)
Lemma expand_first_dollars_witness :
  ∃ pre post,
    "a$$b$$" = (pre ++ "$$" ++ post)%string
    ∧ getCommand_body 1234 false (start (blank 7)) "a$$b$$"
      = Next (incr_i (set_arg (Some Res)
                (set_res (pre ++ sprintf_d 1234 ++ post) (start (blank 7))))).
Proof.
  destruct (expand_first_dollars 1234 false) as [Hstep _].
  destruct (Hstep (start (blank 7)) "a$$b$$") as (pre & post & Hsplit & _ & Hrun);
    [reflexivity | reflexivity | reflexivity | now exists "a", "b$$" | simpl; lia |].
  exists pre, post. split; [exact Hsplit|]. apply Hrun.
  apply (f_equal String.length) in Hsplit.
  rewrite !length_append in *. simpl in *. unfold MAX_LENGTH. lia.
Defined.

(** C7, at the first toggle of a fresh shell. *)
Lemma mode_toggle_witness :
  ∃ g1, disableBackground SIGTSTP initial
        = Ret tt g1 [Print ("Entering foreground-only mode (& is now ignored)" ++ newline)]
        ∧ backgroundDisabled g1 = true
        ∧ ∀ c r, parse 1234 (backgroundDisabled g1) ("ls &" ++ newline) = Some (c, r) →
                 background c = false.
Proof.
  destruct (mode_toggle SIGTSTP initial) as (Hrun & Hflag & Hoff & _).
  exists (toggled initial). split_and!.
  - exact Hrun.
  - exact Hflag.
  - intros c r. apply (Hoff eq_refl).
Defined.

(** C9, at a line of three spaces and at a comment line. *)
Lemma blank_and_comment_lines_witness :
  runShell_body (answers 5000 0) ("   " ++ newline) initial = Ret tt initial []
  ∧ runShell_body (answers 5000 0) ("#ls -la &" ++ newline) initial = Ret tt initial [].
Proof.
  split.
  - apply (blank_and_comment_lines (answers 5000 0) ("   " ++ newline) initial);
      [discriminate | reflexivity].
  - apply (proj2 (blank_and_comment_lines (answers 5000 0) ("#ls -la &" ++ newline) initial)
             "#ls" ["-la"; "&"]); reflexivity.
Defined.

(** ** Further facts about the model *)

(** Every argument expanded from [$$] points at the one array [res]: with
    two such tokens on a line both arguments read the second expansion. *)
Example expanded_arguments_share_res :
  ∃ c r, parse 1234 false ("echo a$$ b$$" ++ newline) = Some (c, r)
         ∧ argv r (args c) = Some ["echo"; "b1234"; "b1234"].
Proof. eexists _, _. split; reflexivity. Qed.

(** A foreground command that exits with code 7, status 7 * 256, is
    followed by "exit value 7". *)
Example status_after_exit_7 :
  ∃ g1 tr1,
    runShell_body (answers 5000 1792) ("false" ++ newline) initial = Ret tt g1 tr1
    ∧ runShell_body (answers 5001 0) ("status" ++ newline) g1
      = Ret tt g1 [Print ("exit value 7" ++ newline)].
Proof.
  let r := eval vm_compute in
      (runShell_body (answers 5000 1792) ("false" ++ newline) initial) in
  lazymatch r with Ret _ ?g ?tr => exists g, tr end.
  split; vm_compute; reflexivity.
Qed.

(** After fifty registrations the table is full, and one more runs off
    its end. *)
Example full_table_overruns :
  ∃ g' tr, run_jobs (Spawn <$> seqZ 1 50) initial = Ret tt g' tr
           ∧ occupied (backProcs g') = MAX_PROCS
           ∧ saveProcess 51 g' = Undefined [].
Proof.
  let r := eval vm_compute in (run_jobs (Spawn <$> seqZ 1 50) initial) in
  lazymatch r with Ret _ ?g ?tr => exists g, tr end.
  split_and!; vm_compute; reflexivity.
Qed.

(** The child of a foreground command with both redirections opens the
    files, moves them onto descriptors 1 and 0, and runs the program. *)
Example child_redirects :
  ∃ g' tr, runCommand (answers 0 0)
             ({| args := [Some (Tok "sort"); None]; inputFile := Some "in.txt";
                 outputFile := Some "out.txt"; background := false |}, EmptyString)
             initial
           = Execed ["sort"] g' tr
           ∧ fds g' !! STDOUT_FILENO = Some (Opened "out.txt" [O_WRONLY; O_TRUNC; O_CREAT])
           ∧ fds g' !! STDIN_FILENO = Some (Opened "in.txt" [O_RDONLY])
           ∧ tr = [Fork 0; Dup2 5 1; Dup2 5 0].
Proof.
  let r := eval vm_compute in
      (runCommand (answers 0 0)
         ({| args := [Some (Tok "sort"); None]; inputFile := Some "in.txt";
             outputFile := Some "out.txt"; background := false |}, EmptyString)
         initial) in
  lazymatch r with Execed _ ?g ?tr => exists g, tr end.
  split_and!; vm_compute; reflexivity.
Qed.

(** * Further properties of the program *)

(** ** Tokens and words *)

Lemma all_chars_app (P : ascii → bool) (s t : string) :
  all_chars P (s ++ t) = all_chars P s && all_chars P t.
Proof.
  induction s as [|c s IH]; [now rewrite append_empty|].
  rewrite append_String. simpl. rewrite IH. apply andb_assoc.
Qed.

Lemma append_assoc (s t u : string) : ((s ++ t) ++ u)%string = (s ++ t ++ u)%string.
Proof.
  induction s as [|c s IH]; [now rewrite !append_empty|].
  rewrite !append_String. now rewrite IH.
Qed.

Lemma word_char_spec (c : ascii) :
  is_word_char c = true → Ascii.eqb c NUL = false ∧ is_delimiter c = false.
Proof.
  unfold is_word_char. intros H. apply andb_true_iff in H as [H1 H2].
  apply negb_true_iff in H1. apply negb_true_iff in H2. auto.
Qed.

(** Scanning the characters of a word extends the token under way. *)
Lemma strtok_from_word (w : string) : ∀ cur rest,
  all_chars is_word_char w = true →
  strtok_from cur (w ++ rest) = strtok_from (cur ++ w) rest.
Proof.
  induction w as [|c w IH]; intros cur rest H.
  - now rewrite append_empty, append_empty_r.
  - simpl in H. apply andb_true_iff in H as [Hc Hw].
    destruct (word_char_spec c Hc) as [Hn Hd].
    rewrite append_String. cbn [strtok_from]. rewrite Hn, Hd.
    rewrite (IH _ _ Hw), append_assoc, append_String, append_empty. reflexivity.
Qed.

Lemma word_spec (w : string) :
  word w = true → w ≠ EmptyString ∧ all_chars is_word_char w = true.
Proof.
  unfold word. intros H. apply andb_true_iff in H as [H1 H2].
  apply negb_true_iff, String.eqb_neq in H1. auto.
Qed.

Lemma yield_word (w : string) (toks : list string) :
  w ≠ EmptyString → yield w toks = w :: toks.
Proof. destruct w; [congruence | reflexivity]. Qed.

(** The tokens of a line of words are the words. *)
Lemma strtok_from_unwords (ws : list string) :
  Forall (λ w, word w = true) ws →
  strtok_from EmptyString (unwords ws ++ newline) = ws.
Proof.
  induction ws as [|w ws IH]; intros H; [reflexivity|].
  inversion H as [|? ? Hw Hws]; subst.
  destruct (word_spec w Hw) as [Hne Hall].
  destruct ws as [|w' ws].
  - cbn [unwords]. rewrite (strtok_from_word w _ _ Hall), append_empty.
    unfold newline. cbn [strtok_from]. cbn. now rewrite yield_word.
  - change (unwords (w :: w' :: ws)) with (w ++ String SPACE (unwords (w' :: ws)))%string.
    rewrite append_assoc, (strtok_from_word w _ _ Hall), append_empty.
    rewrite append_String. cbn [strtok_from].
    change (Ascii.eqb SPACE NUL) with false. change (is_delimiter SPACE) with true.
    cbv iota. rewrite (IH Hws). now rewrite yield_word.
Qed.

(** Every token that [strtok] returns is a word. *)
Lemma strtok_from_words (s : string) : ∀ cur,
  all_chars is_word_char cur = true →
  Forall (λ t, word t = true) (strtok_from cur s).
Proof.
  assert (Hy : ∀ cur toks, all_chars is_word_char cur = true →
             Forall (λ t, word t = true) toks →
             Forall (λ t, word t = true) (yield cur toks)).
  { intros [|c cur] toks Hc Ht; [exact Ht|]. constructor; [|exact Ht].
    unfold word. now rewrite Hc. }
  induction s as [|c s IH]; intros cur Hcur; cbn [strtok_from].
  - apply Hy; [assumption | constructor].
  - destruct (Ascii.eqb c NUL) eqn:Hn; [apply Hy; [assumption | constructor]|].
    destruct (is_delimiter c) eqn:Hd.
    + apply Hy; [assumption | now apply IH].
    + apply IH. rewrite all_chars_app, Hcur. simpl.
      unfold is_word_char. now rewrite Hd, Hn.
Qed.

(** The length of a line of words. *)
Lemma unwords_length (ws : list string) :
  Forall (λ w, word w = true) ws →
  (2 * length ws <= String.length (unwords ws) + 1)%nat.
Proof.
  induction ws as [|w ws IH]; intros H; [simpl; lia|].
  inversion H as [|? ? Hw Hws]; subst. specialize (IH Hws).
  destruct (word_spec w Hw) as [Hne _].
  assert (0 < String.length w)%nat by (destruct w; [congruence | simpl; lia]).
  destruct ws as [|w' ws]; [simpl; lia|].
  change (unwords (w :: w' :: ws)) with (w ++ String SPACE (unwords (w' :: ws)))%string.
  rewrite length_append. cbn [String.length]. cbn [length] in *. lia.
Qed.

Lemma cstr_word (w : string) : all_chars is_word_char w = true → cstr w = w.
Proof.
  induction w as [|c w IH]; intros H; [reflexivity|]. simpl in H.
  apply andb_true_iff in H as [Hc Hw]. destruct (word_char_spec c Hc) as [Hn _].
  simpl. now rewrite Hn, (IH Hw).
Qed.

Lemma unwords_chars (ws : list string) :
  Forall (λ w, word w = true) ws →
  all_chars (λ c, negb (Ascii.eqb c NUL)) (unwords ws) = true.
Proof.
  induction ws as [|w ws IH]; intros H; [reflexivity|].
  inversion H as [|? ? Hw Hws]; subst. specialize (IH Hws).
  destruct (word_spec w Hw) as [_ Hall].
  assert (Hw' : all_chars (λ c, negb (Ascii.eqb c NUL)) w = true).
  { clear -Hall. induction w as [|c w IHw]; [reflexivity|]. simpl in *.
    apply andb_true_iff in Hall as [Hc Hr]. destruct (word_char_spec c Hc) as [-> _].
    simpl. auto. }
  destruct ws as [|w' ws]; [exact Hw'|].
  change (unwords (w :: w' :: ws)) with (w ++ String SPACE (unwords (w' :: ws)))%string.
  rewrite all_chars_app, Hw'. simpl. exact IH.
Qed.

Lemma strlen_no_NUL (s : string) :
  all_chars (λ c, negb (Ascii.eqb c NUL)) s = true → strlen s = String.length s.
Proof.
  induction s as [|c s IH]; intros H; [reflexivity|]. simpl in H.
  apply andb_true_iff in H as [Hc Hs]. apply negb_true_iff in Hc.
  rewrite strlen_String, Hc, (IH Hs). reflexivity.
Qed.

Lemma strlen_unwords (ws : list string) :
  Forall (λ w, word w = true) ws →
  strlen (unwords ws ++ newline) = S (String.length (unwords ws)).
Proof.
  intros H. rewrite strlen_no_NUL.
  - rewrite length_append. simpl. lia.
  - rewrite all_chars_app, (unwords_chars ws H). reflexivity.
Qed.

(** ** The loop of [getCommand], token by token *)

Section LoopPrefix.
Variables (pid : Z) (disabled : bool).
Variable P : list string → pstate → Prop.
Hypothesis step_next : ∀ p st token st',
  P p st → getCommand_body pid disabled st token = Next st' → P (p ++ [token])%list st'.
Hypothesis step_stop : ∀ p st token st',
  P p st → getCommand_body pid disabled st token = Stop st' → P (p ++ [token])%list st'.

(** A property of the tokens seen so far and of the state holds, when
    the loop ends, for the tokens it has gone through. *)
Lemma getCommand_loop_prefix : ∀ tokens p st st',
  P p st → getCommand_loop pid disabled tokens st = Some st' →
  ∃ q rest, tokens = (q ++ rest)%list ∧ P (p ++ q)%list st'.
Proof.
  induction tokens as [|token tokens IH]; intros p st st' HP Hrun; simpl in Hrun.
  - injection Hrun as <-. exists [], []. split; [reflexivity|]. now rewrite app_nil_r.
  - destruct (getCommand_body pid disabled st token) as [st1|st1|] eqn:Hbody;
      [| |discriminate].
    + destruct (IH (p ++ [token])%list st1 st' (step_next _ _ _ _ HP Hbody) Hrun)
        as (q & rest & -> & HP').
      exists (token :: q), rest. split; [reflexivity|].
      now rewrite <- app_assoc in HP'.
    + injection Hrun as <-. exists [token], tokens. split; [reflexivity|].
      exact (step_stop _ _ _ _ HP Hbody).
Qed.
End LoopPrefix.

(** *** The shape of [args] *)

Lemma stored_null (n : nat) (q : list string) :
  (length q < n)%nat → <[length q := None]> (stored n q) = stored n q.
Proof.
  intros H. apply list_insert_id. unfold stored.
  rewrite lookup_app_r by (rewrite length_fmap; lia).
  rewrite length_fmap, Nat.sub_diag. apply lookup_replicate_2. lia.
Qed.

Lemma stored_snoc (n : nat) (q : list string) (token : string) :
  (length q < n)%nat →
  <[length q := entry token]> (stored n q) = stored n (q ++ [token])%list.
Proof.
  intros H. unfold stored.
  replace (n - length q)%nat with (S (n - length (q ++ [token]))) by
    (rewrite length_app; simpl; lia).
  rewrite fmap_app, <- app_assoc. cbn [fmap list_fmap app replicate].
  rewrite insert_app_r_alt by (rewrite length_fmap; lia).
  rewrite length_fmap, Nat.sub_diag. reflexivity.
Qed.

Lemma stored_length (n : nat) (q : list string) :
  (length q <= n)%nat → length (stored n q) = n.
Proof. intros H. unfold stored. rewrite length_app, length_fmap, length_replicate. lia. Qed.

Lemma has_dollars_Some (token : string) (replace : nat) :
  strstr_dollars token = Some replace → has_dollars token = true.
Proof. unfold has_dollars. now intros ->. Qed.

Lemma has_dollars_None (token : string) :
  strstr_dollars token = None → has_dollars token = false.
Proof. unfold has_dollars. now intros ->. Qed.

Lemma last_res_snoc_dollars pid r0 q token :
  has_dollars token = true → last_res pid r0 (q ++ [token])%list = expand_first pid token.
Proof.
  intros H. unfold last_res. rewrite filter_app, filter_cons_True, filter_nil by assumption.
  now rewrite last_snoc.
Qed.

Lemma last_res_snoc_plain pid r0 q token :
  has_dollars token = false → last_res pid r0 (q ++ [token])%list = last_res pid r0 q.
Proof.
  intros H. unfold last_res.
  rewrite filter_app, filter_cons_False, filter_nil, app_nil_r by (rewrite H; discriminate).
  reflexivity.
Qed.

Lemma argument_token_intro (token : string) :
  isComment token = false → String.eqb token "<" = false →
  String.eqb token ">" = false → String.eqb token "&" = false →
  argument_token token = true.
Proof. unfold argument_token. now intros -> -> -> ->. Qed.

Lemma shape_step (pid : Z) (disabled : bool) (n : nat) (r0 : string) p st token st' :
  shape pid n r0 p st →
  getCommand_body pid disabled st token = Next st' ∨
  getCommand_body pid disabled st token = Stop st' →
  shape pid n r0 (p ++ [token])%list st'.
Proof.
  intros (q & Hsub & Harg & Hargs & Hi & Hlen & Hres) H.
  assert (Hkeep : sublist q (p ++ [token])%list) by now apply sublist_inserts_r.
  destruct H as [H|H]; body_cases H;
    try (assert (Hroom : (length q < n)%nat)
          by (match goal with E : (_ <? _)%nat = true |- _ =>
                simpl in E; apply Nat.ltb_lt in E;
                rewrite Hargs, stored_length in E by assumption; lia end));
    repeat match goal with
           | E : strstr_dollars token = Some _ |- _ =>
               pose proof (has_dollars_Some _ _ E); revert E
           | E : strstr_dollars token = None |- _ =>
               pose proof (has_dollars_None _ E); revert E
           | E : expand_pid _ _ _ = Some _ |- _ =>
               apply expand_pid_Some in E as [-> _]
           end; intros;
    lazymatch goal with
    | |- shape _ _ _ _ (incr_i (set_arg (Some _) _)) =>
        exists (q ++ [token])%list; split_and!; simpl;
        [ now apply sublist_app
        | apply Forall_app; split; [assumption|]; constructor; [|constructor];
          now apply argument_token_intro
        | rewrite Hargs, Hi, <- stored_snoc by assumption; unfold entry;
          match goal with E : has_dollars token = _ |- _ => now rewrite E end
        | rewrite Hi, length_app; simpl; lia
        | rewrite length_app; simpl; lia
        | first [ rewrite last_res_snoc_plain by assumption; assumption
                | rewrite last_res_snoc_dollars by assumption; unfold expand_first;
                  match goal with E : strstr_dollars token = Some _ |- _ =>
                    now rewrite E end ] ]
    | |- shape _ _ _ _ (set_arg None _) =>
        exists q; split_and!; simpl; try assumption;
        rewrite Hargs, Hi; now apply stored_null
    | |- _ => exists q; split_and!; simpl; assumption
    end.
Qed.

Lemma shape_weaken pid n r0 p p' st :
  shape pid n r0 p st → shape pid n r0 (p ++ p')%list st.
Proof.
  intros (q & Hsub & H). exists q. split; [now apply sublist_inserts_r | exact H].
Qed.

Lemma shape_start pid n : shape pid n EmptyString [] (start (blank n)).
Proof.
  exists []. split_and!; simpl; try reflexivity; try lia; try constructor.
  unfold stored. simpl. now rewrite Nat.sub_0_r.
Qed.

(** The shape of the state in which the loop ends. *)
Lemma getCommand_loop_shape pid disabled n r0 tokens p st st' :
  shape pid n r0 p st →
  getCommand_loop pid disabled tokens st = Some st' →
  shape pid n r0 (p ++ tokens)%list st'.
Proof.
  intros Hsh Hrun.
  destruct (getCommand_loop_prefix pid disabled (shape pid n r0)) with
    (tokens := tokens) (p := p) (st := st) (st' := st') as (q & rest & -> & H);
    try assumption.
  - intros; eapply shape_step; eauto.
  - intros; eapply shape_step; eauto.
  - rewrite app_assoc. now apply shape_weaken.
Qed.

Lemma scan_loop pid disabled : ∀ tokens st st1,
  scan pid disabled tokens st = Next st1 →
  getCommand_loop pid disabled tokens st = Some st1.
Proof.
  intros tokens st st1 H.
  pose proof (getCommand_loop_app pid disabled tokens [] st st1 H) as E.
  now rewrite app_nil_r in E.
Qed.

(** What a reader of the array finds: the strings of the arguments
    stored, when a null entry is left after them. *)
Lemma argv_stored (r : string) (n : nat) (q : list string) :
  (length q < n)%nat → argv r (stored n q) = Some (reads r <$> q).
Proof.
  intros H. unfold stored.
  destruct (n - length q)%nat as [|m] eqn:E; [lia|]. clear H E.
  induction q as [|t q IH]; [reflexivity|].
  cbn [fmap list_fmap app argv]. fold (list_fmap _ _ entry q). 
  change (list_fmap string (option argptr) entry q) with (entry <$> q).
  rewrite IH. unfold entry, reads, arg_string. destruct (has_dollars t); reflexivity.
Qed.

Lemma argv_stored_full (r : string) (q : list string) :
  argv r (stored (length q) q) = None.
Proof.
  unfold stored. rewrite Nat.sub_diag. simpl. rewrite app_nil_r.
  induction q as [|t q IH]; [reflexivity|].
  cbn [fmap list_fmap argv]. change (list_fmap string (option argptr) entry q) with (entry <$> q).
  now rewrite IH.
Qed.

(** The parse of a line, as a selection of its tokens. *)
Lemma parse_shape pid disabled buffer c r :
  parse pid disabled buffer = Some (c, r) →
  ∃ q, sublist q (strtok_all buffer)
       ∧ Forall (λ t, argument_token t = true) q
       ∧ args c = stored (strlen buffer) q
       ∧ (length q <= strlen buffer)%nat
       ∧ (2 * length q <= strlen buffer + 1)%nat
       ∧ r = last_res pid EmptyString q.
Proof.
  unfold parse, getCommand. intros H.
  destruct (getCommand_loop pid disabled (strtok_all buffer)
              (start (blank (strlen buffer)))) as [st|] eqn:Hrun; [|discriminate].
  injection H as <- <-.
  destruct (getCommand_loop_shape pid disabled (strlen buffer) EmptyString
              (strtok_all buffer) [] _ st (shape_start pid _) Hrun)
    as (q & Hsub & Harg & Hargs & Hi & Hlen & Hres).
  exists q. split_and!; try assumption.
  apply sublist_length in Hsub. pose proof (strtok_all_count buffer). simpl in Hsub. lia.
Qed.

(** *** Lines of plain words *)

Lemma plain_spec (token : string) :
  plain token = true →
  isComment token = false ∧ String.eqb token "<" = false ∧
  String.eqb token ">" = false ∧ String.eqb token "&" = false ∧
  strstr_dollars token = None.
Proof.
  unfold plain, argument_token, has_dollars. intros H.
  repeat (apply andb_true_iff in H as [H ?]).
  repeat match goal with E : negb _ = true |- _ => apply negb_true_iff in E end.
  destruct (strstr_dollars token); [discriminate|]. auto.
Qed.

Lemma plain_entry (token : string) : plain token = true → entry token = Some (Tok token).
Proof.
  intros H. unfold plain in H. apply andb_true_iff in H as [_ H].
  apply negb_true_iff in H. unfold entry. now rewrite H.
Qed.

(** With no path pending, plain tokens are stored one after the other
    and nothing else changes. *)
Lemma getCommand_loop_plain pid disabled n : ∀ tokens q st,
  Forall (λ t, plain t = true) tokens →
  outRedirect st = false → inRedirect st = false →
  args (cmd st) = stored n q → i st = length q →
  (length q + length tokens <= n)%nat →
  getCommand_loop pid disabled tokens st
  = Some {| cmd := {| args := stored n (q ++ tokens);
                      inputFile := inputFile (cmd st);
                      outputFile := outputFile (cmd st);
                      background := background (cmd st) |};
            i := length (q ++ tokens); res := res st;
            outRedirect := false; inRedirect := false |}.
Proof.
  induction tokens as [|token tokens IH]; intros q st Hplain Hout Hin Hargs Hi Hroom.
  - rewrite app_nil_r. cbn [getCommand_loop]. rewrite <- Hargs, <- Hi, <- Hout at 1.
    rewrite <- Hin at 1. destruct st as [[] ? ? ? ?]. reflexivity.
  - inversion Hplain as [|? ? Ht Hts]; subst.
    destruct (plain_spec token Ht) as (Hc & H1 & H2 & H3 & Hd).
    cbn [length] in Hroom.
    assert (Hlt : (i st <? length (args (cmd st)))%nat = true).
    { apply Nat.ltb_lt. rewrite Hargs, stored_length, Hi by lia. lia. }
    cbn [getCommand_loop]. unfold getCommand_body, store_arg.
    rewrite Hout, Hin, Hc, H1, H2, H3, Hd, Hlt.
    rewrite (IH (q ++ [token])%list); try assumption; simpl.
    + now rewrite <- !app_assoc.
    + rewrite Hargs, Hi, <- stored_snoc by lia. now rewrite plain_entry.
    + rewrite Hi, length_app. simpl. lia.
    + rewrite length_app. simpl. lia.
Qed.

Lemma reads_plain (r : string) (ws : list string) :
  Forall (λ t, plain t = true) ws → reads r <$> ws = ws.
Proof.
  induction 1 as [|t ws Ht _ IH]; [reflexivity|].
  cbn [fmap list_fmap]. change (list_fmap string string (reads r) ws) with (reads r <$> ws).
  rewrite IH. unfold reads. unfold plain in Ht. apply andb_true_iff in Ht as [_ Ht].
  apply negb_true_iff in Ht. now rewrite Ht.
Qed.

(** *** Where the paths come from *)

Lemma follows_snoc (op f token : string) (p : list string) :
  follows op f p → follows op f (p ++ [token])%list.
Proof.
  intros (a & b & ->). exists a, (b ++ [token])%list. now rewrite <- app_assoc.
Qed.

Lemma follows_last (op token : string) (p : list string) :
  last p = Some op → follows op token (p ++ [token])%list.
Proof.
  intros H. destruct (last_Some p op) as [[a ->] _]; [assumption|].
  exists a, []. now rewrite <- app_assoc.
Qed.

Lemma redirects_from_step pid disabled p st token st' :
  redirects_from p st →
  getCommand_body pid disabled st token = Next st' ∨
  getCommand_body pid disabled st token = Stop st' →
  redirects_from (p ++ [token])%list st'.
Proof.
  intros (Hout & Hin & Ho & Hi) H.
  assert (Ho' : ∀ f, outputFile (cmd st) = Some f → follows ">" f (p ++ [token])%list)
    by (intros; now apply follows_snoc, Ho).
  assert (Hi' : ∀ f, inputFile (cmd st) = Some f → follows "<" f (p ++ [token])%list)
    by (intros; now apply follows_snoc, Hi).
  destruct H as [H|H]; body_cases H;
    repeat match goal with
           | E : String.eqb token _ = true |- _ => apply String.eqb_eq in E; subst token
           | Hf : true = true → _ |- _ => destruct (Hf eq_refl) as [? ?]; clear Hf
           end;
    (split_and!; simpl;
     [ intros; first [discriminate | congruence | split; [assumption | apply last_snoc]]
     | intros; first [discriminate | congruence | split; [assumption | apply last_snoc]]
     | first [ assumption
             | intros f [= <-]; now apply follows_last ]
     | first [ assumption
             | intros f [= <-]; now apply follows_last ] ]).
Qed.

Lemma redirects_from_start n : redirects_from [] (start (blank n)).
Proof. split_and!; simpl; intros; discriminate. Qed.

Lemma follows_app (op f : string) (p rest : list string) :
  follows op f p → follows op f (p ++ rest)%list.
Proof.
  intros (a & b & ->). exists a, (b ++ rest)%list. now rewrite <- app_assoc.
Qed.

Lemma follows_In (op f : string) (p : list string) : follows op f p → In op p.
Proof. intros (a & b & ->). apply in_or_app. right. now left. Qed.

(** *** Writes outside the arrays *)

(** With room left in [args], the loop faults only at a token whose
    expansion does not fit [res]. *)
Lemma getCommand_loop_fault pid disabled : ∀ tokens st,
  (2 * (i st + length tokens) <= length (args (cmd st)) + 1)%nat →
  getCommand_loop pid disabled tokens st = None →
  ∃ t replace, In t tokens ∧ strstr_dollars t = Some replace
               ∧ expand_pid pid t replace = None.
Proof.
  induction tokens as [|token rest IH]; intros st Hroom H; [discriminate|].
  cbn [getCommand_loop] in H. cbn [length] in Hroom.
  destruct (getCommand_body pid disabled st token) as [st1|st1|] eqn:Hbody.
  - destruct (getCommand_body_args_length pid disabled st token st1) as (E & Hi & _);
      [now left|].
    destruct (IH st1) as (t & replace & Hin & Ht); [rewrite E; lia | exact H |].
    exists t, replace. split; [now right | exact Ht].
  - discriminate.
  - unfold getCommand_body, store_arg in Hbody.
    assert (Hlt : (i st <? length (args (cmd st)))%nat = true)
      by (apply Nat.ltb_lt; lia).
    rewrite Hlt in Hbody.
    destruct (strstr_dollars token) as [replace|] eqn:Hfind.
    + destruct (expand_pid pid token replace) as [r|] eqn:Hr.
      * simpl in Hbody. rewrite Hlt in Hbody.
        repeat match type of Hbody with
               | context [if ?b then _ else _] => destruct b
               end; discriminate.
      * exists token, replace. split_and!; [now left | assumption | assumption].
    + repeat match type of Hbody with
             | context [if ?b then _ else _] => destruct b
             end; discriminate.
Qed.

Lemma expand_pid_None (pid : Z) (token : string) (replace : nat) :
  strstr_dollars token = Some replace →
  expand_pid pid token replace = None →
  (MAX_LENGTH <= String.length (expand_first pid token))%nat.
Proof.
  intros Hfind H. unfold expand_first. rewrite Hfind. unfold expand_pid in H.
  match type of H with context [if ?b then _ else _] => destruct b eqn:E end;
    [discriminate|].
  now apply Nat.ltb_ge in E.
Qed.

(** ** The parser *)

(** X1.  The tokens of a line are words -- non-empty, free of space,
    newline and NUL -- and a line made of words with one space between
    neighbours and a newline at its end has exactly these words as its
    tokens, in order. *)
Theorem tokens_are_the_words (line : string) (ws : list string) :
  Forall (λ t, word t = true) (strtok_all line) ∧
  (Forall (λ w, word w = true) ws → strtok_all (unwords ws ++ newline) = ws).
Proof.
  split.
  - apply (strtok_from_words line EmptyString). reflexivity.
  - apply strtok_from_unwords.
Qed.

(** X2.  A line of plain words -- none of them an operator, a comment or
    a word with [$$] -- is parsed into exactly these words as arguments,
    in order and null-terminated, with no redirection and in the
    foreground, whatever the mode and the pid. *)
Theorem line_of_plain_words (pid : Z) (disabled : bool) (ws : list string) :
  Forall (λ w, word w = true) ws → Forall (λ w, plain w = true) ws →
  ∃ c, parse pid disabled (unwords ws ++ newline) = Some (c, EmptyString)
       ∧ args c = stored (strlen (unwords ws ++ newline)) ws
       ∧ argv EmptyString (args c) = Some ws
       ∧ inputFile c = None ∧ outputFile c = None ∧ background c = false.
Proof.
  intros Hw Hp. pose proof (unwords_length ws Hw) as Hlen.
  unfold parse, getCommand. unfold strtok_all.
  rewrite (strtok_from_unwords ws Hw), (strlen_unwords ws Hw).
  rewrite (getCommand_loop_plain pid disabled (S (String.length (unwords ws))) ws []);
    try assumption; try reflexivity.
  - eexists. split; [reflexivity|]. cbn [cmd args inputFile outputFile background app].
    split_and!; try reflexivity.
    rewrite argv_stored, (reads_plain _ _ Hp); [reflexivity|].
    destruct ws; simpl in *; lia.
  - simpl. lia.
Qed.

(** X3.  The arguments of a parsed command are tokens of the line, in the
    order of the line, none of them an operator or a comment; the array
    holds one entry for each and null entries after them; and every
    argument that came from a token with [$$] reads the one array [res],
    which holds the expansion of the last such token. *)
Theorem arguments_are_tokens_in_order
    (pid : Z) (disabled : bool) (buffer : string) (c : command) (r : string) :
  parse pid disabled buffer = Some (c, r) →
  ∃ q, sublist q (strtok_all buffer)
       ∧ Forall (λ t, argument_token t = true) q
       ∧ args c = stored (strlen buffer) q
       ∧ r = last_res pid EmptyString q
       ∧ ((2 <= strlen buffer)%nat → argv r (args c) = Some (reads r <$> q)).
Proof.
  intros H. destruct (parse_shape _ _ _ _ _ H) as (q & Hsub & Harg & Hargs & Hle & Hcount & Hres).
  exists q. split_and!; try assumption.
  intros Hn. rewrite Hargs. apply argv_stored. lia.
Qed.

(** X4.  When the scan comes to a token that begins with [#] while no
    path is pending, the parse ends there: the command is the one the
    tokens before it have produced, and nothing after it is looked at. *)
Theorem comment_ends_the_parse
    (pid : Z) (disabled : bool) (buffer : string)
    (before after : list string) (token : string) (st1 : pstate) :
  strtok_all buffer = (before ++ token :: after)%list →
  isComment token = true →
  scan pid disabled before (start (blank (strlen buffer))) = Next st1 →
  outRedirect st1 = false → inRedirect st1 = false →
  parse pid disabled buffer = Some (cmd st1, res st1).
Proof.
  intros Htoks Hc Hscan Hout Hin. unfold parse, getCommand. rewrite Htoks.
  rewrite (getCommand_loop_app _ _ _ _ _ _ Hscan).
  destruct (getCommand_loop_shape pid disabled (strlen buffer) EmptyString before []
              _ st1 (shape_start pid _) (scan_loop _ _ _ _ _ Hscan))
    as (q & Hsub & _ & Hargs & Hi & _ & _).
  assert (Hroom : (length q < strlen buffer)%nat).
  { apply sublist_length in Hsub. simpl in Hsub.
    pose proof (strtok_all_count buffer) as Hn. rewrite Htoks, length_app in Hn.
    simpl in Hn. lia. }
  cbn [getCommand_loop]. unfold getCommand_body. rewrite Hout, Hin, Hc.
  replace (i st1 <? length (args (cmd st1)))%nat with true
    by (symmetry; apply Nat.ltb_lt; rewrite Hargs, stored_length, Hi; lia).
  assert (E : set_arg None st1 = st1).
  { unfold set_arg.
    replace (<[i st1 := None]> (args (cmd st1))) with (args (cmd st1))
      by (rewrite Hargs, Hi; symmetry; now apply stored_null).
    clear. destruct st1 as [[] ? ? ? ?]. reflexivity. }
  now rewrite E.
Qed.

(** X5.  A path is recorded only for a token that comes right after its
    operator on the line: the output file of a parsed command is a token
    that immediately follows a token [>], the input file one that
    immediately follows a token [<]; a line without a token [>] (resp.
    [<]) gives no output (resp. input) file. *)
Theorem paths_follow_operators
    (pid : Z) (disabled : bool) (buffer : string) (c : command) (r : string) :
  parse pid disabled buffer = Some (c, r) →
  (∀ f, outputFile c = Some f → follows ">" f (strtok_all buffer)) ∧
  (∀ f, inputFile c = Some f → follows "<" f (strtok_all buffer)) ∧
  (¬ In ">" (strtok_all buffer) → outputFile c = None) ∧
  (¬ In "<" (strtok_all buffer) → inputFile c = None).
Proof.
  unfold parse, getCommand. intros H.
  destruct (getCommand_loop pid disabled (strtok_all buffer)
              (start (blank (strlen buffer)))) as [st|] eqn:Hrun; [|discriminate].
  injection H as <- <-.
  destruct (getCommand_loop_prefix pid disabled redirects_from) with
    (tokens := strtok_all buffer) (p := @nil string)
    (st := start (blank (strlen buffer))) (st' := st)
    as (q & rest & E & (_ & _ & Ho & Hi)).
  - intros; eapply redirects_from_step; eauto.
  - intros; eapply redirects_from_step; eauto.
  - apply redirects_from_start.
  - exact Hrun.
  - simpl in Ho, Hi. rewrite E.
    assert (Ho' : ∀ f, outputFile (cmd st) = Some f → follows ">" f (q ++ rest)%list)
      by (intros; now apply follows_app, Ho).
    assert (Hi' : ∀ f, inputFile (cmd st) = Some f → follows "<" f (q ++ rest)%list)
      by (intros; now apply follows_app, Hi).
    split_and!; try assumption.
    + intros Hno. destruct (outputFile (cmd st)) as [f|] eqn:Ef; [|reflexivity].
      exfalso. apply Hno. eapply follows_In. now apply Ho'.
    + intros Hno. destruct (inputFile (cmd st)) as [f|] eqn:Ef; [|reflexivity].
      exfalso. apply Hno. eapply follows_In. now apply Hi'.
Qed.

(** X6.  The array that [runShell] allocates for [args] is large enough
    for every line: the parse writes outside an array only when the
    expansion of a token with [$$] does not fit the 2048 characters of
    [res].  The array of a parsed command has as many entries as the line
    has characters; for a line of two characters or more a null entry is
    left after the arguments, so that a reader of the vector stops inside
    the array; for a line of a single character that is an argument, none
    is. *)
Theorem parse_faults_only_on_overflow (pid : Z) (disabled : bool) (buffer : string) :
  (parse pid disabled buffer = None →
   ∃ t, In t (strtok_all buffer) ∧ has_dollars t = true
        ∧ (MAX_LENGTH <= String.length (expand_first pid t))%nat) ∧
  (∀ c r, parse pid disabled buffer = Some (c, r) →
     length (args c) = strlen buffer ∧
     ((2 <= strlen buffer)%nat →
      ∃ l, argv r (args c) = Some l ∧ (2 * length l <= strlen buffer + 1)%nat) ∧
     (∀ a, (strlen buffer <= 1)%nat → args c !! 0%nat = Some (Some a) →
           argv r (args c) = None)).
Proof.
  split.
  - unfold parse, getCommand. intros H.
    destruct (getCommand_loop pid disabled (strtok_all buffer)
                (start (blank (strlen buffer)))) as [st|] eqn:Hrun; [discriminate|].
    destruct (getCommand_loop_fault pid disabled (strtok_all buffer)
                (start (blank (strlen buffer))))
      as (t & replace & Hin & Hfind & Hnone); [|exact Hrun|].
    + cbn [start blank cmd args i]. rewrite length_replicate.
      pose proof (strtok_all_count buffer). lia.
    + exists t. split_and!; [assumption | now apply has_dollars_Some in Hfind |].
      eapply expand_pid_None; eassumption.
  - intros c r H.
    destruct (parse_shape _ _ _ _ _ H) as (q & Hsub & Harg & Hargs & Hle & Hcount & Hres).
    split_and!.
    + rewrite Hargs. now apply stored_length.
    + intros Hn. exists (reads r <$> q). rewrite Hargs, length_fmap.
      split; [apply argv_stored; lia | assumption].
    + intros a Hn Ha. rewrite Hargs in Ha |- *.
      destruct q as [|t q].
      * unfold stored in Ha. simpl in Ha.
        apply lookup_replicate in Ha as [Ha _]. discriminate.
      * simpl in Hle. assert (q = []) by (destruct q; [reflexivity | simpl in Hle; lia]).
        subst q. replace (strlen buffer) with (length [t]) by (simpl in *; lia).
        apply argv_stored_full.
Qed.

(** *** Pending paths *)

(** The two flags are never up together. *)
Lemma getCommand_body_one_pending pid disabled st token st' :
  outRedirect st && inRedirect st = false →
  getCommand_body pid disabled st token = Next st' →
  outRedirect st' && inRedirect st' = false.
Proof.
  unfold getCommand_body, store_arg.
  destruct (outRedirect st) eqn:Ho, (inRedirect st) eqn:Hi; cbn [andb]; intros Hinv H;
    try discriminate Hinv.
  - injection H as <-. cbn [set_outputFile outRedirect]. reflexivity.
  - injection H as <-. cbn [set_inputFile outRedirect inRedirect]. now rewrite Ho.
  - repeat match type of H with
           | context [if ?b then _ else _] => destruct b
           | context [match ?x with _ => _ end] => destruct x
           end;
      try discriminate H; injection H as <-;
      cbn [set_inRedirect set_outRedirect set_background incr_i set_arg set_res
           outRedirect inRedirect];
      rewrite ?Ho, ?Hi; reflexivity.
Qed.

Lemma scan_one_pending pid disabled : ∀ tokens st st',
  outRedirect st && inRedirect st = false →
  scan pid disabled tokens st = Next st' →
  outRedirect st' && inRedirect st' = false.
Proof.
  induction tokens as [|token tokens IH]; intros st st' Hinv H; cbn [scan] in H.
  - now injection H as <-.
  - destruct (getCommand_body pid disabled st token) as [st1| |] eqn:Hbody;
      try discriminate H.
    exact (IH st1 st' (getCommand_body_one_pending _ _ _ _ _ Hinv Hbody) H).
Qed.

(** With no path pending, the scan stores plain tokens one after the
    other, changes nothing else and goes on. *)
Lemma scan_plain pid disabled n : ∀ tokens q st,
  Forall (λ t, plain t = true) tokens →
  outRedirect st = false → inRedirect st = false →
  args (cmd st) = stored n q → i st = length q →
  (length q + length tokens <= n)%nat →
  scan pid disabled tokens st
  = Next {| cmd := {| args := stored n (q ++ tokens);
                      inputFile := inputFile (cmd st);
                      outputFile := outputFile (cmd st);
                      background := background (cmd st) |};
            i := length (q ++ tokens); res := res st;
            outRedirect := false; inRedirect := false |}.
Proof.
  induction tokens as [|token tokens IH]; intros q st Hplain Hout Hin Hargs Hi Hroom.
  - rewrite app_nil_r. cbn [scan]. rewrite <- Hargs, <- Hi, <- Hout at 1.
    rewrite <- Hin at 1. destruct st as [[] ? ? ? ?]. reflexivity.
  - inversion Hplain as [|? ? Ht Hts]; subst.
    destruct (plain_spec token Ht) as (Hc & H1 & H2 & H3 & Hd).
    cbn [length] in Hroom.
    assert (Hlt : (i st <? length (args (cmd st)))%nat = true).
    { apply Nat.ltb_lt. rewrite Hargs, stored_length, Hi by lia. lia. }
    cbn [scan]. unfold getCommand_body, store_arg.
    rewrite Hout, Hin, Hc, H1, H2, H3, Hd, Hlt.
    rewrite (IH (q ++ [token])%list); try assumption; simpl.
    + now rewrite <- !app_assoc.
    + rewrite Hargs, Hi, <- stored_snoc by lia. now rewrite plain_entry.
    + rewrite Hi, length_app. simpl. lia.
    + rewrite length_app. simpl. lia.
Qed.

(** An operator met with no path pending, and the token after it. *)
Lemma getCommand_loop_operator pid disabled st token :
  outRedirect st = false → inRedirect st = false →
  scan pid disabled ["<"; token] st = Next (with_input_path token st)
  ∧ scan pid disabled [">"; token] st = Next (with_output_path token st).
Proof.
  intros Hout Hin. split; cbn [scan].
  - assert (E : getCommand_body pid disabled st "<" = Next (set_inRedirect st)).
    { unfold getCommand_body. now rewrite Hout, Hin. }
    rewrite E. unfold getCommand_body. cbn [set_inRedirect outRedirect inRedirect].
    rewrite Hout. unfold with_input_path, set_inputFile. cbn. now rewrite Hout.
  - assert (E : getCommand_body pid disabled st ">" = Next (set_outRedirect st)).
    { unfold getCommand_body. now rewrite Hout, Hin. }
    rewrite E. unfold getCommand_body. cbn [set_outRedirect outRedirect inRedirect].
    unfold with_output_path, set_outputFile. cbn. now rewrite Hin.
Qed.

(** C10 (as amended).  A token met while a path is expected is taken as
    that path, whatever it is -- [<], [>], [&], a token beginning with [#]
    or one holding [$$] --, before it is classified in any other way; with
    both expectations up the output path is served first and the input
    path by the token after it, though in a parse the two are never up
    together.  So a token [<] (resp. [>]) that the loop reaches with no
    path pending, before any comment, makes the token after it the input
    (resp. output) path: the loop records it, leaves arguments, background
    flag, [res] and the other path as they were, and goes on with the
    token after it.  On a line of plain words with one such operator the
    parse yields the token after the operator as the path and all the
    other words as the arguments, in the foreground. *)
Theorem pending_path_first (pid : Z) (disabled : bool) (token : string) :
  (∀ st, outRedirect st = true →
     getCommand_body pid disabled st token = Next (set_outputFile token st)) ∧
  (∀ st, outRedirect st = false → inRedirect st = true →
     getCommand_body pid disabled st token = Next (set_inputFile token st)) ∧
  (∀ st token', outRedirect st = true → inRedirect st = true →
     getCommand_loop pid disabled [token; token'] st
     = Some (set_inputFile token' (set_outputFile token st))) ∧
  (∀ n before st, scan pid disabled before (start (blank n)) = Next st →
     outRedirect st && inRedirect st = false) ∧
  (∀ before st0 st,
     scan pid disabled before st0 = Next st →
     outRedirect st = false → inRedirect st = false →
     getCommand_loop pid disabled (before ++ ["<"; token])%list st0
     = Some (with_input_path token st)
     ∧ getCommand_loop pid disabled (before ++ [">"; token])%list st0
       = Some (with_output_path token st)
     ∧ ∀ after,
         getCommand_loop pid disabled (before ++ "<" :: token :: after)%list st0
         = getCommand_loop pid disabled after (with_input_path token st)
         ∧ getCommand_loop pid disabled (before ++ ">" :: token :: after)%list st0
           = getCommand_loop pid disabled after (with_output_path token st)) ∧
  (∀ ws ws',
     word token = true →
     Forall (λ w, word w = true) ws → Forall (λ w, plain w = true) ws →
     Forall (λ w, word w = true) ws' → Forall (λ w, plain w = true) ws' →
     (∃ c, parse pid disabled (unwords (ws ++ "<" :: token :: ws') ++ newline)
           = Some (c, EmptyString)
           ∧ inputFile c = Some token ∧ outputFile c = None
           ∧ background c = false
           ∧ argv EmptyString (args c) = Some (ws ++ ws')%list)
     ∧ (∃ c, parse pid disabled (unwords (ws ++ ">" :: token :: ws') ++ newline)
             = Some (c, EmptyString)
             ∧ outputFile c = Some token ∧ inputFile c = None
             ∧ background c = false
             ∧ argv EmptyString (args c) = Some (ws ++ ws')%list)).
Proof.
  assert (Hserve_out : ∀ s t, outRedirect s = true →
            getCommand_body pid disabled s t = Next (set_outputFile t s)).
  { intros s t Hout. unfold getCommand_body. now rewrite Hout. }
  assert (Hserve_in : ∀ s t, outRedirect s = false → inRedirect s = true →
            getCommand_body pid disabled s t = Next (set_inputFile t s)).
  { intros s t Hout Hin. unfold getCommand_body. now rewrite Hout, Hin. }
  assert (Hop : ∀ before op st0 st1 st2 after,
            scan pid disabled before st0 = Next st1 →
            scan pid disabled [op; token] st1 = Next st2 →
            getCommand_loop pid disabled (before ++ op :: token :: after)%list st0
            = getCommand_loop pid disabled after st2).
  { intros before op st0 st1 st2 after H1 H2.
    rewrite (getCommand_loop_app _ _ _ _ _ _ H1).
    exact (getCommand_loop_app pid disabled [op; token] after st1 st2 H2). }
  split_and!.
  - intros st. apply Hserve_out.
  - intros st. apply Hserve_in.
  - intros st token' Hout Hin. cbn [getCommand_loop].
    rewrite (Hserve_out st token Hout), Hserve_in; [reflexivity | reflexivity | exact Hin].
  - intros n before st. apply scan_one_pending. reflexivity.
  - intros before st0 st Hscan Hout Hin.
    destruct (getCommand_loop_operator pid disabled st token Hout Hin) as [Ei Eo].
    split_and!.
    + exact (Hop before "<" st0 st _ [] Hscan Ei).
    + exact (Hop before ">" st0 st _ [] Hscan Eo).
    + intros after. split; [exact (Hop _ _ _ _ _ after Hscan Ei)
                           | exact (Hop _ _ _ _ _ after Hscan Eo)].
  - intros ws ws' Htoken Hw Hp Hw' Hp'.
    assert (Hlen : ∀ op, word op = true →
              Forall (λ w, word w = true) (ws ++ op :: token :: ws')
              ∧ (length ws + length ws' < String.length (unwords (ws ++ op :: token :: ws')))%nat).
    { intros op Hwop.
      assert (Hall : Forall (λ w, word w = true) (ws ++ op :: token :: ws')).
      { apply Forall_app. split; [assumption|]. repeat constructor; assumption. }
      split; [exact Hall|]. pose proof (unwords_length _ Hall) as Hlen.
      rewrite length_app in Hlen. cbn [length] in Hlen. lia. }
    assert (Hscan : ∀ n, (length ws <= n)%nat →
              scan pid disabled ws (start (blank n))
              = Next {| cmd := {| args := stored n ws; inputFile := None;
                                  outputFile := None; background := false |};
                        i := length ws; res := EmptyString;
                        outRedirect := false; inRedirect := false |}).
    { intros n Hn.
      apply (scan_plain pid disabled n ws [] (start (blank n)) Hp);
        try reflexivity; [|simpl; lia].
      unfold stored. cbn. now rewrite Nat.sub_0_r. }
    split.
    + destruct (Hlen "<" eq_refl) as [Hall Hroom].
      unfold parse, getCommand, strtok_all.
      rewrite (strtok_from_unwords _ Hall), (strlen_unwords _ Hall).
      assert (Hn : (length ws <= S (String.length (unwords (ws ++ "<" :: token :: ws'))))%nat)
        by lia.
      pose proof (Hscan _ Hn) as Hs.
      match type of Hs with
      | _ = Next ?s =>
          destruct (getCommand_loop_operator pid disabled s token eq_refl eq_refl)
            as [Ei Eo]
      end.
      rewrite (Hop ws "<" _ _ _ ws' Hs Ei).
      rewrite (getCommand_loop_plain pid disabled
                 (S (String.length (unwords (ws ++ "<" :: token :: ws')))) ws' ws);
        [ | assumption | reflexivity | reflexivity | reflexivity | reflexivity | lia ].
      eexists. split; [reflexivity|].
      cbn [cmd args inputFile outputFile background with_input_path].
      split_and!; try reflexivity.
      rewrite argv_stored by (rewrite length_app; lia).
      rewrite reads_plain; [reflexivity|]. apply Forall_app. now split.
    + destruct (Hlen ">" eq_refl) as [Hall Hroom].
      unfold parse, getCommand, strtok_all.
      rewrite (strtok_from_unwords _ Hall), (strlen_unwords _ Hall).
      assert (Hn : (length ws <= S (String.length (unwords (ws ++ ">" :: token :: ws'))))%nat)
        by lia.
      pose proof (Hscan _ Hn) as Hs.
      match type of Hs with
      | _ = Next ?s =>
          destruct (getCommand_loop_operator pid disabled s token eq_refl eq_refl)
            as [Ei Eo]
      end.
      rewrite (Hop ws ">" _ _ _ ws' Hs Eo).
      rewrite (getCommand_loop_plain pid disabled
                 (S (String.length (unwords (ws ++ ">" :: token :: ws')))) ws' ws);
        [ | assumption | reflexivity | reflexivity | reflexivity | reflexivity | lia ].
      eexists. split; [reflexivity|].
      cbn [cmd args inputFile outputFile background with_output_path].
      split_and!; try reflexivity.
      rewrite argv_stored by (rewrite length_app; lia).
      rewrite reads_plain; [reflexivity|]. apply Forall_app. now split.
Qed.

(** C10, the claim as stated, refuted: on the line "> < x" the token [<]
    is taken as the output path, so the token "x", which comes right
    after a token [<], is stored as an argument and no input path is
    recorded. *)
Lemma token_after_path_is_argument :
  strtok_all ("> < x" ++ newline) = [">"; "<"; "x"]
  ∧ ∃ c r, parse 1234 false ("> < x" ++ newline) = Some (c, r)
           ∧ outputFile c = Some "<" ∧ inputFile c = None
           ∧ argv r (args c) = Some ["x"].
Proof. split; [reflexivity|]. eexists _, _. repeat split; reflexivity. Qed.

(** C10, at a token "#x" met while an input path is expected, at the two
    tokens after a state with both expectations up, and at the lines
    "cat < & -n" and "sort > #out -r". *)
Lemma pending_path_first_witness :
  getCommand_body 1234 false (set_inRedirect (start (blank 9))) "#x"
  = Next (set_inputFile "#x" (set_inRedirect (start (blank 9))))
  ∧ getCommand_loop 1234 false ["<"; ">"]
      (set_inRedirect (set_outRedirect (start (blank 9))))
    = Some (set_inputFile ">"
              (set_outputFile "<" (set_inRedirect (set_outRedirect (start (blank 9))))))
  ∧ (∃ c, parse 1234 false ("cat < & -n" ++ newline) = Some (c, EmptyString)
          ∧ inputFile c = Some "&" ∧ outputFile c = None ∧ background c = false
          ∧ argv EmptyString (args c) = Some ["cat"; "-n"])
  ∧ (∃ c, parse 1234 false ("sort > #out -r" ++ newline) = Some (c, EmptyString)
          ∧ outputFile c = Some "#out" ∧ inputFile c = None ∧ background c = false
          ∧ argv EmptyString (args c) = Some ["sort"; "-r"]).
Proof.
  split_and!.
  - apply (pending_path_first 1234 false "#x"); reflexivity.
  - apply (pending_path_first 1234 false "<"); reflexivity.
  - destruct (pending_path_first 1234 false "&") as (_ & _ & _ & _ & _ & Hline).
    destruct (Hline ["cat"] ["-n"]) as [Hin _];
      [reflexivity | repeat constructor .. | exact Hin].
  - destruct (pending_path_first 1234 false "#out") as (_ & _ & _ & _ & _ & Hline).
    destruct (Hline ["sort"] ["-r"]) as [_ Hout];
      [reflexivity | repeat constructor .. | exact Hout].
Defined.

(** ** The monad, read backwards *)

Lemma bind_Ret_inv {A B} (m : M A) (k : A → M B) g b g' tr :
  (m ≫= k) g = Ret b g' tr →
  ∃ a g1 tr1 tr2, m g = Ret a g1 tr1 ∧ k a g1 = Ret b g' tr2 ∧ tr = (tr1 ++ tr2)%list.
Proof.
  unfold mbind, M_bind, bind. destruct (m g) as [a g1 tr1| | |]; try discriminate.
  intros H. apply prepend_Ret_inv in H as (tr2 & H & ->). eauto 8.
Qed.

Lemma bind_Exited {A B} (m : M A) (k : A → M B) g code g1 tr1 :
  m g = Exited code g1 tr1 → (m ≫= k) g = Exited code g1 tr1.
Proof. unfold mbind, M_bind, bind. now intros ->. Qed.

Lemma defined_prepend {A} (tr : list event) (r : outcome A) :
  defined r → defined (prepend tr r).
Proof. destruct r; simpl; auto. Qed.

Lemma defined_bind {A B} (m : M A) (k : A → M B) g :
  defined (m g) →
  (∀ a g1 tr1, m g = Ret a g1 tr1 → defined (k a g1)) →
  defined ((m ≫= k) g).
Proof.
  unfold mbind, M_bind, bind. intros Hm Hk.
  destruct (m g) as [a g1 tr1| | |]; simpl in *; auto.
  apply defined_prepend. eauto.
Qed.

Lemma with_fds_id g : with_fds (fds g) g = g.
Proof. now destruct g. Qed.

(** ** Descriptors, in every case *)

Lemma dup_cases (o : os) (oldfd : Z) g :
  dup o oldfd g = Ret (-1) g [] ∨
  ∃ n f, fds g !! oldfd = Some f ∧ lowest_free (fds g) = Some n
         ∧ fds g !! n = None ∧ 0 ≤ n < open_max o
         ∧ dup o oldfd g = Ret n (with_fds (<[n := f]> (fds g)) g) [].
Proof.
  unfold dup. rewrite bind_get.
  destruct (lowest_free_spec (fds g)) as (n & Hn & Hfree & Hrange). rewrite Hn.
  destruct (fds g !! oldfd) as [f|] eqn:Hf; [|now left].
  destruct (Z.ltb_spec n (open_max o)); [|now left].
  right. exists n, f. split_and!; try assumption; try lia; reflexivity.
Qed.

Lemma open_spec (o : os) (path : string) (flags : list oflag) g :
  open o path flags g
  = match open_result o path flags (fds g) with
    | Some n => Ret n (with_fds (<[n := Opened path flags]> (fds g)) g) []
    | None => Ret (-1) g []
    end.
Proof.
  unfold open, open_result. rewrite bind_get.
  destruct (lowest_free (fds g)) as [n|]; [|reflexivity].
  destruct (can_open o path flags && (n <? open_max o)); reflexivity.
Qed.

Lemma open_result_Some (o : os) (path : string) (flags : list oflag) fdt n :
  open_result o path flags fdt = Some n →
  fdt !! n = None ∧ 0 ≤ n < open_max o ∧ can_open o path flags = true
  ∧ lowest_free fdt = Some n.
Proof.
  unfold open_result. destruct (lowest_free_spec fdt) as (m & Hm & Hfree & Hrange).
  rewrite Hm. destruct (can_open o path flags) eqn:Hc; [|discriminate]. simpl.
  destruct (Z.ltb_spec m (open_max o)); [|discriminate].
  intros [= <-]. split_and!; auto; lia.
Qed.

Lemma close_spec (fd : Z) g : close fd g = Ret tt (with_fds (delete fd (fds g)) g) [].
Proof. unfold close. now rewrite bind_get. Qed.

(** One redirection of the child: the file is opened on a fresh
    descriptor, moved onto [target], and the fresh descriptor closed; when
    it cannot be opened the child prints [msg] and exits with status 1. *)
Lemma redirection_spec (o : os) (path : string) (flags : list oflag)
    (target : Z) (msg : string) g :
  is_Some (fds g !! target) →
  (fd ← open o path flags;
   if fd =? -1 then emit (Print msg) ;; exit 1
   else dup2 fd target ;; close fd) g
  = match open_result o path flags (fds g) with
    | Some n => Ret tt (with_fds (<[target := Opened path flags]> (fds g)) g)
                  [Dup2 n target]
    | None => Exited 1 g [Print msg]
    end.
Proof.
  intros [f Hf]. pose proof (open_spec o path flags g) as Ho.
  destruct (open_result o path flags (fds g)) as [n|] eqn:Hopen.
  - rewrite (bind_Ret _ _ _ _ _ _ Ho), prepend_nil.
    destruct (open_result_Some _ _ _ _ _ Hopen) as (Hfree & Hrange & _ & _).
    destruct (Z.eqb_spec n (-1)); [lia|].
    assert (Hne : n ≠ target) by congruence.
    erewrite (bind_Ret _ _ _ _ _ _ (dup2_spec n target (Opened path flags) _ _)).
    rewrite close_spec. cbn [prepend with_fds fds]. rewrite app_nil_r. f_equal.
    unfold with_fds. cbn [forePID backProcs exitStatus backgroundDisabled]. f_equal.
    rewrite delete_insert_ne, delete_insert_eq by congruence.
    now apply delete_id in Hfree as ->.
  - rewrite (bind_Ret _ _ _ _ _ _ Ho), prepend_nil. reflexivity.
  Unshelve. cbn [with_fds fds]. apply lookup_insert_eq.
Qed.

(** ** The child's side of [runCommand] *)

Lemma bind_redirection {B} (o : os) (path : string) (flags : list oflag)
    (target : Z) (msg : string) (k : M B) g :
  is_Some (fds g !! target) →
  ((fd ← open o path flags;
    if fd =? -1 then emit (Print msg) ;; exit 1
    else dup2 fd target ;; close fd) ;; k) g
  = match open_result o path flags (fds g) with
    | Some n => prepend [Dup2 n target]
                  (k (with_fds (<[target := Opened path flags]> (fds g)) g))
    | None => Exited 1 g [Print msg]
    end.
Proof.
  intros Ht. pose proof (redirection_spec o path flags target msg g Ht) as E.
  destruct (open_result o path flags (fds g)) as [n|].
  - now rewrite (bind_Ret _ _ _ _ _ _ E).
  - now rewrite (bind_Exited _ _ _ _ _ _ E).
Qed.

Lemma bind_assoc {A B C} (m : M A) (k1 : A → M B) (k2 : B → M C) g :
  ((m ≫= k1) ≫= k2) g = (m ≫= λ a, k1 a ≫= k2) g.
Proof.
  unfold mbind, M_bind, bind. destruct (m g) as [a g1 tr1| | |]; try reflexivity.
  destruct (k1 a g1) as [b g2 tr2| | |]; cbn [prepend]; try reflexivity.
  now rewrite prepend_prepend.
Qed.

(** The last step of the child. *)
Lemma exec_spec (o : os) (c : command * string) g :
  match argv (snd c) (args (fst c)) with
  | Some (prog :: rest) =>
      if execvp_ok o then (λ g, Execed (prog :: rest) g [])
      else emit (Print (prog ++ ": no such file or directory" ++ newline)) ;; exit 1
  | _ => undefined
  end g = exec_outcome o c g.
Proof.
  unfold exec_outcome. destruct (argv (snd c) (args (fst c))) as [[|prog rest]|];
    try reflexivity.
  destruct (execvp_ok o); reflexivity.
Qed.

Lemma exec_outcome_not_Ret (o : os) (c : command * string) g r g' tr :
  exec_outcome o c g ≠ Ret r g' tr.
Proof.
  unfold exec_outcome. destruct (argv (snd c) (args (fst c))) as [[|prog rest]|];
    try discriminate.
  destruct (execvp_ok o); discriminate.
Qed.

(** The child of a foreground command. *)
Lemma runCommand_child_foreground (o : os) (c : command * string) g :
  background (fst c) = false →
  is_Some (fds g !! STDIN_FILENO) → is_Some (fds g !! STDOUT_FILENO) →
  runCommand_child o c g
  = let input (g : shell) :=
      match inputFile (fst c) with
      | Some inp =>
          match open_result o inp [O_RDONLY] (fds g) with
          | Some n => redirected n STDIN_FILENO inp [O_RDONLY] (exec_outcome o c) g
          | None => Exited 1 g [Print ("cannot open " ++ inp ++ " for input" ++ newline)]
          end
      | None => exec_outcome o c g
      end in
    match outputFile (fst c) with
    | Some out =>
        match open_result o out [O_WRONLY; O_TRUNC; O_CREAT] (fds g) with
        | Some n => redirected n STDOUT_FILENO out [O_WRONLY; O_TRUNC; O_CREAT] input g
        | None => Exited 1 g [Print ("cannot open " ++ out ++ " for output" ++ newline)]
        end
    | None => input g
    end.
Proof.
  intros Hbg H0 H1. unfold runCommand_child. rewrite Hbg. cbv zeta.
  assert (Hin : ∀ g1, is_Some (fds g1 !! STDIN_FILENO) →
            (match inputFile (fst c) with
             | Some inp =>
                 inputFD ← open o inp [O_RDONLY];
                 if inputFD =? -1
                 then emit (Print ("cannot open " ++ inp ++ " for input" ++ newline)) ;; exit 1
                 else dup2 inputFD STDIN_FILENO ;; close inputFD
             | None => ret tt
             end ;;
             match argv (snd c) (args (fst c)) with
             | Some (prog :: rest) =>
                 if execvp_ok o then (λ g, Execed (prog :: rest) g [])
                 else emit (Print (prog ++ ": no such file or directory" ++ newline)) ;; exit 1
             | _ => undefined
             end) g1
            = match inputFile (fst c) with
              | Some inp =>
                  match open_result o inp [O_RDONLY] (fds g1) with
                  | Some n => redirected n STDIN_FILENO inp [O_RDONLY] (exec_outcome o c) g1
                  | None => Exited 1 g1
                              [Print ("cannot open " ++ inp ++ " for input" ++ newline)]
                  end
              | None => exec_outcome o c g1
              end).
  { intros g1 Hg1. destruct (inputFile (fst c)) as [inp|].
    - rewrite bind_redirection by assumption.
      destruct (open_result o inp [O_RDONLY] (fds g1)); [|reflexivity].
      unfold redirected. now rewrite exec_spec.
    - rewrite bind_ret. apply exec_spec. }
  rewrite bind_assoc.
  destruct (outputFile (fst c)) as [out|].
  - rewrite bind_redirection by assumption.
    destruct (open_result o out [O_WRONLY; O_TRUNC; O_CREAT] (fds g)) as [n|] eqn:Hopen;
      [|reflexivity].
    unfold redirected. rewrite Hin; [reflexivity|].
    cbn [with_fds fds]. rewrite lookup_insert_ne by discriminate. assumption.
  - rewrite bind_ret. now apply Hin.
Qed.

(** The child of a background command. *)
Lemma runCommand_child_background (o : os) (c : command * string) g :
  background (fst c) = true →
  is_Some (fds g !! STDIN_FILENO) → is_Some (fds g !! STDOUT_FILENO) →
  runCommand_child o c g
  = let input (g : shell) :=
      match inputFile (fst c) with
      | None =>
          match open_result o DEV_NULL [O_RDONLY] (fds g) with
          | Some n => redirected n STDIN_FILENO DEV_NULL [O_RDONLY] (exec_outcome o c) g
          | None => Exited 1 g [Print ("error: cannot complete command" ++ newline)]
          end
      | Some _ => exec_outcome o c g
      end in
    match outputFile (fst c) with
    | None =>
        match open_result o DEV_NULL [O_WRONLY] (fds g) with
        | Some n => redirected n STDOUT_FILENO DEV_NULL [O_WRONLY] input g
        | None => Exited 1 g [Print ("error: cannot complete command" ++ newline)]
        end
    | Some _ => input g
    end.
Proof.
  intros Hbg H0 H1. unfold runCommand_child. rewrite Hbg. cbv zeta.
  assert (Hin : ∀ g1, is_Some (fds g1 !! STDIN_FILENO) →
            ((if is_null (inputFile (fst c)) then
                inputFD ← open o DEV_NULL [O_RDONLY];
                if inputFD =? -1
                then emit (Print ("error: cannot complete command" ++ newline)) ;; exit 1
                else dup2 inputFD STDIN_FILENO ;; close inputFD
              else ret tt) ;;
             match argv (snd c) (args (fst c)) with
             | Some (prog :: rest) =>
                 if execvp_ok o then (λ g, Execed (prog :: rest) g [])
                 else emit (Print (prog ++ ": no such file or directory" ++ newline)) ;; exit 1
             | _ => undefined
             end) g1
            = match inputFile (fst c) with
              | None =>
                  match open_result o DEV_NULL [O_RDONLY] (fds g1) with
                  | Some n => redirected n STDIN_FILENO DEV_NULL [O_RDONLY]
                                (exec_outcome o c) g1
                  | None => Exited 1 g1
                              [Print ("error: cannot complete command" ++ newline)]
                  end
              | Some _ => exec_outcome o c g1
              end).
  { intros g1 Hg1. destruct (inputFile (fst c)) as [inp|]; cbn [is_null].
    - rewrite bind_ret. apply exec_spec.
    - rewrite bind_redirection by assumption.
      destruct (open_result o DEV_NULL [O_RDONLY] (fds g1)); [|reflexivity].
      unfold redirected. now rewrite exec_spec. }
  rewrite bind_assoc.
  destruct (outputFile (fst c)) as [out|]; cbn [is_null].
  - rewrite bind_ret. now apply Hin.
  - rewrite bind_redirection by assumption.
    destruct (open_result o DEV_NULL [O_WRONLY] (fds g)) as [n|] eqn:Hopen;
      [|reflexivity].
    unfold redirected. rewrite Hin; [reflexivity|].
    cbn [with_fds fds]. rewrite lookup_insert_ne by discriminate. assumption.
Qed.

(** *** How the child ends *)

Lemma goes_on_ret : goes_on_or_exits_1 (ret tt).
Proof. intros g. left. eexists _, _. reflexivity. Qed.

Lemma goes_on_bind (m1 m2 : M unit) :
  goes_on_or_exits_1 m1 → goes_on_or_exits_1 m2 → goes_on_or_exits_1 (m1 ;; m2).
Proof.
  intros H1 H2 g. destruct (H1 g) as [(g1 & tr1 & E1)|(g1 & tr1 & E1)].
  - rewrite (bind_Ret _ _ _ _ _ _ E1).
    destruct (H2 g1) as [(g2 & tr2 & E2)|(g2 & tr2 & E2)]; rewrite E2; cbn [prepend];
      [left | right]; eexists _, _; reflexivity.
  - right. rewrite (bind_Exited _ _ _ _ _ _ E1). eexists _, _; reflexivity.
Qed.

Lemma goes_on_redirection (o : os) (path : string) (flags : list oflag)
    (target : Z) (msg : string) :
  goes_on_or_exits_1
    (fd ← open o path flags;
     if fd =? -1 then emit (Print msg) ;; exit 1
     else dup2 fd target ;; close fd).
Proof.
  intros g. pose proof (open_spec o path flags g) as Ho.
  destruct (open_result o path flags (fds g)) as [n|] eqn:Hopen.
  - rewrite (bind_Ret _ _ _ _ _ _ Ho), prepend_nil.
    destruct (open_result_Some _ _ _ _ _ Hopen) as (_ & Hrange & _).
    destruct (Z.eqb_spec n (-1)); [lia|]. left.
    erewrite (bind_Ret _ _ _ _ _ _ (dup2_spec n target (Opened path flags) _ _)).
    rewrite close_spec. cbn [prepend]. eexists _, _; reflexivity.
  - rewrite (bind_Ret _ _ _ _ _ _ Ho), prepend_nil. right. eexists _, _; reflexivity.
  Unshelve. cbn [with_fds fds]. apply lookup_insert_eq.
Qed.

Lemma ends_as_child_exec (o : os) (c : command * string) g :
  ends_as_child o c (exec_outcome o c g).
Proof.
  unfold ends_as_child, exec_outcome.
  destruct (argv (snd c) (args (fst c))) as [[|prog rest]|]; simpl.
  - intros prog rest. discriminate.
  - destruct (execvp_ok o); simpl; [|reflexivity].
    split_and!; [reflexivity | discriminate | reflexivity].
  - intros prog rest. discriminate.
Qed.

Lemma ends_as_child_prepend (o : os) (c : command * string) tr r :
  ends_as_child o c r → ends_as_child o c (prepend tr r).
Proof. destruct r; simpl; auto. Qed.

(** However the descriptors stand, the child ends as a child. *)
Lemma runCommand_child_ends (o : os) (c : command * string) g :
  ends_as_child o c (runCommand_child o c g).
Proof.
  unfold runCommand_child. cbv zeta.
  match goal with |- ends_as_child _ _ ((?prep ;; _) g) =>
    assert (Hprep : goes_on_or_exits_1 prep) end.
  { destruct (background (fst c)).
    - apply goes_on_bind.
      + destruct (is_null (outputFile (fst c)));
          [apply goes_on_redirection | apply goes_on_ret].
      + destruct (is_null (inputFile (fst c)));
          [apply goes_on_redirection | apply goes_on_ret].
    - apply goes_on_bind.
      + destruct (outputFile (fst c)); [apply goes_on_redirection | apply goes_on_ret].
      + destruct (inputFile (fst c)); [apply goes_on_redirection | apply goes_on_ret]. }
  destruct (Hprep g) as [(g1 & tr1 & E1)|(g1 & tr1 & E1)].
  - rewrite (bind_Ret _ _ _ _ _ _ E1), exec_spec.
    apply ends_as_child_prepend, ends_as_child_exec.
  - rewrite (bind_Exited _ _ _ _ _ _ E1). reflexivity.
Qed.

(** ** The launcher, in every case *)

(** The [dup2]s that put the saved descriptors back change nothing: the
    parent has not touched descriptors 0 and 1 since it saved them. *)
Lemma restore_id {B} (c : command) (stdOut stdIn : Z) (f0 f1 : file)
    (k : shell → M B) g :
  fds g !! stdIn = Some f0 → fds g !! stdOut = Some f1 →
  fds g !! STDIN_FILENO = Some f0 → fds g !! STDOUT_FILENO = Some f1 →
  ((if is_null (inputFile c) then ret tt else dup2 stdIn STDIN_FILENO) ;;
   (if is_null (outputFile c) then ret tt else dup2 stdOut STDOUT_FILENO) ;;
   g' ← get; k g') g
  = prepend (restores c stdOut stdIn) (k g g).
Proof.
  intros Hin Hout H0 H1. unfold restores.
  assert (E0 : dup2 stdIn STDIN_FILENO g = Ret tt g [Dup2 stdIn STDIN_FILENO]).
  { rewrite (dup2_spec _ _ f0) by assumption. now rewrite insert_id, with_fds_id. }
  assert (E1 : dup2 stdOut STDOUT_FILENO g = Ret tt g [Dup2 stdOut STDOUT_FILENO]).
  { rewrite (dup2_spec _ _ f1) by assumption. now rewrite insert_id, with_fds_id. }
  destruct (inputFile c) as [inp|], (outputFile c) as [out|]; cbn [is_null].
  - rewrite (bind_Ret _ _ _ _ _ _ E0), (bind_Ret _ _ _ _ _ _ E1), bind_get.
    now rewrite prepend_prepend.
  - rewrite (bind_Ret _ _ _ _ _ _ E0), bind_ret, bind_get. reflexivity.
  - rewrite bind_ret, (bind_Ret _ _ _ _ _ _ E1), bind_get. reflexivity.
  - rewrite !bind_ret, bind_get. now rewrite prepend_nil.
Qed.

(** The parent's side, exactly. *)
Lemma runCommand_parent_exact (o : os) (c : command * string) g
    (stdOut stdIn spawnpid : Z) (f0 f1 : file) :
  length (backProcs g) = MAX_PROCS →
  fds g !! stdIn = Some f0 → fds g !! stdOut = Some f1 →
  fds g !! STDIN_FILENO = Some f0 → fds g !! STDOUT_FILENO = Some f1 →
  runCommand_parent o c stdOut stdIn spawnpid g
  = match after_launch o (fst c) spawnpid g with
    | Some g1 => Ret (WEXITSTATUS (exitStatus g1)) g1
                   (launch_events (fst c) spawnpid stdOut stdIn)
    | None => Undefined []
    end.
Proof.
  intros Hlen Hin Hout H0 H1. unfold runCommand_parent, after_launch, launch_events.
  destruct (background (fst c)) eqn:Hbg.
  - pose proof (saveProcess_spec spawnpid g Hlen) as Hsave.
    destruct (free_slot (backProcs g)) as [k|].
    + set (g1 := with_backProcs (<[k := Some (job spawnpid)]> (backProcs g)) g).
      assert (Hfirst : (saveProcess spawnpid ;;
                        emit (Print ("background pid is " ++ sprintf_d spawnpid ++ newline))) g
                       = Ret tt g1 [Print ("background pid is " ++ sprintf_d spawnpid
                                           ++ newline)]).
      { rewrite (bind_Ret _ _ _ _ _ _ Hsave), prepend_nil. reflexivity. }
      rewrite (bind_Ret _ _ _ _ _ _ Hfirst).
      rewrite (restore_id (fst c) stdOut stdIn f0 f1) by assumption.
      unfold ret. cbn [prepend]. now rewrite app_nil_r.
    + assert (Hfirst : (saveProcess spawnpid ;;
                        emit (Print ("background pid is " ++ sprintf_d spawnpid ++ newline))) g
                       = Undefined []).
      { unfold mbind, M_bind, bind. now rewrite Hsave. }
      unfold mbind, M_bind, bind in *. now rewrite Hfirst.
  - set (st := if 0 <? fst (waitpid o) then snd (waitpid o) else exitStatus g).
    set (g1 := with_exitStatus st (with_forePID spawnpid g)).
    assert (Hwait : (set_forePID spawnpid ;;
                     (if 0 <? fst (waitpid o) then set_exitStatus (snd (waitpid o))
                      else ret tt)) g = Ret tt g1 []).
    { rewrite bind_set_forePID. subst g1 st.
      destruct (0 <? fst (waitpid o)); [reflexivity|].
      unfold ret. destruct g; reflexivity. }
    rewrite (bind_Ret _ _ _ _ _ _ Hwait), prepend_nil.
    rewrite (restore_id (fst c) stdOut stdIn f0 f1) by assumption.
    unfold ret. cbn [prepend app]. now rewrite app_nil_r.
Qed.

(** [runCommand] up to the [fork], whatever the limit on descriptors:
    either a [dup] fails and the shell exits before any [fork], or both
    descriptors are saved in the two lowest free ones. *)
Lemma runCommand_cases (o : os) (c : command * string) g (f0 f1 : file) :
  fds g !! STDIN_FILENO = Some f0 → fds g !! STDOUT_FILENO = Some f1 →
  (∃ g1, runCommand o c g = Exited EXIT_FAILURE g1 [Perror "Error"]
         ∧ ∀ n m, lowest_free (fds g) = Some n →
                  lowest_free (<[n := f1]> (fds g)) = Some m →
                  open_max o ≤ n ∨ open_max o ≤ m) ∨
  ∃ stdOut stdIn,
    lowest_free (fds g) = Some stdOut ∧
    lowest_free (<[stdOut := f1]> (fds g)) = Some stdIn ∧
    fds g !! stdOut = None ∧ fds g !! stdIn = None ∧ stdOut ≠ stdIn ∧
    0 ≤ stdOut < open_max o ∧ 0 ≤ stdIn < open_max o ∧
    runCommand o c g
    = prepend [Fork (fork o)]
        ((if fork o =? CHILD then runCommand_child o c
          else if CHILD <? fork o then runCommand_parent o c stdOut stdIn (fork o)
          else emit (Perror "Error") ;; exit EXIT_FAILURE)
           (with_fds (<[stdIn := f0]> (<[stdOut := f1]> (fds g))) g)).
Proof.
  intros H0 H1. unfold runCommand.
  destruct (lowest_free_spec (fds g)) as (n1 & Hl1 & Hn1 & Hp1).
  assert (E1 : dup o STDOUT_FILENO g
               = if n1 <? open_max o then Ret n1 (with_fds (<[n1 := f1]> (fds g)) g) []
                 else Ret (-1) g []).
  { unfold dup. rewrite bind_get, H1, Hl1. destruct (n1 <? open_max o); reflexivity. }
  destruct (Z.ltb_spec n1 (open_max o)) as [Hlt1|Hge1].
  2:{ left. rewrite (bind_Ret _ _ _ _ _ _ E1), prepend_nil. change (-1 =? -1) with true.
      destruct (dup_cases o STDIN_FILENO g) as [E2|(n2 & f & _ & _ & _ & _ & E2)];
        rewrite (bind_Ret _ _ _ _ _ _ E2), prepend_nil;
        (eexists; split; [reflexivity|]); intros n m Hn _; left; congruence. }
  rewrite (bind_Ret _ _ _ _ _ _ E1), prepend_nil.
  assert (Hne1 : n1 ≠ STDIN_FILENO) by congruence.
  destruct (lowest_free_spec (<[n1 := f1]> (fds g))) as (n2 & Hl2 & Hn2 & Hp2).
  assert (E2 : dup o STDIN_FILENO (with_fds (<[n1 := f1]> (fds g)) g)
               = if n2 <? open_max o
                 then Ret n2 (with_fds (<[n2 := f0]> (<[n1 := f1]> (fds g))) g) []
                 else Ret (-1) (with_fds (<[n1 := f1]> (fds g)) g) []).
  { unfold dup. rewrite bind_get. cbn [with_fds fds].
    rewrite lookup_insert_ne, H0, Hl2 by assumption.
    destruct (n2 <? open_max o); reflexivity. }
  destruct (Z.ltb_spec n2 (open_max o)) as [Hlt2|Hge2];
    rewrite (bind_Ret _ _ _ _ _ _ E2), prepend_nil.
  2:{ left. rewrite orb_true_r. eexists; split; [reflexivity|].
      intros n m Hn Hm. right. congruence. }
  assert (Hne : n1 ≠ n2).
  { intros <-. rewrite lookup_insert_eq in Hn2. discriminate. }
  rewrite lookup_insert_ne in Hn2 by assumption.
  right. exists n1, n2. split_and!; try assumption; try lia.
  destruct (Z.eqb_spec n1 (-1)); [lia|]. destruct (Z.eqb_spec n2 (-1)); [lia|].
  cbn [orb]. rewrite bind_emit. reflexivity.
Qed.

(** When [runCommand] returns, it does so in the parent: the [fork]
    returned a pid, two descriptors were used up, and the globals are
    those of [after_launch]. *)
Lemma runCommand_Ret_inv (o : os) (c : command * string) g (f0 f1 : file) r g' tr :
  length (backProcs g) = MAX_PROCS →
  fds g !! STDIN_FILENO = Some f0 → fds g !! STDOUT_FILENO = Some f1 →
  runCommand o c g = Ret r g' tr →
  ∃ stdOut stdIn,
    0 < fork o ∧
    lowest_free (fds g) = Some stdOut ∧
    lowest_free (<[stdOut := f1]> (fds g)) = Some stdIn ∧
    fds g !! stdOut = None ∧ fds g !! stdIn = None ∧ stdOut ≠ stdIn ∧
    0 ≤ stdOut < open_max o ∧ 0 ≤ stdIn < open_max o ∧
    after_launch o (fst c) (fork o)
      (with_fds (<[stdIn := f0]> (<[stdOut := f1]> (fds g))) g) = Some g' ∧
    r = WEXITSTATUS (exitStatus g') ∧
    tr = Fork (fork o) :: launch_events (fst c) (fork o) stdOut stdIn.
Proof.
  intros Hlen H0 H1 Hrun.
  destruct (runCommand_cases o c g f0 f1 H0 H1)
    as [(g1 & E & _)|(stdOut & stdIn & Hl1 & Hl2 & Hn1 & Hn2 & Hne & Hr1 & Hr2 & E)];
    rewrite E in Hrun; [discriminate|].
  apply prepend_Ret_inv in Hrun as (tr' & Hrun & ->).
  exists stdOut, stdIn.
  destruct (Z.eqb_spec (fork o) CHILD) as [Hc|Hc].
  { pose proof (runCommand_child_ends o c
                  (with_fds (<[stdIn := f0]> (<[stdOut := f1]> (fds g))) g)) as Hends.
    rewrite Hrun in Hends. destruct Hends. }
  destruct (Z.ltb_spec CHILD (fork o)) as [Hp|Hp]; [|discriminate].
  assert (Hne0 : stdOut ≠ STDIN_FILENO ∧ stdOut ≠ STDOUT_FILENO
                 ∧ stdIn ≠ STDIN_FILENO ∧ stdIn ≠ STDOUT_FILENO)
    by (split_and!; congruence).
  destruct Hne0 as (? & ? & ? & ?).
  rewrite (runCommand_parent_exact o c _ stdOut stdIn (fork o) f0 f1) in Hrun;
    cbn [with_fds fds backProcs]; try assumption;
    try (simplify_map_eq; reflexivity).
  destruct (after_launch o (fst c) (fork o)
              (with_fds (<[stdIn := f0]> (<[stdOut := f1]> (fds g))) g)) as [g1|];
    [|discriminate].
  injection Hrun as <- <- <-. unfold CHILD in *. split_and!; auto; try lia.
Qed.

(** *** The built-ins *)

Lemma changeDir_spec (o : os) (path : option string) g :
  changeDir o path g
  = let target := match path with None => getenv_HOME o | Some p => Some p end in
    Ret tt g (Chdir target (chdir o target)
              :: if chdir o target =? -1 then [Perror "Error:"] else []).
Proof.
  unfold changeDir. destruct path as [p|]; cbv zeta; rewrite bind_emit;
    match goal with |- context [?x =? -1] => destruct (x =? -1) end; reflexivity.
Qed.

Lemma printStatus_spec g :
  printStatus g = Ret tt g [Print ("exit value " ++ sprintf_d (exitStatus g) ++ newline)].
Proof. unfold printStatus. now rewrite bind_get. Qed.

(** ** One pass of the loop, read backwards *)

(** A pass that reaches the next one either has run nothing or a
    built-in that leaves the globals alone, or has launched a command and
    come back as the parent. *)
Lemma runShell_body_Ret (o : os) (buffer : string) g (f0 f1 : file) g' tr :
  length (backProcs g) = MAX_PROCS →
  fds g !! STDIN_FILENO = Some f0 → fds g !! STDOUT_FILENO = Some f1 →
  runShell_body o buffer g = Ret tt g' tr →
  (g' = g ∧ forks tr = []) ∨
  ∃ c stdOut stdIn g1,
    parse (getpid o) (backgroundDisabled g) buffer = Some c ∧
    0 < fork o ∧
    lowest_free (fds g) = Some stdOut ∧
    lowest_free (<[stdOut := f1]> (fds g)) = Some stdIn ∧
    fds g !! stdOut = None ∧ fds g !! stdIn = None ∧ stdOut ≠ stdIn ∧
    0 ≤ stdOut < open_max o ∧ 0 ≤ stdIn < open_max o ∧
    after_launch o (fst c) (fork o)
      (with_fds (<[stdIn := f0]> (<[stdOut := f1]> (fds g))) g) = Some g1 ∧
    g' = with_exitStatus (WEXITSTATUS (exitStatus g1)) g1 ∧
    tr = Fork (fork o) :: launch_events (fst c) (fork o) stdOut stdIn.
Proof.
  intros Hlen H0 H1. unfold runShell_body. rewrite bind_get.
  destruct (parse (getpid o) (backgroundDisabled g) buffer) as [c|]; [|discriminate].
  destruct (args (fst c) !! 0%nat) as [[a0|]|]; [| |discriminate].
  2:{ intros [= <- <-]. now left. }
  destruct (String.eqb "exit" (arg_string (snd c) a0)).
  { rewrite exitShell_spec by assumption. discriminate. }
  destruct (String.eqb "cd" (arg_string (snd c) a0)).
  { destruct (args (fst c) !! 1%nat) as [a1|]; [|discriminate].
    rewrite changeDir_spec. cbv zeta. intros [= <- <-]. left. split; [reflexivity|].
    cbn [forks omap]. now destruct (_ =? -1). }
  destruct (String.eqb "status" (arg_string (snd c) a0)).
  { rewrite printStatus_spec. intros [= <- <-]. now left. }
  intros Hrun. apply bind_Ret_inv in Hrun as (r & g1 & tr1 & tr2 & Hrun & Hset & ->).
  unfold set_exitStatus in Hset. injection Hset as <- <-.
  destruct (runCommand_Ret_inv o c g f0 f1 r g1 tr1 Hlen H0 H1 Hrun)
    as (stdOut & stdIn & Hp & Hl1 & Hl2 & Hn1 & Hn2 & Hne & Hr1 & Hr2 & Hafter & -> & ->).
  right. exists c, stdOut, stdIn, g1.
  split_and!; try assumption; try reflexivity; try lia.
  apply app_nil_r.
Qed.

(** ** Histories of the process *)

Lemma forks_app (tr1 tr2 : list event) :
  forks (tr1 ++ tr2)%list = (forks tr1 ++ forks tr2)%list.
Proof. apply omap_app. Qed.

Lemma forks_restores (c : command) (stdOut stdIn : Z) : forks (restores c stdOut stdIn) = [].
Proof. unfold restores. destruct (inputFile c), (outputFile c); reflexivity. Qed.

Lemma forks_launch_events (c : command) (spawnpid stdOut stdIn : Z) :
  forks (launch_events c spawnpid stdOut stdIn) = [].
Proof.
  unfold launch_events. rewrite forks_app, forks_restores.
  destruct (background c); reflexivity.
Qed.

Lemma forks_reap_trace (w : nat → Z * Z) : ∀ t i, forks (reap_trace w i t) = [].
Proof.
  induction t as [|x t IH]; intros i; [reflexivity|].
  cbn [reap_trace]. rewrite forks_app, IH, app_nil_r.
  destruct x as [p|]; [|reflexivity]. cbn [reap_events].
  destruct (0 <? fst (w i)); reflexivity.
Qed.

Lemma toggles_snoc (h : list input) (e : input) :
  toggles (h ++ [e])
  = match e with
    | Signal sig _ => if sig =? SIGTSTP then S (toggles h) else toggles h
    | Pass _ => toggles h
    end.
Proof.
  induction h as [|e' h IH].
  - destruct e as [o|sig w]; reflexivity.
  - cbn [app toggles]. destruct e' as [o'|sig' w']; [exact IH|].
    rewrite IH. destruct e as [o|sig w]; [reflexivity|].
    destruct (sig' =? SIGTSTP), (sig =? SIGTSTP); reflexivity.
Qed.

(** *** Descriptors in a row *)

Lemma lowest_free_contiguous (fdt : gmap Z file) :
  contiguous fdt → lowest_free fdt = Some (Z.of_nat (size fdt)).
Proof.
  intros Hc. destruct (lowest_free_spec fdt) as (n & Hn & Hfree & Hrange).
  rewrite Hn. f_equal.
  destruct (Z.eq_dec n (Z.of_nat (size fdt))) as [|Hne]; [assumption|].
  assert (Hs : is_Some (fdt !! n)) by (apply Hc; lia).
  rewrite Hfree in Hs. now destruct Hs.
Qed.

Lemma contiguous_insert (fdt : gmap Z file) (f : file) :
  contiguous fdt →
  contiguous (<[Z.of_nat (size fdt) := f]> fdt)
  ∧ size (<[Z.of_nat (size fdt) := f]> fdt) = S (size fdt)
  ∧ fdt !! Z.of_nat (size fdt) = None.
Proof.
  intros Hc.
  assert (Hfree : fdt !! Z.of_nat (size fdt) = None).
  { destruct (fdt !! Z.of_nat (size fdt)) eqn:E; [|reflexivity].
    assert (Hs : is_Some (fdt !! Z.of_nat (size fdt))) by eauto.
    apply Hc in Hs. lia. }
  assert (Hsize : size (<[Z.of_nat (size fdt) := f]> fdt) = S (size fdt))
    by now apply map_size_insert_None.
  split_and!; try assumption.
  intros n. rewrite Hsize.
  destruct (Z.eq_dec (Z.of_nat (size fdt)) n) as [<-|Hne].
  - rewrite lookup_insert_eq. split; [lia | eauto].
  - rewrite lookup_insert_ne by assumption. rewrite (Hc n). lia.
Qed.

Lemma contiguous_initial : contiguous (fds initial) ∧ size (fds initial) = 3%nat.
Proof.
  assert (Hsize : size (fds initial) = 3%nat) by (vm_compute; reflexivity).
  split; [|exact Hsize]. intros n. rewrite Hsize. cbn [initial fds].
  destruct (Z.eq_dec 0 n) as [<-|H0]; [rewrite lookup_insert_eq; split; [lia | eauto]|].
  rewrite lookup_insert_ne by assumption.
  destruct (Z.eq_dec 1 n) as [<-|H1]; [rewrite lookup_insert_eq; split; [lia | eauto]|].
  rewrite lookup_insert_ne by assumption.
  destruct (Z.eq_dec 2 n) as [<-|H2]; [rewrite lookup_insert_eq; split; [lia | eauto]|].
  rewrite lookup_insert_ne, lookup_empty by assumption.
  split; [intros [? ?]; discriminate | lia].
Qed.

(** *** What a signal runs *)

Lemma deliver_cases (w : nat → Z * Z) (sig : Z) (handler : M unit) :
  deliver main_dispositions w sig = Some handler →
  (sig = SIGINT ∧ handler = interruptSignal SIGINT) ∨
  (sig = SIGCHLD ∧ handler = childTerminates w SIGCHLD) ∨
  (sig = SIGTSTP ∧ handler = disableBackground SIGTSTP).
Proof.
  unfold deliver, main_dispositions, initializeShell, sigaction. cbv zeta.
  destruct (Z.eq_dec SIGTSTP sig) as [<-|H1].
  { rewrite lookup_insert_eq. cbn. intros [= <-]. auto. }
  rewrite lookup_insert_ne by assumption.
  destruct (Z.eq_dec SIGCHLD sig) as [<-|H2].
  { rewrite lookup_insert_eq. cbn. intros [= <-]. auto. }
  rewrite lookup_insert_ne by assumption.
  destruct (Z.eq_dec SIGINT sig) as [<-|H3].
  { rewrite lookup_insert_eq. cbn. intros [= <-]. auto. }
  rewrite lookup_insert_ne, lookup_empty by assumption. discriminate.
Qed.

Lemma interruptSignal_spec (sigNum : Z) g :
  interruptSignal sigNum g
  = Ret tt g [Kill (forePID g) SIGKILL;
              Print ("terminated by signal " ++ sprintf_d sigNum ++ newline)].
Proof. unfold interruptSignal. now rewrite bind_get, bind_emit. Qed.

Lemma disableBackground_spec (sigNum : Z) g :
  disableBackground sigNum g
  = Ret tt (toggled g) [Print (mode_line (negb (backgroundDisabled g)))].
Proof.
  unfold disableBackground, toggled, mode_line. rewrite bind_get.
  destruct (backgroundDisabled g); rewrite bind_emit; reflexivity.
Qed.

(** *** One pass from its top *)

Lemma runShell_pass_spec (o : os) (stdin : string) g :
  runShell_pass o stdin g
  = prepend [Print ": "]
      ((runShell_body o (fst (fgets MAX_LENGTH stdin)) ;;
        ret (snd (fgets MAX_LENGTH stdin))) g).
Proof.
  unfold runShell_pass. rewrite bind_emit.
  now destruct (fgets MAX_LENGTH stdin).
Qed.

Lemma runShell_pass_Ret (o : os) (stdin : string) g rest g' tr :
  runShell_pass o stdin g = Ret rest g' tr →
  ∃ tr', runShell_body o (fst (fgets MAX_LENGTH stdin)) g = Ret tt g' tr'
         ∧ rest = snd (fgets MAX_LENGTH stdin) ∧ tr = Print ": " :: tr'.
Proof.
  rewrite runShell_pass_spec. intros H.
  apply prepend_Ret_inv in H as (tr1 & H & ->).
  apply bind_Ret_inv in H as ([] & g1 & tr2 & tr3 & H & Hret & ->).
  injection Hret as <- <- <-. exists tr2. now rewrite app_nil_r.
Qed.

(** *** The invariant *)

Lemma shell_inv_initial : shell_inv [] initial [].
Proof.
  destruct contiguous_initial as [Hc Hs].
  unfold shell_inv. split_and!; try reflexivity; try assumption.
  - intros i p H. cbn [initial backProcs] in H.
    apply lookup_replicate in H as [H _]. discriminate.
  - now left.
Qed.

(** A pass keeps the invariant. *)
Lemma shell_inv_pass h g tr o buffer g' tr' :
  shell_inv h g tr →
  runShell_body o buffer g = Ret tt g' tr' →
  shell_inv (h ++ [Pass o]) g' (tr ++ Print ": " :: tr').
Proof.
  intros (Hlen & Hjobs & H0 & H1 & Hc & Hsize & Hfore & Hmode) Hrun.
  assert (Hforks : forks (tr ++ Print ": " :: tr') = (forks tr ++ forks tr')%list)
    by (rewrite forks_app; reflexivity).
  unfold shell_inv. rewrite toggles_snoc, Hforks.
  destruct (runShell_body_Ret o buffer g _ _ g' tr' Hlen H0 H1 Hrun)
    as [[-> Hnone]|(c & stdOut & stdIn & g1 & Hparse & Hpid & Hl1 & Hl2 & Hn1 & Hn2
                    & Hne & Hr1 & Hr2 & Hafter & -> & ->)].
  { rewrite Hnone, app_nil_r. split_and!; assumption. }
  change (forks (Fork (fork o) :: launch_events (fst c) (fork o) stdOut stdIn))
    with (fork o :: forks (launch_events (fst c) (fork o) stdOut stdIn)).
  rewrite forks_launch_events.
  (* the two descriptors *)
  rewrite (lowest_free_contiguous _ Hc) in Hl1. injection Hl1 as <-.
  destruct (contiguous_insert (fds g) (Inherited 1) Hc) as (Hc1 & Hs1 & _).
  rewrite (lowest_free_contiguous _ Hc1) in Hl2. injection Hl2 as <-.
  destruct (contiguous_insert _ (Inherited 0) Hc1) as (Hc2 & Hs2 & _).
  set (F := <[Z.of_nat (size (<[Z.of_nat (size (fds g)) := Inherited 1]> (fds g)))
              := Inherited 0]> (<[Z.of_nat (size (fds g)) := Inherited 1]> (fds g))) in *.
  assert (HF0 : F !! STDIN_FILENO = Some (Inherited 0)).
  { subst F. rewrite !lookup_insert_ne; [assumption | congruence |].
    intros E. rewrite E in Hn2. congruence. }
  assert (HF1 : F !! STDOUT_FILENO = Some (Inherited 1)).
  { subst F. rewrite !lookup_insert_ne; [assumption | congruence |].
    intros E. rewrite E in Hn2. congruence. }
  assert (HsF : size F = (3 + 2 * length (forks tr ++ [fork o]))%nat).
  { rewrite Hs2, Hs1, Hsize, length_app. simpl. lia. }
  assert (Hin : In (fork o) (forks tr ++ [fork o])) by (apply in_or_app; right; now left).
  assert (Hold : ∀ x, In x (forks tr) → In x (forks tr ++ [fork o]))
    by (intros; apply in_or_app; now left).
  unfold after_launch in Hafter. cbn [with_fds backProcs exitStatus forePID] in Hafter.
  destruct (background (fst c)).
  - destruct (free_slot (backProcs g)) as [k|] eqn:Hk; [|discriminate].
    injection Hafter as <-.
    cbn [with_exitStatus with_backProcs with_fds forePID backProcs exitStatus
         backgroundDisabled fds].
    split_and!; try assumption.
    + now rewrite length_insert.
    + intros i p Hi. destruct (decide (k = i)) as [<-|Hik].
      * apply free_slot_Some in Hk as [Hk _].
        rewrite list_lookup_insert_eq in Hi by (apply lookup_lt_Some in Hk; exact Hk).
        injection Hi as <-. split_and!; [reflexivity | exact Hpid | exact Hin].
      * rewrite list_lookup_insert_ne in Hi by assumption.
        destruct (Hjobs i p Hi) as (? & ? & ?). auto.
    + destruct Hfore as [?|[? ?]]; [now left | right; auto].
  - injection Hafter as <-.
    cbn [with_exitStatus with_forePID with_fds forePID backProcs exitStatus
         backgroundDisabled fds].
    split_and!; try assumption.
    + intros i p Hi. destruct (Hjobs i p Hi) as (? & ? & ?). auto.
    + right. auto.
Qed.

(** A handler run keeps the invariant. *)
Lemma shell_inv_signal h g tr sig w handler g' tr' :
  shell_inv h g tr →
  deliver main_dispositions w sig = Some handler →
  handler g = Ret tt g' tr' →
  shell_inv (h ++ [Signal sig w]) g' (tr ++ tr').
Proof.
  intros (Hlen & Hjobs & H0 & H1 & Hc & Hsize & Hfore & Hmode) Hd Hrun.
  unfold shell_inv. rewrite toggles_snoc, forks_app.
  destruct (deliver_cases w sig handler Hd) as [[-> ->]|[[-> ->]|[-> ->]]].
  - rewrite interruptSignal_spec in Hrun. injection Hrun as <- <-.
    rewrite app_nil_r. split_and!; assumption.
  - rewrite childTerminates_spec in Hrun by assumption. injection Hrun as <- <-.
    rewrite forks_reap_trace, app_nil_r.
    cbn [with_backProcs with_exitStatus forePID backProcs exitStatus
         backgroundDisabled fds].
    split_and!; try assumption.
    + now rewrite reap_table_length.
    + intros i p Hi. rewrite reap_table_lookup in Hi.
      destruct (backProcs g !! i) as [x|] eqn:Hx; [|discriminate].
      change (reap_slot w (0 + i) <$> Some x) with (Some (reap_slot w (0 + i) x)) in Hi.
      injection Hi as Hi. unfold reap_slot in Hi.
      match type of Hi with context [reaped ?a ?b ?c] => destruct (reaped a b c) end;
        [discriminate|]. subst x. now apply (Hjobs i).
  - rewrite disableBackground_spec in Hrun. injection Hrun as <- <-.
    rewrite app_nil_r. change (SIGTSTP =? SIGTSTP) with true.
    cbn [toggled forePID backProcs exitStatus backgroundDisabled fds].
    split_and!; try assumption.
    rewrite Hmode, Nat.odd_succ, <- Nat.negb_odd. reflexivity.
Qed.

(** Every history keeps it. *)
Lemma reaches_inv h g stdin tr : reaches h g stdin tr → shell_inv h g tr.
Proof.
  induction 1 as [stdin|h g stdin tr o g' rest tr' _ IH Hrun
                  |h g stdin tr sig w handler g' tr' _ IH Hd Hrun].
  - apply shell_inv_initial.
  - apply runShell_pass_Ret in Hrun as (trb & Hrun & -> & ->).
    eapply shell_inv_pass; eassumption.
  - eapply shell_inv_signal; eassumption.
Qed.

(** ** Accesses outside an object *)

Lemma free_slot_full t : occupied t = length t → free_slot t = None.
Proof.
  induction t as [|[p|] t IH]; simpl; intros H.
  - reflexivity.
  - rewrite IH by lia. reflexivity.
  - pose proof (occupied_le_length t). lia.
Qed.

(** The launcher stays inside its objects when [args] holds a
    terminated, non-empty vector and the job table has room. *)
Lemma runCommand_defined (o : os) (c : command * string) g (f0 f1 : file) prog rest :
  length (backProcs g) = MAX_PROCS →
  fds g !! STDIN_FILENO = Some f0 → fds g !! STDOUT_FILENO = Some f1 →
  argv (snd c) (args (fst c)) = Some (prog :: rest) →
  (background (fst c) = true → (occupied (backProcs g) < MAX_PROCS)%nat) →
  defined (runCommand o c g).
Proof.
  intros Hlen H0 H1 Hargv Hroom.
  destruct (runCommand_cases o c g f0 f1 H0 H1)
    as [(g1 & E & _)|(stdOut & stdIn & Hl1 & Hl2 & Hn1 & Hn2 & Hne & Hr1 & Hr2 & E)];
    rewrite E; [exact I|].
  apply defined_prepend.
  destruct (fork o =? CHILD).
  { pose proof (runCommand_child_ends o c
                  (with_fds (<[stdIn := f0]> (<[stdOut := f1]> (fds g))) g)) as Hends.
    destruct (runCommand_child o c _); simpl in *; auto.
    exact (Hends prog rest Hargv). }
  destruct (CHILD <? fork o); [|exact I].
  assert (Hne0 : stdOut ≠ STDIN_FILENO ∧ stdOut ≠ STDOUT_FILENO
                 ∧ stdIn ≠ STDIN_FILENO ∧ stdIn ≠ STDOUT_FILENO)
    by (split_and!; congruence).
  destruct Hne0 as (? & ? & ? & ?).
  rewrite (runCommand_parent_exact o c _ stdOut stdIn (fork o) f0 f1);
    cbn [with_fds fds backProcs]; try assumption;
    try (simplify_map_eq; reflexivity).
  unfold after_launch. cbn [with_fds backProcs].
  destruct (background (fst c)); [|exact I].
  destruct (free_slot_room (backProcs g)) as [k ->]; [rewrite Hlen; auto | exact I].
Qed.

(** The first argument of a parsed command heads the vector that the
    child executes, when the line has two characters or more. *)
Lemma parse_argv_head pid disabled buffer c r a0 :
  parse pid disabled buffer = Some (c, r) →
  args c !! 0%nat = Some (Some a0) →
  (2 <= strlen buffer)%nat →
  ∃ rest, argv r (args c) = Some (arg_string r a0 :: rest).
Proof.
  intros H Ha Hn.
  destruct (parse_shape _ _ _ _ _ H) as (q & _ & _ & Hargs & _ & Hcount & _).
  rewrite Hargs in Ha |- *. rewrite argv_stored by lia.
  destruct q as [|t q].
  - unfold stored in Ha. simpl in Ha. apply lookup_replicate in Ha as [Ha _]. discriminate.
  - unfold stored in Ha. cbn in Ha. injection Ha as <-.
    exists (reads r <$> q). cbn [fmap list_fmap]. f_equal. f_equal.
    unfold reads, arg_string. destruct (has_dollars t); reflexivity.
Qed.

Lemma parse_args_length pid disabled buffer c r :
  parse pid disabled buffer = Some (c, r) → length (args c) = strlen buffer.
Proof.
  intros H. destruct (parse_shape _ _ _ _ _ H) as (q & _ & _ & Hargs & Hle & _).
  rewrite Hargs. now apply stored_length.
Qed.

(** A pass stays inside its objects when the line has two characters or
    more, is parsed, and the job table has room. *)
Lemma runShell_body_defined (o : os) (buffer : string) g (f0 f1 : file) :
  length (backProcs g) = MAX_PROCS →
  fds g !! STDIN_FILENO = Some f0 → fds g !! STDOUT_FILENO = Some f1 →
  (2 <= strlen buffer)%nat →
  is_Some (parse (getpid o) (backgroundDisabled g) buffer) →
  (occupied (backProcs g) < MAX_PROCS)%nat →
  defined (runShell_body o buffer g).
Proof.
  intros Hlen H0 H1 Hn [[c r] Hparse] Hroom. unfold runShell_body.
  rewrite bind_get, Hparse. cbn [fst snd].
  pose proof (parse_args_length _ _ _ _ _ Hparse) as Hargs.
  destruct (args c !! 0%nat) as [[a0|]|] eqn:Ha0; [| exact I |].
  2:{ apply lookup_ge_None in Ha0. lia. }
  destruct (String.eqb "exit" (arg_string r a0)).
  { rewrite exitShell_spec by assumption. exact I. }
  destruct (String.eqb "cd" (arg_string r a0)).
  { destruct (args c !! 1%nat) as [a1|] eqn:Ha1.
    - rewrite changeDir_spec. exact I.
    - apply lookup_ge_None in Ha1. lia. }
  destruct (String.eqb "status" (arg_string r a0)).
  { rewrite printStatus_spec. exact I. }
  destruct (parse_argv_head _ _ _ _ _ _ Hparse Ha0 Hn) as [rest Hargv].
  apply defined_bind.
  - eapply (runCommand_defined o (c, r)); eauto.
  - intros; exact I.
Qed.

(** ** Further lemmas *)

Lemma forks_In (x : Z) (tr : list event) : In x (forks tr) ↔ In (Fork x) tr.
Proof.
  induction tr as [|e tr IH]; [reflexivity|].
  assert (Hskip : (∀ r, e ≠ Fork r) → forks (e :: tr) = forks tr)
    by (intros He; destruct e as [| | | |v| |]; try reflexivity; now destruct (He v)).
  destruct e as [| | | |v| |];
    try (rewrite Hskip by discriminate; rewrite IH; simpl;
         split; [auto | intros [?|?]; [discriminate | assumption]]).
  change (forks (Fork v :: tr)) with (v :: forks tr). simpl. rewrite IH.
  split; intros [?|?]; auto; left; congruence.
Qed.

(** The exit-code byte is a byte. *)
Lemma WEXITSTATUS_range (w : Z) : 0 ≤ WEXITSTATUS w ≤ 255.
Proof.
  unfold WEXITSTATUS. rewrite Z.shiftr_land.
  change (Z.shiftr 65280 8) with (Z.ones 8). rewrite Z.land_ones by lia.
  pose proof (Z.mod_pos_bound (Z.shiftr w 8) (2 ^ 8)). change (2 ^ 8) with 256 in *. lia.
Qed.


(** *** [fgets] *)

Lemma fgets_from_split : ∀ n stdin,
  (fst (fgets_from n stdin) ++ snd (fgets_from n stdin))%string = stdin
  ∧ (String.length (fst (fgets_from n stdin)) <= n)%nat.
Proof.
  induction n as [|n IH]; intros stdin.
  - destruct stdin; simpl; rewrite ?append_empty; auto.
  - destruct stdin as [|c rest]; [simpl; auto; split; [reflexivity | lia]|].
    cbn [fgets_from]. destruct (Ascii.eqb c NEWLINE).
    + cbn [fst snd]. rewrite append_String, append_empty. simpl. split; [reflexivity | lia].
    + destruct (IH rest) as [E Hlen]. destruct (fgets_from n rest) as [b r].
      cbn [fst snd] in *. rewrite append_String, E. simpl. split; [reflexivity | lia].
Qed.

Lemma fgets_from_nonempty (n : nat) (stdin : string) :
  stdin ≠ EmptyString → fst (fgets_from (S n) stdin) ≠ EmptyString.
Proof.
  destruct stdin as [|c rest]; [congruence|]. intros _. cbn [fgets_from].
  destruct (Ascii.eqb c NEWLINE); [discriminate|].
  destruct (fgets_from n rest). discriminate.
Qed.

(** A line that fits is read up to and including its newline. *)
Lemma fgets_from_line (line rest : string) : ∀ n,
  all_chars (λ c, negb (Ascii.eqb c NEWLINE)) line = true →
  (String.length line < n)%nat →
  fgets_from n (line ++ newline ++ rest) = ((line ++ newline)%string, rest).
Proof.
  induction line as [|c line IH]; intros n Hall Hlen.
  - destruct n; [simpl in Hlen; lia|]. rewrite !append_empty. reflexivity.
  - destruct n; [simpl in Hlen; lia|]. simpl in Hall, Hlen.
    apply andb_true_iff in Hall as [Hc Hall]. apply negb_true_iff in Hc.
    rewrite !append_String. cbn [fgets_from]. rewrite Hc, IH by (assumption || lia).
    reflexivity.
Qed.

(** A line that does not fit is cut. *)
Lemma fgets_from_cut (chunk rest : string) :
  all_chars (λ c, negb (Ascii.eqb c NEWLINE)) chunk = true →
  fgets_from (String.length chunk) (chunk ++ rest) = (chunk, rest).
Proof.
  induction chunk as [|c chunk IH]; intros Hall.
  - rewrite append_empty. reflexivity.
  - simpl in Hall. apply andb_true_iff in Hall as [Hc Hall]. apply negb_true_iff in Hc.
    rewrite append_String. cbn [String.length fgets_from]. rewrite Hc, IH by assumption.
    reflexivity.
Qed.

(** *** The status that the reaper leaves *)

Lemma reap_final_none (w : nat → Z * Z) : ∀ t i status,
  (∀ j x, t !! j = Some x → reaped w (i + j) x = false) →
  reap_final w i t status = status.
Proof.
  induction t as [|x t IH]; intros i status H; [reflexivity|].
  cbn [reap_final]. unfold reap_status.
  pose proof (H 0%nat x eq_refl) as H0. rewrite Nat.add_0_r in H0. rewrite H0.
  apply IH. intros j y Hj. specialize (H (S j) y Hj).
  now replace (S i + j)%nat with (i + S j)%nat by lia.
Qed.

Lemma reap_final_last (w : nat → Z * Z) : ∀ t1 i status p t2,
  0 < fst (w (i + length t1)%nat) →
  (∀ j x, t2 !! j = Some x → reaped w (i + length t1 + S j) x = false) →
  reap_final w i (t1 ++ Some p :: t2) status = snd (w (i + length t1)%nat).
Proof.
  induction t1 as [|x t1 IH]; intros i status p t2 Hw Hrest.
  - cbn [app length reap_final] in *. rewrite Nat.add_0_r in *.
    unfold reap_status, reaped. destruct (Z.ltb_spec 0 (fst (w i))); [|lia].
    apply reap_final_none. intros j y Hj. specialize (Hrest j y Hj).
    now replace (S i + j)%nat with (i + S j)%nat by lia.
  - cbn [app length reap_final] in *.
    replace (i + S (length t1))%nat with (S i + length t1)%nat in * by lia.
    now apply IH.
Qed.

(** *** The line behind a first argument *)

(** A first argument of two characters or more comes from a line of two
    characters or more. *)
Lemma parse_first_argument_length pid disabled buffer c r a0 :
  parse pid disabled buffer = Some (c, r) →
  args c !! 0%nat = Some (Some a0) →
  (2 <= String.length (arg_string r a0))%nat →
  (2 <= strlen buffer)%nat.
Proof.
  intros H Ha Hlen.
  destruct (parse_shape _ _ _ _ _ H) as (q & Hsub & _ & Hargs & _ & _ & _).
  rewrite Hargs in Ha. destruct q as [|t q].
  - unfold stored in Ha. simpl in Ha. apply lookup_replicate in Ha as [Ha _]. discriminate.
  - unfold stored in Ha. cbn in Ha. injection Ha as <-.
    assert (Hin : t ∈ strtok_all buffer).
    { eapply elem_of_sublist; [left | exact Hsub]. }
    pose proof (strtok_all_lengths buffer) as Hall.
    rewrite List.Forall_forall in Hall. apply list_elem_of_In in Hin.
    specialize (Hall t Hin). cbv beta in Hall.
    unfold has_dollars in Hlen. destruct (strstr_dollars t) as [replace|] eqn:Hd.
    + apply strstr_dollars_split in Hd as [Hd _]. lia.
    + simpl in Hlen. lia.
Qed.

(** ** The child *)

(** X7.  The child of [runCommand] never comes back into the loop of the
    shell: whatever the command and the descriptors, it ends by [execvp]
    of the argument vector -- which is then terminated and not empty --
    or by [exit] with status 1; and it stays inside [args] whenever the
    array holds such a vector. *)
Theorem child_never_returns (o : os) (c : command * string) (g : shell) :
  (∀ r g' tr, runCommand_child o c g ≠ Ret r g' tr) ∧
  (∀ code g' tr, runCommand_child o c g = Exited code g' tr → code = 1) ∧
  (∀ v g' tr, runCommand_child o c g = Execed v g' tr →
     argv (snd c) (args (fst c)) = Some v ∧ v ≠ [] ∧ execvp_ok o = true) ∧
  (∀ prog rest, argv (snd c) (args (fst c)) = Some (prog :: rest) →
     defined (runCommand_child o c g)).
Proof.
  pose proof (runCommand_child_ends o c g) as H.
  destruct (runCommand_child o c g) as [r g1 tr1|code g1 tr1|v g1 tr1|tr1];
    simpl in H; split_and!; try discriminate; try (intros; exact I).
  - destruct H.
  - intros code' g' tr [= <- _ _]. exact H.
  - intros v' g' tr [= <- _ _]. exact H.
  - intros prog rest Hargv. exact (H prog rest Hargv).
Qed.

(** X8.  The child of a foreground command with both redirections opens
    the output file first, for writing, truncated or created, and puts it
    on descriptor 1; then the input file, for reading, on descriptor 0;
    each temporary descriptor is closed again, so that no other
    descriptor changes; then it executes the program.  When the output
    file cannot be opened it prints "cannot open ... for output" and exits
    with status 1 before the input file is looked at; when the input file
    cannot be opened it prints "cannot open ... for input" and exits with
    status 1, the output file being open already.  With no redirection
    the program is executed on the descriptors as they are. *)
Theorem foreground_child_redirections
    (o : os) (c : command * string) (g : shell) :
  background (fst c) = false →
  is_Some (fds g !! STDIN_FILENO) → is_Some (fds g !! STDOUT_FILENO) →
  (∀ out inp, outputFile (fst c) = Some out → inputFile (fst c) = Some inp →
     runCommand_child o c g
     = match open_result o out [O_WRONLY; O_TRUNC; O_CREAT] (fds g) with
       | None => Exited 1 g [Print ("cannot open " ++ out ++ " for output" ++ newline)]
       | Some n =>
           let g1 := with_fds (<[STDOUT_FILENO := Opened out [O_WRONLY; O_TRUNC; O_CREAT]]>
                                 (fds g)) g in
           match open_result o inp [O_RDONLY] (fds g1) with
           | None => Exited 1 g1
                       [Dup2 n STDOUT_FILENO;
                        Print ("cannot open " ++ inp ++ " for input" ++ newline)]
           | Some m =>
               prepend [Dup2 n STDOUT_FILENO; Dup2 m STDIN_FILENO]
                 (exec_outcome o c
                    (with_fds (<[STDIN_FILENO := Opened inp [O_RDONLY]]> (fds g1)) g1))
           end
       end) ∧
  (outputFile (fst c) = None → inputFile (fst c) = None →
   runCommand_child o c g = exec_outcome o c g).
Proof.
  intros Hbg H0 H1. rewrite (runCommand_child_foreground o c g Hbg H0 H1). cbv zeta.
  split.
  - intros out inp -> ->.
    destruct (open_result o out [O_WRONLY; O_TRUNC; O_CREAT] (fds g)) as [n|];
      [|reflexivity].
    unfold redirected. cbn [with_fds fds].
    destruct (open_result o inp [O_RDONLY] _) as [m|]; [|reflexivity].
    now rewrite prepend_prepend.
  - now intros -> ->.
Qed.

(** X9.  The child of a background command never opens a file named on
    the line: a stream for which a file is named is left as it is, and a
    stream for which none is named is redirected to /dev/null -- standard
    output first, opened for writing, then standard input, opened for
    reading.  When /dev/null cannot be opened the child prints "error:
    cannot complete command" and exits with status 1. *)
Theorem background_child_redirections
    (o : os) (c : command * string) (g : shell) :
  background (fst c) = true →
  is_Some (fds g !! STDIN_FILENO) → is_Some (fds g !! STDOUT_FILENO) →
  (∀ out inp, outputFile (fst c) = Some out → inputFile (fst c) = Some inp →
     runCommand_child o c g = exec_outcome o c g) ∧
  (∀ out, outputFile (fst c) = Some out → inputFile (fst c) = None →
     runCommand_child o c g
     = match open_result o DEV_NULL [O_RDONLY] (fds g) with
       | None => Exited 1 g [Print ("error: cannot complete command" ++ newline)]
       | Some m =>
           prepend [Dup2 m STDIN_FILENO]
             (exec_outcome o c
                (with_fds (<[STDIN_FILENO := Opened DEV_NULL [O_RDONLY]]> (fds g)) g))
       end) ∧
  (∀ inp, outputFile (fst c) = None → inputFile (fst c) = Some inp →
     runCommand_child o c g
     = match open_result o DEV_NULL [O_WRONLY] (fds g) with
       | None => Exited 1 g [Print ("error: cannot complete command" ++ newline)]
       | Some n =>
           prepend [Dup2 n STDOUT_FILENO]
             (exec_outcome o c
                (with_fds (<[STDOUT_FILENO := Opened DEV_NULL [O_WRONLY]]> (fds g)) g))
       end) ∧
  (outputFile (fst c) = None → inputFile (fst c) = None →
   runCommand_child o c g
   = match open_result o DEV_NULL [O_WRONLY] (fds g) with
     | None => Exited 1 g [Print ("error: cannot complete command" ++ newline)]
     | Some n =>
         let g1 := with_fds (<[STDOUT_FILENO := Opened DEV_NULL [O_WRONLY]]> (fds g)) g in
         match open_result o DEV_NULL [O_RDONLY] (fds g1) with
         | None => Exited 1 g1
                     [Dup2 n STDOUT_FILENO;
                      Print ("error: cannot complete command" ++ newline)]
         | Some m =>
             prepend [Dup2 n STDOUT_FILENO; Dup2 m STDIN_FILENO]
               (exec_outcome o c
                  (with_fds (<[STDIN_FILENO := Opened DEV_NULL [O_RDONLY]]> (fds g1)) g1))
         end
     end).
Proof.
  intros Hbg H0 H1. rewrite (runCommand_child_background o c g Hbg H0 H1). cbv zeta.
  split_and!.
  - now intros out inp -> ->.
  - intros out -> ->. unfold redirected.
    destruct (open_result o DEV_NULL [O_RDONLY] (fds g)); reflexivity.
  - intros inp -> ->. unfold redirected.
    destruct (open_result o DEV_NULL [O_WRONLY] (fds g)); reflexivity.
  - intros -> ->.
    destruct (open_result o DEV_NULL [O_WRONLY] (fds g)) as [n|]; [|reflexivity].
    unfold redirected. cbn [with_fds fds].
    destruct (open_result o DEV_NULL [O_RDONLY] _) as [m|]; [|reflexivity].
    now rewrite prepend_prepend.
Qed.

(** ** The launcher *)


(** X11.  With all fifty slots of the job table occupied, launching one
    more background command forks the child and then, looking for an empty
    slot, reads [backProcs] past its end: the child runs, and the shell is
    outside the array. *)
Theorem full_table_overrun
    (o : os) (c : command * string) (g : shell) (f0 f1 : file) :
  length (backProcs g) = MAX_PROCS →
  occupied (backProcs g) = MAX_PROCS →
  fds g !! STDIN_FILENO = Some f0 → fds g !! STDOUT_FILENO = Some f1 →
  Z.of_nat (size (fds g)) + 1 < open_max o →
  CHILD < fork o →
  background (fst c) = true →
  runCommand o c g = Undefined [Fork (fork o)]
  ∧ ∀ pid, saveProcess pid g = Undefined [].
Proof.
  intros Hlen Hocc H0 H1 Hmax Hfork Hbg.
  assert (Hfull : free_slot (backProcs g) = None) by (apply free_slot_full; lia).
  split.
  - destruct (runCommand_forks o c g f0 f1 H0 H1 Hmax)
      as (stdOut & stdIn & HfO & HfI & Hne & Hrun).
    rewrite Hrun. destruct (Z.eqb_spec (fork o) CHILD); [lia|].
    destruct (Z.ltb_spec CHILD (fork o)); [|lia].
    rewrite (runCommand_parent_exact o c _ stdOut stdIn (fork o) f0 f1);
      cbn [with_fds fds backProcs]; try assumption;
      try (simplify_map_eq; reflexivity).
    unfold after_launch. cbn [with_fds backProcs]. now rewrite Hbg, Hfull.
  - intros pid. rewrite saveProcess_spec by assumption. now rewrite Hfull.
Qed.

(** ** Passes of the loop *)

(** X12.  A pass that launches a command records a byte: for a foreground
    command the exit-code byte of the status its wait stored; for a
    background command that byte of the status recorded before, so that
    the value is 0 whenever the status recorded before was a byte itself.
    This is the number that the built-in [status] prints next. *)
Theorem launch_records_the_exit_byte
    (o : os) (buffer : string) (g : shell) (f0 f1 : file) (g' : shell)
    (tr : list event) :
  length (backProcs g) = MAX_PROCS →
  fds g !! STDIN_FILENO = Some f0 → fds g !! STDOUT_FILENO = Some f1 →
  runShell_body o buffer g = Ret tt g' tr →
  forks tr ≠ [] →
  ∃ c, parse (getpid o) (backgroundDisabled g) buffer = Some c
       ∧ forks tr = [fork o]
       ∧ exitStatus g'
         = WEXITSTATUS (if background (fst c) then exitStatus g
                        else if 0 <? fst (waitpid o) then snd (waitpid o)
                             else exitStatus g)
       ∧ 0 ≤ exitStatus g' ≤ 255
       ∧ (background (fst c) = true → 0 ≤ exitStatus g ≤ 255 → exitStatus g' = 0)
       ∧ printStatus g'
         = Ret tt g' [Print ("exit value " ++ sprintf_d (exitStatus g') ++ newline)].
Proof.
  intros Hlen H0 H1 Hrun Hforks.
  destruct (runShell_body_Ret o buffer g f0 f1 g' tr Hlen H0 H1 Hrun)
    as [[_ Hnone]|(c & stdOut & stdIn & g1 & Hparse & _ & _ & _ & _ & _ & _ & _ & _
                   & Hafter & -> & ->)]; [congruence|].
  exists c. cbn [with_exitStatus exitStatus].
  assert (Hst : exitStatus g1
                = if background (fst c) then exitStatus g
                  else if 0 <? fst (waitpid o) then snd (waitpid o) else exitStatus g).
  { unfold after_launch in Hafter. cbn [with_fds backProcs exitStatus] in Hafter.
    destruct (background (fst c)).
    - destruct (free_slot (backProcs g)); [|discriminate]. now injection Hafter as <-.
    - now injection Hafter as <-. }
  rewrite Hst.
  split; [assumption|]. split.
  { change (forks (Fork (fork o) :: launch_events (fst c) (fork o) stdOut stdIn))
      with (fork o :: forks (launch_events (fst c) (fork o) stdOut stdIn)).
    now rewrite forks_launch_events. }
  split; [reflexivity|]. split; [apply WEXITSTATUS_range|]. split.
  - intros -> Hb. apply WEXITSTATUS_small. lia.
  - apply printStatus_spec.
Qed.

(** X13.  The built-ins [status] and [cd] run in the shell itself: when
    the first argument of the line is one of them, nothing is forked and
    the globals are left as they are, whatever else the line holds --
    redirections, [&], further arguments.  [status] prints the value
    recorded; [cd] changes to its first argument, or to [$HOME] when it
    has none, and when that fails it prints an error, records nothing and
    the shell goes on. *)
Theorem builtins_run_in_the_shell
    (o : os) (buffer : string) (g : shell) (c : command * string) (a0 : argptr) :
  parse (getpid o) (backgroundDisabled g) buffer = Some c →
  args (fst c) !! 0%nat = Some (Some a0) →
  (arg_string (snd c) a0 = "status" →
   runShell_body o buffer g
   = Ret tt g [Print ("exit value " ++ sprintf_d (exitStatus g) ++ newline)]) ∧
  (arg_string (snd c) a0 = "cd" →
   ∃ a1, args (fst c) !! 1%nat = Some a1 ∧
         runShell_body o buffer g
         = let target := match a1 with
                         | Some a => Some (arg_string (snd c) a)
                         | None => getenv_HOME o
                         end in
           Ret tt g (Chdir target (chdir o target)
                     :: if chdir o target =? -1 then [Perror "Error:"] else [])).
Proof.
  intros Hparse Ha0. unfold runShell_body. rewrite bind_get, Hparse, Ha0. split.
  - intros ->. cbn. apply printStatus_spec.
  - intros Hcd. rewrite Hcd. cbn.
    destruct c as [c r]. cbn [fst snd] in *.
    assert (Hn : (2 <= strlen buffer)%nat).
    { eapply parse_first_argument_length; [exact Hparse | exact Ha0 |].
      rewrite Hcd. simpl. lia. }
    pose proof (parse_args_length _ _ _ _ _ Hparse) as Hlen.
    destruct (args c !! 1%nat) as [a1|] eqn:Ha1.
    + exists a1. split; [reflexivity|]. rewrite changeDir_spec.
      destruct a1; reflexivity.
    + apply lookup_ge_None in Ha1. lia.
Qed.

(** X14.  A pass of the loop stays inside [args], [res] and [backProcs]
    when the line read has two characters or more, the expansion of each
    of its tokens with [$$] fits [res], and the job table has an empty
    slot. *)
Theorem pass_stays_in_bounds
    (o : os) (buffer : string) (g : shell) (f0 f1 : file) :
  length (backProcs g) = MAX_PROCS →
  fds g !! STDIN_FILENO = Some f0 → fds g !! STDOUT_FILENO = Some f1 →
  (2 <= strlen buffer)%nat →
  (∀ t, In t (strtok_all buffer) → has_dollars t = true →
        (String.length (expand_first (getpid o) t) < MAX_LENGTH)%nat) →
  (occupied (backProcs g) < MAX_PROCS)%nat →
  defined (runShell_body o buffer g).
Proof.
  intros Hlen H0 H1 Hn Hfit Hroom.
  apply (runShell_body_defined o buffer g f0 f1); try assumption.
  destruct (parse (getpid o) (backgroundDisabled g) buffer) as [c|] eqn:Hparse; [eauto|].
  exfalso. unfold parse, getCommand in Hparse.
  destruct (getCommand_loop (getpid o) (backgroundDisabled g) (strtok_all buffer)
              (start (blank (strlen buffer)))) as [st|] eqn:Hrun; [discriminate|].
  destruct (getCommand_loop_fault (getpid o) (backgroundDisabled g) (strtok_all buffer)
              (start (blank (strlen buffer))))
    as (t & replace & Hin & Hfind & Hnone); [|exact Hrun|].
  - cbn [start blank cmd args i]. rewrite length_replicate.
    pose proof (strtok_all_count buffer). lia.
  - pose proof (expand_pid_None _ _ _ Hfind Hnone).
    specialize (Hfit t Hin (has_dollars_Some _ _ Hfind)). lia.
Qed.

(** *** The input *)

Lemma strtok_all_empty (buffer : string) : strlen buffer = 0%nat → strtok_all buffer = [].
Proof.
  unfold strlen, strtok_all. destruct buffer as [|c s]; [reflexivity|].
  cbn [cstr strtok_from]. destruct (Ascii.eqb c NUL); [reflexivity | discriminate].
Qed.

Lemma runShell_init_from : ∀ n i g,
  length (backProcs g) = (i + n)%nat →
  for_from i n runShell_init_body g
  = Ret tt (with_backProcs (take i (backProcs g) ++ replicate n None) g) [].
Proof.
  induction n as [|n IH]; intros i g Hlen.
  - rewrite take_ge by lia. cbn [for_from replicate].
    rewrite app_nil_r. destruct g; reflexivity.
  - rewrite for_from_S.
    assert (Hbody : runShell_init_body i g
                    = Ret tt (with_backProcs (<[i := None]> (backProcs g)) g) []).
    { unfold runShell_init_body. rewrite bind_get.
      destruct (Nat.ltb_spec i (length (backProcs g))); [reflexivity | lia]. }
    rewrite (bind_Ret _ _ _ _ _ _ Hbody), prepend_nil.
    rewrite IH by (cbn [with_backProcs backProcs]; rewrite length_insert; lia).
    cbn [with_backProcs backProcs].
    rewrite (take_S_r _ _ None) by (apply list_lookup_insert_eq; lia).
    rewrite take_insert_ge by lia.
    cbn [replicate]. now rewrite <- app_assoc.
Qed.

(** X15.  At the end of the input the shell does not leave its loop:
    [fgets] stores nothing, the array allocated for [args] has no entry,
    and the test of [args[0]] reads outside it.  The same holds for any
    line whose first character is NUL.  So [runShell], after clearing the
    job table, prints its prompt and is outside the array. *)
Theorem end_of_input (o : os) (g : shell) :
  (∀ buffer, strlen buffer = 0%nat → runShell_body o buffer g = Undefined []) ∧
  fgets MAX_LENGTH EmptyString = (EmptyString, EmptyString) ∧
  runShell_pass o EmptyString g = Undefined [Print ": "] ∧
  (∀ answers, length (backProcs g) = MAX_PROCS →
     runShell (o :: answers) EmptyString g = Undefined [Print ": "]).
Proof.
  assert (Hbody : ∀ g buffer, strlen buffer = 0%nat →
                    runShell_body o buffer g = Undefined []).
  { intros g0 buffer Hn. unfold runShell_body, parse, getCommand.
    rewrite bind_get, (strtok_all_empty buffer Hn), Hn. reflexivity. }
  assert (Hpass : ∀ g, runShell_pass o EmptyString g = Undefined [Print ": "]).
  { intros g0. rewrite runShell_pass_spec.
    change (fgets MAX_LENGTH EmptyString) with (EmptyString, EmptyString).
    cbn [fst snd]. unfold mbind, M_bind, bind. now rewrite Hbody. }
  split_and!; [apply Hbody | reflexivity | apply Hpass |].
  intros answers Hlen. unfold runShell, for_upto.
  rewrite (bind_Ret _ _ _ _ _ _ (runShell_init_from MAX_PROCS 0 g Hlen)), prepend_nil.
  cbn [runShell_loop]. unfold mbind at 1, M_bind at 1, bind at 1. now rewrite Hpass.
Qed.

(** X16.  A pass reads at most 2047 characters: a line that with its
    newline fits is read whole, and the input after it is left for the
    next pass; a line of 2047 characters or more before its newline is cut
    after the 2047th, the pass parses that piece as a command, and what
    follows is left to be read as the next command.  Nothing of the input
    is lost, and a pass reads at least one character while there is
    input. *)
Theorem long_lines_are_cut (o : os) (g : shell) (stdin : string) :
  ((fst (fgets MAX_LENGTH stdin) ++ snd (fgets MAX_LENGTH stdin))%string = stdin
   ∧ (String.length (fst (fgets MAX_LENGTH stdin)) <= 2047)%nat
   ∧ (stdin ≠ EmptyString → fst (fgets MAX_LENGTH stdin) ≠ EmptyString)) ∧
  (∀ line rest,
     all_chars (λ c, negb (Ascii.eqb c NEWLINE)) line = true →
     (String.length line <= 2046)%nat →
     stdin = (line ++ newline ++ rest)%string →
     runShell_pass o stdin g
     = prepend [Print ": "] ((runShell_body o (line ++ newline) ;; ret rest) g)) ∧
  (∀ piece rest,
     all_chars (λ c, negb (Ascii.eqb c NEWLINE)) piece = true →
     String.length piece = 2047%nat →
     stdin = (piece ++ rest)%string →
     runShell_pass o stdin g
     = prepend [Print ": "] ((runShell_body o piece ;; ret rest) g)).
Proof.
  split; [|split].
  - unfold fgets. change (MAX_LENGTH - 1)%nat with 2047%nat.
    destruct (fgets_from_split 2047 stdin) as [E Hlen].
    split; [exact E | split; [exact Hlen | apply fgets_from_nonempty]].
  - intros line rest Hall Hlen ->. rewrite runShell_pass_spec. unfold fgets.
    change (MAX_LENGTH - 1)%nat with 2047%nat.
    rewrite fgets_from_line by (assumption || lia). reflexivity.
  - intros piece rest Hall Hlen ->. rewrite runShell_pass_spec. unfold fgets.
    change (MAX_LENGTH - 1)%nat with 2047%nat.
    rewrite <- Hlen, fgets_from_cut by assumption. reflexivity.
Qed.

(** ** The handlers *)

Lemma reap_none (w : nat → Z * Z) : ∀ t i,
  (∀ j p, t !! j = Some (Some p) → fst (w (i + j)%nat) ≤ 0) →
  reap_table w i t = t ∧ reap_trace w i t = [].
Proof.
  induction t as [|x t IH]; intros i H; [split; reflexivity|].
  destruct (IH (S i)) as [E1 E2].
  { intros j p Hj. replace (S i + j)%nat with (i + S j)%nat by lia.
    exact (H (S j) p Hj). }
  cbn [reap_table reap_trace]. rewrite E1, E2, app_nil_r.
  destruct x as [p|]; [|split; reflexivity].
  pose proof (H 0%nat p eq_refl) as H0. rewrite Nat.add_0_r in H0.
  unfold reap_slot, reaped, reap_events.
  destruct (Z.ltb_spec 0 (fst (w i))); [lia|]. split; reflexivity.
Qed.

(** X17.  The reaper records in [exitStatus] the status that [waitpid]
    stored for the last slot it reaps, as [waitpid] stored it: a run that
    finds no job terminated prints nothing and leaves every global as it
    was, and otherwise the value recorded is the status of the highest
    slot reaped, which the built-in [status] then prints as an exit
    value. *)
Theorem reaper_overwrites_status (w : nat → Z * Z) (sigNum : Z) (g : shell) :
  length (backProcs g) = MAX_PROCS →
  ∃ g', childTerminates w sigNum g = Ret tt g' (reap_trace w 0 (backProcs g)) ∧
        printStatus g'
        = Ret tt g' [Print ("exit value " ++ sprintf_d (exitStatus g') ++ newline)] ∧
        ((∀ i p, backProcs g !! i = Some (Some p) → fst (w i) ≤ 0) →
         g' = g ∧ reap_trace w 0 (backProcs g) = []) ∧
        (∀ i p, backProcs g !! i = Some (Some p) → 0 < fst (w i) →
           (∀ j q, (i < j)%nat → backProcs g !! j = Some (Some q) → fst (w j) ≤ 0) →
           exitStatus g' = snd (w i)).
Proof.
  intros Hlen. eexists. split; [apply childTerminates_spec; assumption|].
  cbn [with_backProcs with_exitStatus exitStatus]. split_and!.
  - apply printStatus_spec.
  - intros Hnone. destruct (reap_none w (backProcs g) 0 Hnone) as [E1 E2].
    split; [|exact E2]. rewrite E1, reap_final_none.
    + now destruct g.
    + intros j x Hj. simpl. destruct x as [p|]; [|reflexivity]. cbn [reaped].
      specialize (Hnone j p Hj). apply Z.ltb_ge. assumption.
  - intros i p Hi Hw Hrest.
    rewrite <- (take_drop_middle _ _ _ Hi).
    assert (Hti : length (take i (backProcs g)) = i).
    { rewrite length_take. apply lookup_lt_Some in Hi. lia. }
    rewrite (reap_final_last w (take i (backProcs g)) 0); rewrite Hti; simpl;
      [reflexivity | assumption |].
    intros j x Hj. destruct x as [q|]; [|reflexivity]. cbn [reaped].
    apply Z.ltb_ge. apply (Hrest (i + S j)%nat q); [lia|].
    rewrite <- (take_drop_middle _ _ _ Hi).
    rewrite lookup_app_r by (rewrite Hti; lia). rewrite Hti.
    replace (i + S j - i)%nat with (S j) by lia. exact Hj.
Qed.

(** ** Histories *)

(** X18.  After every history of passes and handler runs the job table
    has its fifty slots, and every record in it is marked active and holds
    a positive pid that a [fork] of the shell has returned.  So the reaper
    and [exitShell] always run to their end inside the table. *)
Theorem job_table_in_every_history
    (h : list input) (g : shell) (stdin : string) (tr : list event) :
  reaches h g stdin tr →
  length (backProcs g) = MAX_PROCS ∧
  (∀ i p, backProcs g !! i = Some (Some p) →
          active p = true ∧ 0 < backPID p ∧ In (Fork (backPID p)) tr) ∧
  (∀ w sigNum, ∃ g' tr', childTerminates w sigNum g = Ret tt g' tr') ∧
  (∃ g' tr', exitShell g = Exited EXIT_SUCCESS g' tr').
Proof.
  intros H. destruct (reaches_inv _ _ _ _ H) as (Hlen & Hjobs & _).
  split_and!.
  - exact Hlen.
  - intros i p Hi. destruct (Hjobs i p Hi) as (Ha & Hp & Hin).
    split_and!; try assumption. now apply forks_In.
  - intros w sigNum. eexists _, _. now apply childTerminates_spec.
  - eexists _, _. now apply exitShell_spec.
Qed.

(** X19.  The shell never redirects its own streams and never closes a
    descriptor: after every history descriptors 0 and 1 refer to what the
    shell inherited, the open descriptors are 0, 1, 2, ... in a row, and
    there are two more of them for every [fork] made.  So once fewer than
    two descriptors are left below the limit, the next command makes the
    shell print an error and exit with status 1 without forking. *)
Theorem shell_keeps_its_descriptors
    (h : list input) (g : shell) (stdin : string) (tr : list event) :
  reaches h g stdin tr →
  fds g !! STDIN_FILENO = Some (Inherited 0) ∧
  fds g !! STDOUT_FILENO = Some (Inherited 1) ∧
  contiguous (fds g) ∧
  size (fds g) = (3 + 2 * length (forks tr))%nat ∧
  (∀ o c, open_max o ≤ 4 + 2 * Z.of_nat (length (forks tr)) →
          ∃ g1, runCommand o c g = Exited EXIT_FAILURE g1 [Perror "Error"]).
Proof.
  intros H.
  destruct (reaches_inv _ _ _ _ H) as (Hlen & _ & H0 & H1 & Hc & Hsize & _).
  split_and!; try assumption.
  intros o c Hmax.
  destruct (runCommand_cases o c g _ _ H0 H1)
    as [(g1 & E & _)|(stdOut & stdIn & Hl1 & Hl2 & _ & _ & _ & Hr1 & Hr2 & _)];
    [eauto|].
  exfalso. rewrite (lowest_free_contiguous _ Hc) in Hl1. injection Hl1 as <-.
  destruct (contiguous_insert (fds g) (Inherited 1) Hc) as (Hc1 & Hs1 & _).
  rewrite (lowest_free_contiguous _ Hc1), Hs1 in Hl2. injection Hl2 as <-. lia.
Qed.

(** X20.  SIGINT runs [interruptSignal], which sends SIGKILL to the pid
    in [forePID], prints "terminated by signal 2" and changes nothing.
    After every history that pid is either -1 -- so that the handler
    calls [kill (-1, SIGKILL)] -- or a positive pid that a [fork] of the
    shell returned, whether or not that child still runs; it is -1 as
    long as the shell has forked nothing. *)
Theorem interrupt_kills_last_foreground
    (h : list input) (g : shell) (stdin : string) (tr : list event)
    (w : nat → Z * Z) :
  reaches h g stdin tr →
  deliver main_dispositions w SIGINT = Some (interruptSignal SIGINT) ∧
  interruptSignal SIGINT g
  = Ret tt g [Kill (forePID g) SIGKILL;
              Print ("terminated by signal 2" ++ newline)] ∧
  (forePID g = -1 ∨ (0 < forePID g ∧ In (Fork (forePID g)) tr)) ∧
  (forks tr = [] → forePID g = -1).
Proof.
  intros H.
  destruct (reaches_inv _ _ _ _ H) as (_ & _ & _ & _ & _ & _ & Hfore & _).
  split_and!.
  - reflexivity.
  - apply interruptSignal_spec.
  - destruct Hfore as [?|[? Hin]]; [now left | right]. split; [assumption|].
    now apply forks_In.
  - intros Hnone. destruct Hfore as [?|[_ Hin]]; [assumption|].
    rewrite Hnone in Hin. destruct Hin.
Qed.

(** X21.  Background execution is disabled exactly after an odd number of
    deliveries of SIGTSTP: each of them runs [disableBackground], and
    nothing else in a history -- no pass of the loop, no other handler --
    changes the mode.  While it is disabled no line is parsed into a
    background command. *)
Theorem mode_follows_SIGTSTP
    (h : list input) (g : shell) (stdin : string) (tr : list event)
    (w : nat → Z * Z) :
  reaches h g stdin tr →
  deliver main_dispositions w SIGTSTP = Some (disableBackground SIGTSTP) ∧
  backgroundDisabled g = Nat.odd (toggles h) ∧
  (Nat.odd (toggles h) = true →
   ∀ pid buffer c r,
     parse pid (backgroundDisabled g) buffer = Some (c, r) → background c = false).
Proof.
  intros H.
  destruct (reaches_inv _ _ _ _ H) as (_ & _ & _ & _ & _ & _ & _ & Hmode).
  split_and!.
  - reflexivity.
  - exact Hmode.
  - intros Hodd pid buffer c r Hparse. rewrite Hmode, Hodd in Hparse.
    exact (parse_disabled _ _ _ _ Hparse).
Qed.

(** ** The further statements at concrete inputs *)

(** X1, at the words "ls" and "-la" and at a line with blanks around its
    words. *)
Lemma tokens_are_the_words_witness :
  strtok_all (unwords ["ls"; "-la"] ++ newline) = ["ls"; "-la"]
  ∧ Forall (λ t, word t = true) (strtok_all ("  echo   hi " ++ newline)).
Proof.
  split.
  - apply (tokens_are_the_words EmptyString ["ls"; "-la"]). repeat constructor.
  - apply (tokens_are_the_words ("  echo   hi " ++ newline) []).
Defined.

(** X2, at the line "ls -la /tmp". *)
Lemma line_of_plain_words_witness :
  ∃ c, parse 1234 true (unwords ["ls"; "-la"; "/tmp"] ++ newline) = Some (c, EmptyString)
       ∧ argv EmptyString (args c) = Some ["ls"; "-la"; "/tmp"]
       ∧ inputFile c = None ∧ outputFile c = None ∧ background c = false.
Proof.
  destruct (line_of_plain_words 1234 true ["ls"; "-la"; "/tmp"])
    as (c & H1 & _ & H3 & H4 & H5 & H6); [repeat constructor | repeat constructor |].
  exists c. auto.
Defined.

(** X3, at the line "echo a$$ > out b$$ &": both expanded arguments read
    the expansion of the second. *)
Lemma arguments_are_tokens_in_order_witness :
  ∃ c r q, parse 1234 false ("echo a$$ > out b$$ &" ++ newline) = Some (c, r)
           ∧ sublist q (strtok_all ("echo a$$ > out b$$ &" ++ newline))
           ∧ args c = stored (strlen ("echo a$$ > out b$$ &" ++ newline)) q
           ∧ r = last_res 1234 EmptyString q
           ∧ argv r (args c) = Some (reads r <$> q)
           ∧ argv r (args c) = Some ["echo"; "b1234"; "b1234"].
Proof.
  let v := eval vm_compute in (parse 1234 false ("echo a$$ > out b$$ &" ++ newline)) in
  lazymatch v with
  | Some (?c, ?r) =>
      assert (E : parse 1234 false ("echo a$$ > out b$$ &" ++ newline) = Some (c, r))
        by (vm_compute; reflexivity);
      destruct (arguments_are_tokens_in_order 1234 false _ c r E)
        as (q & Hsub & _ & Hargs & Hr & Hargv);
      exists c, r, q
  end.
  split_and!; try assumption.
  - apply Hargv. vm_compute. lia.
  - vm_compute. reflexivity.
Defined.

(** X4, at the line "ls -la # all files &". *)
Lemma comment_ends_the_parse_witness :
  ∃ c r, parse 1234 false ("ls -la # all files &" ++ newline) = Some (c, r)
         ∧ argv r (args c) = Some ["ls"; "-la"]
         ∧ background c = false.
Proof.
  let v := eval vm_compute in
      (scan 1234 false ["ls"; "-la"]
         (start (blank (strlen ("ls -la # all files &" ++ newline))))) in
  lazymatch v with
  | Next ?st1 =>
      exists (cmd st1), (res st1); split;
      [ apply (comment_ends_the_parse 1234 false ("ls -la # all files &" ++ newline)
                 ["ls"; "-la"] ["all"; "files"; "&"] "#" st1);
        vm_compute; reflexivity
      | split; vm_compute; reflexivity ]
  end.
Defined.

(** X5, at the line "sort < in > out1 > out2". *)
Lemma paths_follow_operators_witness :
  ∃ c r, parse 1234 false ("sort < in > out1 > out2" ++ newline) = Some (c, r)
         ∧ outputFile c = Some "out2"
         ∧ follows ">" "out2" (strtok_all ("sort < in > out1 > out2" ++ newline))
         ∧ follows "<" "in" (strtok_all ("sort < in > out1 > out2" ++ newline)).
Proof.
  let v := eval vm_compute in (parse 1234 false ("sort < in > out1 > out2" ++ newline)) in
  lazymatch v with
  | Some (?c, ?r) =>
      assert (E : parse 1234 false ("sort < in > out1 > out2" ++ newline) = Some (c, r))
        by (vm_compute; reflexivity);
      destruct (paths_follow_operators 1234 false _ c r E) as (Ho & Hi & _ & _);
      exists c, r
  end.
  split_and!; [assumption | reflexivity | now apply Ho | now apply Hi].
Defined.

(** X6, at a token of [$$] followed by 2045 letters, whose expansion by
    the pid 1234 has 2049 characters, and at the line "ls". *)
Lemma parse_faults_only_on_overflow_witness :
  (∃ t, In t (strtok_all ("$$" ++ string_of_list_ascii (repeat "a"%char 2045)))
        ∧ has_dollars t = true
        ∧ (MAX_LENGTH <= String.length (expand_first 1234 t))%nat)
  ∧ ∃ c r l, parse 1234 false ("ls" ++ newline) = Some (c, r)
             ∧ length (args c) = 3%nat ∧ argv r (args c) = Some l.
Proof.
  split.
  - apply (parse_faults_only_on_overflow 1234 false
             ("$$" ++ string_of_list_ascii (repeat "a"%char 2045))).
    vm_compute. reflexivity.
  - let v := eval vm_compute in (parse 1234 false ("ls" ++ newline)) in
    lazymatch v with
    | Some (?c, ?r) =>
        assert (E : parse 1234 false ("ls" ++ newline) = Some (c, r))
          by (vm_compute; reflexivity);
        destruct (proj2 (parse_faults_only_on_overflow 1234 false _) c r E)
          as (Hlen & Hargv & _);
        destruct Hargv as (l & Hl & _); [vm_compute; lia|];
        exists c, r, l
    end.
    split_and!; [assumption | exact Hlen | exact Hl].
Defined.

(** X7, at the child of the command "ls" in a fresh shell. *)
Lemma child_never_returns_witness :
  ∃ v g' tr,
    runCommand_child (answers 0 0)
      ({| args := [Some (Tok "ls"); None]; inputFile := None; outputFile := None;
          background := false |}, EmptyString) initial = Execed v g' tr
    ∧ argv EmptyString [Some (Tok "ls"); None] = Some v ∧ v ≠ [].
Proof.
  let c := constr:(({| args := [Some (Tok "ls"); None]; inputFile := None;
                       outputFile := None; background := false |}, EmptyString)) in
  let v := eval vm_compute in (runCommand_child (answers 0 0) c initial) in
  lazymatch v with
  | Execed ?v ?g' ?tr =>
      assert (E : runCommand_child (answers 0 0) c initial = Execed v g' tr)
        by (vm_compute; reflexivity);
      destruct (child_never_returns (answers 0 0) c initial) as (_ & _ & H & _);
      destruct (H v g' tr E) as (Hv & Hne & _);
      exists v, g', tr
  end.
  split_and!; assumption.
Defined.

(** X8, at the child of "sort < in.txt > out.txt" in a fresh shell. *)
Lemma foreground_child_redirections_witness :
  ∃ g',
    runCommand_child (answers 0 0)
      ({| args := [Some (Tok "sort"); None]; inputFile := Some "in.txt";
          outputFile := Some "out.txt"; background := false |}, EmptyString) initial
    = Execed ["sort"] g' [Dup2 3 1; Dup2 3 0]
    ∧ fds g' !! STDOUT_FILENO = Some (Opened "out.txt" [O_WRONLY; O_TRUNC; O_CREAT])
    ∧ fds g' !! STDIN_FILENO = Some (Opened "in.txt" [O_RDONLY])
    ∧ fds g' !! 2 = Some (Inherited 2) ∧ fds g' !! 3 = None.
Proof.
  eexists. split.
  - rewrite (proj1 (foreground_child_redirections (answers 0 0)
               ({| args := [Some (Tok "sort"); None]; inputFile := Some "in.txt";
                   outputFile := Some "out.txt"; background := false |}, EmptyString)
               initial eq_refl (ex_intro _ _ eq_refl) (ex_intro _ _ eq_refl))
               "out.txt" "in.txt" eq_refl eq_refl).
    vm_compute. reflexivity.
  - split_and!; vm_compute; reflexivity.
Defined.

(** X9, at the child of "sleep 5 > out.txt &": standard output is left on
    the terminal, standard input goes to /dev/null. *)
Lemma background_child_redirections_witness :
  ∃ g',
    runCommand_child (answers 0 0)
      ({| args := [Some (Tok "sleep"); Some (Tok "5"); None]; inputFile := None;
          outputFile := Some "out.txt"; background := true |}, EmptyString) initial
    = Execed ["sleep"; "5"] g' [Dup2 3 0]
    ∧ fds g' !! STDOUT_FILENO = Some (Inherited 1)
    ∧ fds g' !! STDIN_FILENO = Some (Opened DEV_NULL [O_RDONLY]).
Proof.
  eexists. split.
  - destruct (background_child_redirections (answers 0 0)
               ({| args := [Some (Tok "sleep"); Some (Tok "5"); None]; inputFile := None;
                   outputFile := Some "out.txt"; background := true |}, EmptyString)
               initial eq_refl (ex_intro _ _ eq_refl) (ex_intro _ _ eq_refl))
      as (_ & H & _).
    rewrite (H "out.txt" eq_refl eq_refl). vm_compute. reflexivity.
  - split; vm_compute; reflexivity.
Defined.


(** X11, at a shell that tracks fifty background jobs. *)
Lemma full_table_overrun_witness :
  ∃ g50 tr,
    run_jobs (Spawn <$> seqZ 1 50) initial = Ret tt g50 tr
    ∧ runCommand (answers 5000 0)
        ({| args := [Some (Tok "sleep"); Some (Tok "5"); None]; inputFile := None;
            outputFile := None; background := true |}, EmptyString) g50
      = Undefined [Fork 5000].
Proof.
  let r := eval vm_compute in (run_jobs (Spawn <$> seqZ 1 50) initial) in
  lazymatch r with
  | Ret _ ?g ?tr =>
      exists g, tr; split; [vm_compute; reflexivity|];
      apply (full_table_overrun (answers 5000 0) _ g (Inherited 0) (Inherited 1))
  end; try (vm_compute; reflexivity).
Defined.

(** X12, at "false", which exits with code 1, followed by "sleep 5 &". *)
Lemma launch_records_the_exit_byte_witness :
  ∃ g1 tr1 g2 tr2,
    runShell_body (answers 5000 256) ("false" ++ newline) initial = Ret tt g1 tr1
    ∧ exitStatus g1 = 1
    ∧ runShell_body (answers 5001 0) ("sleep 5 &" ++ newline) g1 = Ret tt g2 tr2
    ∧ exitStatus g2 = 0
    ∧ printStatus g2 = Ret tt g2 [Print ("exit value 0" ++ newline)].
Proof.
  let r1 := eval vm_compute in
      (runShell_body (answers 5000 256) ("false" ++ newline) initial) in
  lazymatch r1 with
  | Ret _ ?g1 ?tr1 =>
      let r2 := eval vm_compute in
          (runShell_body (answers 5001 0) ("sleep 5 &" ++ newline) g1) in
      lazymatch r2 with
      | Ret _ ?g2 ?tr2 =>
          assert (E2 : runShell_body (answers 5001 0) ("sleep 5 &" ++ newline) g1
                       = Ret tt g2 tr2) by (vm_compute; reflexivity);
          destruct (launch_records_the_exit_byte (answers 5001 0)
                      ("sleep 5 &" ++ newline) g1
                      (Inherited 0) (Inherited 1) g2 tr2)
            as (c & Hparse & _ & _ & _ & Hzero & Hprint);
          [ vm_compute; reflexivity | vm_compute; reflexivity | vm_compute; reflexivity
          | exact E2 | vm_compute; discriminate | ];
          vm_compute in Hparse; injection Hparse as <-;
          assert (Hz : exitStatus g2 = 0) by (apply Hzero; [reflexivity | simpl; lia]);
          exists g1, tr1, g2, tr2;
          split_and!; [vm_compute; reflexivity | reflexivity | exact E2 | exact Hz |];
          rewrite Hprint, Hz; reflexivity
      end
  end.
Defined.

(** X13, at the lines "status &" and "cd /tmp > out &" where [chdir]
    fails. *)
Lemma builtins_run_in_the_shell_witness :
  runShell_body (answers 5000 0) ("status &" ++ newline) initial
  = Ret tt initial [Print ("exit value 0" ++ newline)]
  ∧ runShell_body {| getpid := 1234; fork := 5000; waitpid := (5000, 0);
                     open_max := 1024; can_open := λ _ _, true; execvp_ok := true;
                     getenv_HOME := Some "/home"; chdir := λ _, -1 |}
      ("cd /tmp > out &" ++ newline) initial
    = Ret tt initial [Chdir (Some "/tmp") (-1); Perror "Error:"].
Proof.
  split.
  - let v := eval vm_compute in (parse 1234 false ("status &" ++ newline)) in
    lazymatch v with
    | Some ?c =>
        apply (proj1 (builtins_run_in_the_shell (answers 5000 0) ("status &" ++ newline)
                        initial c (Tok "status") ltac:(vm_compute; reflexivity)
                        ltac:(vm_compute; reflexivity)));
        reflexivity
    end.
  - let v := eval vm_compute in (parse 1234 false ("cd /tmp > out &" ++ newline)) in
    lazymatch v with
    | Some ?c =>
        destruct (proj2 (builtins_run_in_the_shell
                           {| getpid := 1234; fork := 5000; waitpid := (5000, 0);
                              open_max := 1024; can_open := λ _ _, true;
                              execvp_ok := true; getenv_HOME := Some "/home";
                              chdir := λ _, -1 |}
                           ("cd /tmp > out &" ++ newline)
                           initial c (Tok "cd") ltac:(vm_compute; reflexivity)
                           ltac:(vm_compute; reflexivity)) eq_refl)
          as (a1 & Ha1 & Hrun)
    end.
    rewrite Hrun. vm_compute in Ha1. injection Ha1 as <-. reflexivity.
Defined.

(** X14, at the line "echo $$ &" in a fresh shell. *)
Lemma pass_stays_in_bounds_witness :
  defined (runShell_body (answers 5000 0) ("echo $$ &" ++ newline) initial)
  ∧ ∃ g' tr, runShell_body (answers 5000 0) ("echo $$ &" ++ newline) initial
             = Ret tt g' tr.
Proof.
  split.
  - apply (pass_stays_in_bounds (answers 5000 0) ("echo $$ &" ++ newline) initial
             (Inherited 0) (Inherited 1)); try (vm_compute; reflexivity).
    + vm_compute. lia.
    + intros t Hin Hd. vm_compute in Hin.
      destruct Hin as [<-|[<-|[<-|[]]]]; try discriminate Hd.
      vm_compute. lia.
    + vm_compute. lia.
  - eexists _, _. vm_compute. reflexivity.
Defined.

(** X15, at a fresh shell whose input is at its end, and at a line that
    starts with NUL. *)
Lemma end_of_input_witness :
  runShell [answers 5000 0; answers 5001 0] EmptyString initial = Undefined [Print ": "]
  ∧ runShell_body (answers 5000 0) (String NUL "ls") initial = Undefined [].
Proof.
  split.
  - apply (end_of_input (answers 5000 0) initial). reflexivity.
  - apply (end_of_input (answers 5000 0) initial). reflexivity.
Defined.

(** X16, at the input "ls", newline, "exit", newline, and at an input of
    2047 letters followed by "b" and a newline. *)
Lemma long_lines_are_cut_witness :
  (∃ g' tr,
     runShell_pass (answers 5000 0) ("ls" ++ newline ++ "exit" ++ newline) initial
     = Ret ("exit" ++ newline)%string g' tr)
  ∧ ∃ g' tr,
      runShell_pass (answers 5000 0)
        (string_of_list_ascii (repeat "a"%char 2047) ++ "b" ++ newline) initial
      = Ret ("b" ++ newline)%string g' tr
      ∧ tr = [Print ": "; Fork 5000].
Proof.
  split.
  - destruct (long_lines_are_cut (answers 5000 0) initial
                ("ls" ++ newline ++ "exit" ++ newline)) as (_ & Hline & _).
    rewrite (Hline "ls" ("exit" ++ newline)%string); try reflexivity; [|simpl; lia].
    eexists _, _. vm_compute. reflexivity.
  - destruct (long_lines_are_cut (answers 5000 0) initial
                (string_of_list_ascii (repeat "a"%char 2047) ++ "b" ++ newline))
      as (_ & _ & Hcut).
    rewrite (Hcut (string_of_list_ascii (repeat "a"%char 2047)) ("b" ++ newline)%string);
      try (vm_compute; reflexivity).
    eexists _, _. split; vm_compute; reflexivity.
Defined.

(** X17, at a shell that tracks the jobs 5000 and 5001, the first of
    which has exited with code 1, status 256. *)
Lemma reaper_overwrites_status_witness :
  ∃ g1 tr1 g2,
    runShell_lines [(answers 5000 0, "sleep 50 &" ++ newline);
                    (answers 5001 0, "sleep 60 &" ++ newline)] initial = Ret tt g1 tr1
    ∧ childTerminates (λ i, if (i =? 0)%nat then (5000, 256) else (0, 0)) SIGCHLD g1
      = Ret tt g2 [Kill 5000 SIGKILL; Print (done_line 5000 256);
                   Free {| backPID := 5000; active := false |}]
    ∧ exitStatus g2 = 256
    ∧ printStatus g2 = Ret tt g2 [Print ("exit value 256" ++ newline)].
Proof.
  let r := eval vm_compute in
      (runShell_lines [(answers 5000 0, "sleep 50 &" ++ newline);
                       (answers 5001 0, "sleep 60 &" ++ newline)] initial) in
  lazymatch r with
  | Ret _ ?g1 ?tr1 =>
      destruct (reaper_overwrites_status
                  (λ i, if (i =? 0)%nat then (5000, 256) else (0, 0)) SIGCHLD g1)
        as (g2 & Hrun & Hprint & _ & Hlast); [vm_compute; reflexivity|];
      assert (Hst : exitStatus g2 = 256)
        by (apply (Hlast 0%nat {| backPID := 5000; active := true |});
            [ reflexivity | reflexivity
            | intros [|[|j]] q Hj Hq; [lia | simpl; lia | simpl; lia] ]);
      exists g1, tr1, g2;
      split_and!; [vm_compute; reflexivity | rewrite Hrun; vm_compute; reflexivity
                  | exact Hst | rewrite Hprint, Hst; reflexivity]
  end.
Defined.

(** A history: a background job is started, a command runs in the
    foreground, the reaper finds the job finished, another background job
    is started, and SIGTSTP arrives. *)
Lemma history_example :
  ∃ g stdin tr,
    reaches [Pass (answers 5000 0); Pass (answers 5001 0);
             Signal SIGCHLD (λ i, if (i =? 0)%nat then (5000, 0) else (0, 0));
             Pass (answers 5002 0); Signal SIGTSTP (λ _, (0, 0))] g stdin tr
    ∧ stdin = EmptyString
    ∧ forePID g = 5001
    ∧ jobs (backProcs g) = [job 5002]
    ∧ backgroundDisabled g = true
    ∧ forks tr = [5000; 5001; 5002]
    ∧ size (fds g) = 9%nat.
Proof.
  pose proof (reaches_start ("sleep 50 &" ++ newline ++ "ls" ++ newline
                             ++ "sleep 70 &" ++ newline)) as R.
  history_pass R (answers 5000 0).
  history_pass R0 (answers 5001 0).
  history_signal R (SIGCHLD) (λ i : nat, if (i =? 0)%nat then (5000, 0) else (0, 0))
    (childTerminates (λ i : nat, if (i =? 0)%nat then (5000, 0) else (0, 0)) SIGCHLD).
  history_pass R0 (answers 5002 0).
  history_signal R (SIGTSTP) (λ _ : nat, (0, 0)) (disableBackground SIGTSTP).
  eexists _, _, _. split; [exact R0|].
  split_and!; vm_compute; reflexivity.
Qed.

(** X18, at that history. *)
Lemma job_table_in_every_history_witness :
  ∃ g stdin tr,
    reaches [Pass (answers 5000 0); Pass (answers 5001 0);
             Signal SIGCHLD (λ i, if (i =? 0)%nat then (5000, 0) else (0, 0));
             Pass (answers 5002 0); Signal SIGTSTP (λ _, (0, 0))] g stdin tr
    ∧ jobs (backProcs g) = [job 5002]
    ∧ length (backProcs g) = MAX_PROCS
    ∧ (∀ i p, backProcs g !! i = Some (Some p) →
              active p = true ∧ 0 < backPID p ∧ In (Fork (backPID p)) tr)
    ∧ ∃ g' tr', exitShell g = Exited EXIT_SUCCESS g' tr'.
Proof.
  destruct history_example as (g & stdin & tr & R & _ & _ & Hjobs & _).
  destruct (job_table_in_every_history _ _ _ _ R) as (Hlen & Hall & _ & Hexit).
  exists g, stdin, tr. auto.
Defined.

(** X19, at that history, and at a limit of ten descriptors. *)
Lemma shell_keeps_its_descriptors_witness :
  ∃ g stdin tr,
    reaches [Pass (answers 5000 0); Pass (answers 5001 0);
             Signal SIGCHLD (λ i, if (i =? 0)%nat then (5000, 0) else (0, 0));
             Pass (answers 5002 0); Signal SIGTSTP (λ _, (0, 0))] g stdin tr
    ∧ forks tr = [5000; 5001; 5002]
    ∧ size (fds g) = 9%nat
    ∧ fds g !! STDIN_FILENO = Some (Inherited 0)
    ∧ fds g !! STDOUT_FILENO = Some (Inherited 1)
    ∧ ∃ g1,
        runCommand {| getpid := 1234; fork := 5003; waitpid := (5003, 0); open_max := 10;
                      can_open := λ _ _, true; execvp_ok := true;
                      getenv_HOME := None; chdir := λ _, 0 |}
          ({| args := [Some (Tok "ls"); None]; inputFile := None; outputFile := None;
              background := false |}, EmptyString) g
        = Exited EXIT_FAILURE g1 [Perror "Error"].
Proof.
  destruct history_example as (g & stdin & tr & R & _ & _ & _ & _ & Hforks & Hsize).
  destruct (shell_keeps_its_descriptors _ _ _ _ R) as (H0 & H1 & _ & _ & Hout).
  exists g, stdin, tr. split_and!; try assumption.
  apply Hout. rewrite Hforks. simpl. lia.
Defined.

(** X20, at that history, and in a fresh shell. *)
Lemma interrupt_kills_last_foreground_witness :
  (∃ g stdin tr,
     reaches [Pass (answers 5000 0); Pass (answers 5001 0);
              Signal SIGCHLD (λ i, if (i =? 0)%nat then (5000, 0) else (0, 0));
              Pass (answers 5002 0); Signal SIGTSTP (λ _, (0, 0))] g stdin tr
     ∧ forePID g = 5001
     ∧ interruptSignal SIGINT g
       = Ret tt g [Kill 5001 SIGKILL; Print ("terminated by signal 2" ++ newline)])
  ∧ interruptSignal SIGINT initial
    = Ret tt initial [Kill (-1) SIGKILL; Print ("terminated by signal 2" ++ newline)].
Proof.
  split.
  - destruct history_example as (g & stdin & tr & R & _ & Hfore & _).
    destruct (interrupt_kills_last_foreground _ _ _ _ (λ _, (0, 0)) R) as (_ & Hrun & _).
    exists g, stdin, tr. rewrite Hfore in Hrun. auto.
  - apply (interrupt_kills_last_foreground [] initial EmptyString [] (λ _, (0, 0))
             (reaches_start EmptyString)).
Defined.

(** X21, at that history. *)
Lemma mode_follows_SIGTSTP_witness :
  ∃ g stdin tr,
    reaches [Pass (answers 5000 0); Pass (answers 5001 0);
             Signal SIGCHLD (λ i, if (i =? 0)%nat then (5000, 0) else (0, 0));
             Pass (answers 5002 0); Signal SIGTSTP (λ _, (0, 0))] g stdin tr
    ∧ backgroundDisabled g = true
    ∧ ∀ pid buffer c r,
        parse pid (backgroundDisabled g) buffer = Some (c, r) → background c = false.
Proof.
  destruct history_example as (g & stdin & tr & R & _).
  destruct (mode_follows_SIGTSTP _ _ _ _ (λ _, (0, 0)) R) as (_ & Hmode & Hparse).
  exists g, stdin, tr. split_and!; [assumption | rewrite Hmode; reflexivity |].
  apply Hparse. reflexivity.
Defined.

(** ** Further properties of the launcher *)

Lemma prepend_Execed_inv {A} (tr : list event) (r : outcome A) v g t :
  prepend tr r = Execed v g t → ∃ t', r = Execed v g t' ∧ t = (tr ++ t')%list.
Proof. destruct r; simpl; intros [=]; subst; eauto. Qed.

Lemma exec_outcome_Execed (o : os) (c : command * string) g v g' tr :
  exec_outcome o c g = Execed v g' tr → g' = g.
Proof.
  unfold exec_outcome. destruct (argv (snd c) (args (fst c))) as [[|prog rest]|];
    try discriminate.
  destruct (execvp_ok o); [|discriminate]. now intros [= _ <- _].
Qed.

(** A redirection changes the one descriptor it is for. *)
Lemma redirected_Execed (n target : Z)
    (path : string) (flags : list oflag) (k : shell → outcome Z) g v g' tr :
  redirected n target path flags k g = Execed v g' tr →
  ∃ tr', k (with_fds (<[target := Opened path flags]> (fds g)) g) = Execed v g' tr'.
Proof.
  unfold redirected. intros H. apply prepend_Execed_inv in H as (tr' & H & _). eauto.
Qed.

(** The child changes no descriptor other than 0 and 1. *)
Lemma runCommand_child_frame (o : os) (c : command * string) g v g' tr :
  is_Some (fds g !! STDIN_FILENO) → is_Some (fds g !! STDOUT_FILENO) →
  runCommand_child o c g = Execed v g' tr →
  ∀ n, n ≠ STDIN_FILENO → n ≠ STDOUT_FILENO → fds g' !! n = fds g !! n.
Proof.
  intros H0 H1 Hrun n Hn0 Hn1.
  assert (Hexec : ∀ g1, exec_outcome o c g1 = Execed v g' tr ∨
                        (∃ tr', exec_outcome o c g1 = Execed v g' tr') →
                        fds g' !! n = fds g1 !! n).
  { intros g1 [H|[tr' H]]; apply exec_outcome_Execed in H; now subst. }
  assert (Hin : ∀ path flags m g1 tr1,
            redirected m STDIN_FILENO path flags (exec_outcome o c) g1 = Execed v g' tr1 →
            fds g' !! n = fds g1 !! n).
  { intros path flags m g1 tr1 H. apply redirected_Execed in H as [tr' H].
    rewrite (Hexec _ (or_intror (ex_intro _ tr' H))). cbn [with_fds fds].
    rewrite lookup_insert_ne by congruence. reflexivity. }
  destruct (background (fst c)) eqn:Hbg.
  - rewrite (runCommand_child_background o c g Hbg H0 H1) in Hrun. cbv zeta in Hrun.
    destruct (outputFile (fst c)) as [out|].
    + destruct (inputFile (fst c)) as [inp|]; [now apply Hexec; left|].
      destruct (open_result o DEV_NULL [O_RDONLY] (fds g)); [|discriminate].
      now apply Hin in Hrun.
    + destruct (open_result o DEV_NULL [O_WRONLY] (fds g)); [|discriminate].
      apply redirected_Execed in Hrun as [tr' Hrun]. cbn [with_fds fds] in Hrun.
      destruct (inputFile (fst c)) as [inp|].
      * rewrite (Hexec _ (or_intror (ex_intro _ tr' Hrun))). cbn [with_fds fds].
        rewrite lookup_insert_ne by congruence. reflexivity.
      * destruct (open_result o DEV_NULL [O_RDONLY] _); [|discriminate].
        apply Hin in Hrun. rewrite Hrun. cbn [with_fds fds].
        rewrite lookup_insert_ne by congruence. reflexivity.
  - rewrite (runCommand_child_foreground o c g Hbg H0 H1) in Hrun. cbv zeta in Hrun.
    destruct (outputFile (fst c)) as [out|].
    + destruct (open_result o out [O_WRONLY; O_TRUNC; O_CREAT] (fds g)); [|discriminate].
      apply redirected_Execed in Hrun as [tr' Hrun]. cbn [with_fds fds] in Hrun.
      destruct (inputFile (fst c)) as [inp|].
      * destruct (open_result o inp [O_RDONLY] _); [|discriminate].
        apply Hin in Hrun. rewrite Hrun. cbn [with_fds fds].
        rewrite lookup_insert_ne by congruence. reflexivity.
      * rewrite (Hexec _ (or_intror (ex_intro _ tr' Hrun))). cbn [with_fds fds].
        rewrite lookup_insert_ne by congruence. reflexivity.
    + destruct (inputFile (fst c)) as [inp|]; [|now apply Hexec; left].
      destruct (open_result o inp [O_RDONLY] (fds g)); [|discriminate].
      now apply Hin in Hrun.
Qed.

(** X22.  The program that the child executes inherits every descriptor
    of the shell other than 0 and 1 as it is: the child changes those two
    only, and closes nothing but its temporaries.  Among the descriptors
    inherited are the two duplicates that [runCommand] has just saved. *)
Theorem child_inherits_the_descriptors
    (o : os) (c : command * string) (g : shell) (f0 f1 : file) :
  fds g !! STDIN_FILENO = Some f0 → fds g !! STDOUT_FILENO = Some f1 →
  Z.of_nat (size (fds g)) + 1 < open_max o →
  fork o = CHILD →
  ∃ stdOut stdIn,
    fds g !! stdOut = None ∧ fds g !! stdIn = None ∧ stdOut ≠ stdIn ∧
    runCommand o c g
    = prepend [Fork CHILD]
        (runCommand_child o c
           (with_fds (<[stdIn := f0]> (<[stdOut := f1]> (fds g))) g)) ∧
    ∀ v g' tr, runCommand o c g = Execed v g' tr →
      fds g' !! stdOut = Some f1 ∧ fds g' !! stdIn = Some f0 ∧
      ∀ n, n ≠ STDIN_FILENO → n ≠ STDOUT_FILENO → fds g !! n ≠ None →
           fds g' !! n = fds g !! n.
Proof.
  intros H0 H1 Hmax Hfork.
  destruct (runCommand_forks o c g f0 f1 H0 H1 Hmax)
    as (stdOut & stdIn & HfO & HfI & Hne & Hrun).
  rewrite Hfork in Hrun. change (CHILD =? CHILD) with true in Hrun. cbv iota in Hrun.
  exists stdOut, stdIn. split_and!; try assumption.
  intros v g' tr Hexec. rewrite Hrun in Hexec.
  apply prepend_Execed_inv in Hexec as (tr' & Hexec & _).
  assert (Hframe : ∀ n, n ≠ STDIN_FILENO → n ≠ STDOUT_FILENO →
                        fds g' !! n = <[stdIn := f0]> (<[stdOut := f1]> (fds g)) !! n).
  { intros n Hn0 Hn1.
    assert (H0' : is_Some (fds (with_fds (<[stdIn := f0]> (<[stdOut := f1]> (fds g))) g)
                             !! STDIN_FILENO))
      by (cbn [with_fds fds]; simplify_map_eq; eauto).
    assert (H1' : is_Some (fds (with_fds (<[stdIn := f0]> (<[stdOut := f1]> (fds g))) g)
                             !! STDOUT_FILENO))
      by (cbn [with_fds fds]; simplify_map_eq; eauto).
    exact (runCommand_child_frame o c _ v g' tr' H0' H1' Hexec n Hn0 Hn1). }
  split_and!.
  - rewrite Hframe by congruence. simplify_map_eq. reflexivity.
  - rewrite Hframe by congruence. simplify_map_eq. reflexivity.
  - intros n Hn0 Hn1 Hopen. rewrite (Hframe n Hn0 Hn1).
    rewrite !lookup_insert_ne by congruence. reflexivity.
Qed.

(** When the descriptors run out, the launcher exits with the globals it
    was given, descriptors apart. *)
Lemma runCommand_dup_fails (o : os) (c : command * string) g (f0 f1 : file) :
  fds g !! STDIN_FILENO = Some f0 → fds g !! STDOUT_FILENO = Some f1 →
  contiguous (fds g) → open_max o ≤ Z.of_nat (size (fds g)) + 1 →
  ∃ F, runCommand o c g = Exited EXIT_FAILURE (with_fds F g) [Perror "Error"].
Proof.
  intros H0 H1 Hc Hmax. unfold runCommand.
  pose proof (lowest_free_contiguous _ Hc) as Hl1.
  assert (E1 : dup o STDOUT_FILENO g
               = if Z.of_nat (size (fds g)) <? open_max o
                 then Ret (Z.of_nat (size (fds g)))
                        (with_fds (<[Z.of_nat (size (fds g)) := f1]> (fds g)) g) []
                 else Ret (-1) g []).
  { unfold dup. rewrite bind_get, H1, Hl1.
    destruct (Z.of_nat (size (fds g)) <? open_max o); reflexivity. }
  destruct (Z.ltb_spec (Z.of_nat (size (fds g))) (open_max o)) as [Hlt|Hge];
    rewrite (bind_Ret _ _ _ _ _ _ E1), prepend_nil.
  - destruct (contiguous_insert (fds g) f1 Hc) as (Hc1 & Hs1 & Hfree).
    assert (E2 : dup o STDIN_FILENO (with_fds (<[Z.of_nat (size (fds g)) := f1]> (fds g)) g)
                 = Ret (-1) (with_fds (<[Z.of_nat (size (fds g)) := f1]> (fds g)) g) []).
    { unfold dup. rewrite bind_get. cbn [with_fds fds].
      rewrite lookup_insert_ne, H0, (lowest_free_contiguous _ Hc1), Hs1 by congruence.
      destruct (Z.ltb_spec (Z.of_nat (S (size (fds g)))) (open_max o)); [lia | reflexivity]. }
    rewrite (bind_Ret _ _ _ _ _ _ E2), prepend_nil. rewrite orb_true_r.
    eexists. reflexivity.
  - change (-1 =? -1) with true. cbn [orb].
    destruct (dup_cases o STDIN_FILENO g) as [E2|(n2 & f & _ & _ & _ & _ & E2)];
      rewrite (bind_Ret _ _ _ _ _ _ E2), prepend_nil.
    + exists (fds g). now rewrite with_fds_id.
    + eexists. reflexivity.
Qed.

(** X23.  A failure of [fork], or of one of the two [dup]s before it,
    ends the whole shell, not just the command: the pass prints an error
    and exits with status 1, and, unlike the built-in [exit], it sends no
    signal to the background jobs and leaves the job table as it is. *)
Theorem failed_launch_ends_the_shell
    (o : os) (buffer : string) (g : shell) (c : command * string) (a0 : argptr)
    (f0 f1 : file) :
  parse (getpid o) (backgroundDisabled g) buffer = Some c →
  args (fst c) !! 0%nat = Some (Some a0) →
  arg_string (snd c) a0 ≠ "exit" → arg_string (snd c) a0 ≠ "cd" →
  arg_string (snd c) a0 ≠ "status" →
  fds g !! STDIN_FILENO = Some f0 → fds g !! STDOUT_FILENO = Some f1 →
  (Z.of_nat (size (fds g)) + 1 < open_max o → fork o < 0 →
   ∃ g1, runShell_body o buffer g
         = Exited EXIT_FAILURE g1 [Fork (fork o); Perror "Error"]
         ∧ backProcs g1 = backProcs g) ∧
  (contiguous (fds g) → open_max o ≤ Z.of_nat (size (fds g)) + 1 →
   ∃ g1, runShell_body o buffer g = Exited EXIT_FAILURE g1 [Perror "Error"]
         ∧ backProcs g1 = backProcs g).
Proof.
  intros Hparse Ha0 Hexit Hcd Hstatus H0 H1.
  rewrite (runShell_body_external o buffer g c a0 Hparse Ha0 Hexit Hcd Hstatus).
  split.
  - intros Hmax Hfork.
    destruct (runCommand_forks o c g f0 f1 H0 H1 Hmax)
      as (stdOut & stdIn & _ & _ & _ & Hrun).
    destruct (Z.eqb_spec (fork o) CHILD) as [E|_]; [unfold CHILD in E; lia|].
    destruct (Z.ltb_spec CHILD (fork o)) as [E|_]; [unfold CHILD in E; lia|].
    rewrite bind_emit in Hrun. cbn [prepend] in Hrun.
    rewrite (bind_Exited _ _ _ _ _ _ Hrun). eexists. split; reflexivity.
  - intros Hc Hmax.
    destruct (runCommand_dup_fails o c g f0 f1 H0 H1 Hc Hmax) as [F Hrun].
    rewrite (bind_Exited _ _ _ _ _ _ Hrun). eexists. split; reflexivity.
Qed.

(** X22, at the child of "ls" in a shell that has run two commands. *)
Lemma child_inherits_the_descriptors_witness :
  ∃ g1 tr1 v g' tr,
    runShell_lines [(answers 5000 0, "ls" ++ newline);
                    (answers 5001 0, "ls" ++ newline)] initial = Ret tt g1 tr1
    ∧ runCommand (answers 0 0)
        ({| args := [Some (Tok "ls"); None]; inputFile := None; outputFile := None;
            background := false |}, EmptyString) g1 = Execed v g' tr
    ∧ size (fds g') = 9%nat
    ∧ ∀ n, n ≠ STDIN_FILENO → n ≠ STDOUT_FILENO → fds g1 !! n ≠ None →
           fds g' !! n = fds g1 !! n.
Proof.
  let r := eval vm_compute in
      (runShell_lines [(answers 5000 0, "ls" ++ newline);
                       (answers 5001 0, "ls" ++ newline)] initial) in
  lazymatch r with
  | Ret _ ?g1 ?tr1 =>
      let c := constr:(({| args := [Some (Tok "ls"); None]; inputFile := None;
                           outputFile := None; background := false |}, EmptyString)) in
      let r2 := eval vm_compute in (runCommand (answers 0 0) c g1) in
      lazymatch r2 with
      | Execed ?v ?g' ?tr =>
          assert (E : runCommand (answers 0 0) c g1 = Execed v g' tr)
            by (vm_compute; reflexivity);
          destruct (child_inherits_the_descriptors (answers 0 0) c g1
                      (Inherited 0) (Inherited 1))
            as (stdOut & stdIn & _ & _ & _ & _ & Hall);
          [ vm_compute; reflexivity | vm_compute; reflexivity | vm_compute; reflexivity
          | reflexivity | ];
          destruct (Hall v g' tr E) as (_ & _ & Hkeep);
          exists g1, tr1, v, g', tr;
          split_and!; [vm_compute; reflexivity | exact E | vm_compute; reflexivity
                      | exact Hkeep]
      end
  end.
Defined.

(** X23, at the command "ls" in a fresh shell when [fork] fails. *)
Lemma failed_launch_ends_the_shell_witness :
  ∃ g1, runShell_body (answers (-1) 0) ("ls" ++ newline) initial
        = Exited EXIT_FAILURE g1 [Fork (-1); Perror "Error"]
        ∧ backProcs g1 = backProcs initial.
Proof.
  let v := eval vm_compute in (parse 1234 false ("ls" ++ newline)) in
  lazymatch v with
  | Some ?c =>
      apply (proj1 (failed_launch_ends_the_shell (answers (-1) 0) ("ls" ++ newline)
                      initial c (Tok "ls") (Inherited 0) (Inherited 1)
                      ltac:(vm_compute; reflexivity) ltac:(vm_compute; reflexivity)
                      ltac:(discriminate) ltac:(discriminate) ltac:(discriminate)
                      eq_refl eq_refl));
      [vm_compute; reflexivity | vm_compute; reflexivity]
  end.
Defined.

(** ** The mode and the parse *)

Lemma getCommand_body_in_foreground (pid : Z) (st : pstate) (token : string) :
  getCommand_body pid true (in_foreground st) token
  = step_in_foreground (getCommand_body pid false st token).
Proof.
  unfold getCommand_body, store_arg. cbn [in_foreground outRedirect inRedirect i cmd
    without_background args set_res].
  repeat match goal with
         | |- context [if ?b then _ else _] => destruct b
         | |- context [match ?x with Some _ => _ | None => _ end] => destruct x
         end; reflexivity.
Qed.

Lemma getCommand_loop_in_foreground (pid : Z) : ∀ tokens st,
  getCommand_loop pid true tokens (in_foreground st)
  = in_foreground <$> getCommand_loop pid false tokens st.
Proof.
  induction tokens as [|token tokens IH]; intros st; [reflexivity|].
  cbn [getCommand_loop]. rewrite getCommand_body_in_foreground.
  destruct (getCommand_body pid false st token) as [st1|st1|]; cbn [step_in_foreground];
    [apply IH | reflexivity | reflexivity].
Qed.

(** X24.  Foreground-only mode changes nothing in the parse of a line but
    the background flag: the arguments, the input file, the output file
    and the contents of [res] are those of the parse with background
    execution enabled, and the parse faults on the same lines. *)
Theorem mode_changes_only_the_flag (pid : Z) (buffer : string) :
  parse pid true buffer
  = (λ cr, (without_background (fst cr), snd cr)) <$> parse pid false buffer.
Proof.
  unfold parse, getCommand.
  change (start (blank (strlen buffer))) with (in_foreground (start (blank (strlen buffer))))
    at 1.
  rewrite getCommand_loop_in_foreground.
  destruct (getCommand_loop pid false (strtok_all buffer) (start (blank (strlen buffer))));
    reflexivity.
Qed.

(** ** Registering a job and reaping it *)

Lemma reap_table_app (w : nat → Z * Z) : ∀ t1 t2 i,
  reap_table w i (t1 ++ t2) = (reap_table w i t1 ++ reap_table w (i + length t1) t2)%list.
Proof.
  induction t1 as [|x t1 IH]; intros t2 i.
  - cbn [app length reap_table]. now rewrite Nat.add_0_r.
  - cbn [app length reap_table]. rewrite IH.
    now replace (S i + length t1)%nat with (i + S (length t1))%nat by lia.
Qed.

Lemma reap_trace_app (w : nat → Z * Z) : ∀ t1 t2 i,
  reap_trace w i (t1 ++ t2) = (reap_trace w i t1 ++ reap_trace w (i + length t1) t2)%list.
Proof.
  induction t1 as [|x t1 IH]; intros t2 i.
  - cbn [app length reap_trace]. now rewrite Nat.add_0_r.
  - cbn [app length reap_trace]. rewrite IH, app_assoc.
    now replace (S i + length t1)%nat with (i + S (length t1))%nat by lia.
Qed.

(** X25.  Registering a background job and then reaping it is a round
    trip on the job table: when the reaper finds that job terminated and
    no other, the table is again what it was before the registration, the
    slot is the first free one again, and the run has killed, announced
    and freed that job and nothing else. *)
Theorem register_then_reap
    (g : shell) (pid : Z) (w : nat → Z * Z) (sigNum : Z) (k : nat) :
  length (backProcs g) = MAX_PROCS →
  free_slot (backProcs g) = Some k →
  0 < fst (w k) →
  (∀ j, j ≠ k → fst (w j) ≤ 0) →
  ∃ g1 g2,
    saveProcess pid g = Ret tt g1 [] ∧
    backProcs g1 !! k = Some (Some (job pid)) ∧
    childTerminates w sigNum g1
    = Ret tt g2 [Kill pid SIGKILL; Print (done_line (fst (w k)) (snd (w k)));
                 Free (mark_inactive (job pid))] ∧
    backProcs g2 = backProcs g ∧
    free_slot (backProcs g2) = Some k.
Proof.
  intros Hlen Hk Hw Hothers.
  pose proof (saveProcess_spec pid g Hlen) as Hsave. rewrite Hk in Hsave.
  change {| backPID := pid; active := true |} with (job pid) in Hsave.
  destruct (free_slot_Some _ _ Hk) as [Hnone _].
  pose proof (lookup_lt_Some _ _ _ Hnone) as Hlt.
  eexists _, _. split; [exact Hsave|]. cbn [with_backProcs backProcs].
  split; [now apply list_lookup_insert_eq|].
  rewrite childTerminates_spec by (cbn [with_backProcs backProcs]; now rewrite length_insert).
  cbn [with_backProcs with_exitStatus backProcs].
  assert (Hsplit : <[k := Some (job pid)]> (backProcs g)
                   = (take k (backProcs g) ++ Some (job pid) :: drop (S k) (backProcs g))%list).
  { rewrite <- (take_drop_middle _ _ _ Hnone) at 1.
    rewrite insert_app_r_alt by (rewrite length_take; lia).
    rewrite length_take. replace (k - k `min` length (backProcs g))%nat with 0%nat by lia.
    reflexivity. }
  assert (Htk : length (take k (backProcs g)) = k) by (rewrite length_take; lia).
  assert (H1 : reap_table w 0 (take k (backProcs g)) = take k (backProcs g)
               ∧ reap_trace w 0 (take k (backProcs g)) = []).
  { apply reap_none. intros j p Hj. apply Hothers. simpl.
    apply lookup_lt_Some in Hj. lia. }
  assert (H2 : reap_table w (S k) (drop (S k) (backProcs g)) = drop (S k) (backProcs g)
               ∧ reap_trace w (S k) (drop (S k) (backProcs g)) = []).
  { apply reap_none. intros j p Hj. apply Hothers. lia. }
  destruct H1 as [T1 R1], H2 as [T2 R2].
  assert (Htable : reap_table w 0 (<[k := Some (job pid)]> (backProcs g)) = backProcs g).
  { rewrite Hsplit, reap_table_app, T1, Htk. cbn [reap_table Nat.add].
    rewrite T2. unfold reap_slot, reaped.
    destruct (Z.ltb_spec 0 (fst (w k))); [|lia].
    now rewrite (take_drop_middle _ _ _ Hnone). }
  assert (Htrace : reap_trace w 0 (<[k := Some (job pid)]> (backProcs g))
                   = [Kill pid SIGKILL; Print (done_line (fst (w k)) (snd (w k)));
                      Free (mark_inactive (job pid))]).
  { rewrite Hsplit, reap_trace_app, R1, Htk. cbn [reap_trace Nat.add app].
    rewrite R2, app_nil_r. unfold reap_events.
    destruct (Z.ltb_spec 0 (fst (w k))); [reflexivity | lia]. }
  rewrite Htable, Htrace. split_and!; [reflexivity | reflexivity | exact Hk].
Qed.

(** X24, at the line "sleep 5 > out &". *)
Lemma mode_changes_only_the_flag_witness :
  ∃ c r, parse 1234 false ("sleep 5 > out &" ++ newline) = Some (c, r)
         ∧ background c = true
         ∧ parse 1234 true ("sleep 5 > out &" ++ newline)
           = Some (without_background c, r).
Proof.
  let v := eval vm_compute in (parse 1234 false ("sleep 5 > out &" ++ newline)) in
  lazymatch v with
  | Some (?c, ?r) =>
      assert (E : parse 1234 false ("sleep 5 > out &" ++ newline) = Some (c, r))
        by (vm_compute; reflexivity);
      exists c, r; split_and!; [exact E | reflexivity |];
      rewrite (mode_changes_only_the_flag 1234 ("sleep 5 > out &" ++ newline)), E;
      reflexivity
  end.
Defined.

(** X25, at a shell that tracks the job 5000, for the job 5001. *)
Lemma register_then_reap_witness :
  ∃ g tr g1 g2,
    runShell_lines [(answers 5000 0, "sleep 50 &" ++ newline)] initial = Ret tt g tr
    ∧ saveProcess 5001 g = Ret tt g1 []
    ∧ jobs (backProcs g1) = [job 5000; job 5001]
    ∧ childTerminates (λ i, if (i =? 1)%nat then (5001, 15) else (0, 0)) SIGCHLD g1
      = Ret tt g2 [Kill 5001 SIGKILL; Print (done_line 5001 15);
                   Free (mark_inactive (job 5001))]
    ∧ backProcs g2 = backProcs g.
Proof.
  let r := eval vm_compute in
      (runShell_lines [(answers 5000 0, "sleep 50 &" ++ newline)] initial) in
  lazymatch r with
  | Ret _ ?g ?tr =>
      destruct (register_then_reap g 5001
                  (λ i, if (i =? 1)%nat then (5001, 15) else (0, 0)) SIGCHLD 1%nat)
        as (g1 & g2 & Hsave & _ & Hreap & Htable & _);
      [ vm_compute; reflexivity | vm_compute; reflexivity | reflexivity
      | intros [|[|j]] Hj; simpl; [lia | congruence | lia] | ];
      exists g, tr, g1, g2;
      split_and!; [vm_compute; reflexivity | exact Hsave | | exact Hreap | exact Htable]
  end.
  vm_compute in Hsave. injection Hsave as <-. vm_compute. reflexivity.
Defined.
